(** * A worker-thread job queue (jobqueue.c, misc.c): model and properties

    The program is embedded as an interleaving machine.  Every thread has a
    program counter named after the source line it is about to execute
    (together with the local variables that are live there), and the machine
    state holds the heap of malloc'ed blocks, the fields of the one
    [struct JobQueue], the owner thread, the workers, the memory the job
    functions act on and a history of the library calls made so far.

    A step is chosen by a [Choice]: which thread moves, what status the
    pthread call of that step returns, what pointer malloc returns.  Condition
    variables are modelled with spurious wake-ups allowed (as POSIX permits),
    so a waiter may resume whenever the mutex is free; signal and broadcast
    therefore only show in the history.

    Steps interleave: every thread sees the writes of the steps before its
    own.  What a job function does is a function on the memory the jobs work
    on, applied in one step when the function returns; this describes jobs
    that do not race with each other or with the owner, such as those of the
    unit test, which write disjoint cells. *)

From stdpp Require Import gmap list.

Local Open Scope Z_scope.

(** ** Heap blocks, results, events *)

Abbreviation NULL := 0%Z (only parsing).

(** <stdlib.h>: EXIT_FAILURE *)
Definition EXIT_FAILURE : Z := 1.

(** What a malloc'ed block holds.  [BJob] is a [struct Job] with its three
    fields in declaration order; [BThreads len] is the array
    [pthread_t thread[len]]; [BJobQueue] is the storage of the
    [struct JobQueue], whose fields are kept in the machine state. *)
Inductive Block : Type :=
| BJob (next param jobfun : Z)
| BThreads (len : Z)
| BJobQueue.

Global Instance Block_eq_dec : EqDecision Block.
Proof. solve_decision. Defined.

Inductive Res (A : Type) : Type :=
| Done (a : A)
| Fault
| OutOfFuel.
Arguments Done {A} a.
Arguments Fault {A}.
Arguments OutOfFuel {A}.

Inductive Tid : Type :=
| Main
| Worker (i : nat).

Global Instance Tid_eq_dec : EqDecision Tid.
Proof. solve_decision. Defined.

Inductive Cond : Type :=
| wakeWorker
| wakeMain.

Global Instance Cond_eq_dec : EqDecision Cond.
Proof. solve_decision. Defined.

Inductive Event : Type :=
| EvMalloc (p : Z)
| EvLock
| EvUnlock
| EvSignal (c : Cond)
| EvBroadcast (c : Cond)
| EvWait (c : Cond)
| EvWoken (c : Cond)
| EvCreate (i : Z)
| EvLink (jobfun param : Z)
| EvUnlink (jobfun param : Z)
| EvCall (jobfun param : Z)
| EvReturn (jobfun param : Z).

Global Instance Event_eq_dec : EqDecision Event.
Proof. solve_decision. Defined.

Inductive Status : Type :=
| Running
| Exited (code : Z)
| Aborted
| Faulted.

Global Instance Status_eq_dec : EqDecision Status.
Proof. solve_decision. Defined.

(** ** Heap-level functions *)

(** free(p): a no-op on NULL, undefined on a pointer that is not allocated. *)
Definition hfree (h : gmap Z Block) (p : Z) : Res (gmap Z Block) :=
  if decide (p = NULL) then Done h
  else match h !! p with
       | Some _ => Done (delete p h)
       | None => Fault
       end.

(** Job_free (jobqueue.c:248-253); [fuel] bounds the depth of the recursion. *)
Fixpoint Job_free (fuel : nat) (h : gmap Z Block) (job : Z) : Res (gmap Z Block) :=
  match fuel with
  | O => OutOfFuel
  | S k =>
      if decide (job = NULL) then Done h
      else match h !! job with
           | Some (BJob next _ _) =>
               match Job_free k h next with
               | Done h' => hfree h' job
               | r => r
               end
           | _ => Fault
           end
  end.

Arguments Job_free : simpl never.

(** job->next = jq->todo; jq->todo = job;  (jobqueue.c:136-137).
    Returns the new heap and the new value of jq->todo. *)
Definition link_head (h : gmap Z Block) (todo job : Z) : Res (gmap Z Block * Z) :=
  match h !! job with
  | Some (BJob _ param jobfun) => Done (<[job := BJob todo param jobfun]> h, job)
  | _ => Fault
  end.

(** job = jq->todo; jq->todo = jq->todo->next;  (jobqueue.c:187-188).
    Returns the job taken and the new value of jq->todo. *)
Definition unlink_head (h : gmap Z Block) (todo : Z) : Res (Z * Z) :=
  match h !! todo with
  | Some (BJob next _ _) => Done (todo, next)
  | _ => Fault
  end.

(** [chain h p l]: starting at [p] and following [next] one meets exactly
    the cells of [l] (address, then jobfun and param) and then NULL: the
    pending list is finite and ends. *)
Fixpoint chain (h : gmap Z Block) (p : Z) (l : list (Z * (Z * Z))) : Prop :=
  match l with
  | [] => p = NULL
  | (a, (f, x)) :: l' =>
      p = a ∧ a ≠ NULL ∧ exists nx, h !! a = Some (BJob nx x f) ∧ chain h nx l'
  end.

(** The heap with the blocks at [as_] freed. *)
Definition free_all (as_ : list Z) (h : gmap Z Block) : gmap Z Block :=
  foldr delete h as_.

(** ** Program counters *)

(** The owner's calls after construction. *)
Inductive Op : Type :=
| OpAddJob (jobfun param : Z)
| OpWaitOnJobs
| OpFree.

(** Owner thread: [F_l] is "in function F, about to execute line l". *)
Inductive MainPC : Type :=
| Ready
| New_87 (n : Z) | New_89 (n : Z) | New_91 (n : Z) | New_95 (n : Z)
| New_99 (n : Z) | New_103 (n : Z) | New_107 (n : Z) | New_111 (n i : Z)
| Add_125 (jobfun param : Z) | Add_127 (jobfun param job : Z)
| Add_129 (jobfun param job : Z) | Add_132 (jobfun param job : Z)
| Add_136 (jobfun param job : Z) | Add_139 (jobfun param job : Z)
| Add_143 (jobfun param job : Z)
| Wait_221 | Wait_225 | Wait_226 | Wait_230 | Wait_234 | Wait_234w | Wait_241
| Free_259 | Free_263 | Free_267 | Free_271 | Free_272 | Free_273.

(** Worker thread (threadfun).  [Thr_173w] is "blocked inside
    pthread_cond_wait", [Thr_run] is "inside the job function". *)
Inductive WorkerPC : Type :=
| Thr_165 | Thr_169 | Thr_173 | Thr_173w | Thr_178 | Thr_187
| Thr_190 (job : Z) | Thr_195 (job : Z) | Thr_run (job jobfun param : Z)
| Thr_197 (job : Z)
| Thr_199 | Thr_201 | Thr_207 | Thr_212.

Global Instance MainPC_eq_dec : EqDecision MainPC.
Proof. solve_decision. Defined.
Global Instance WorkerPC_eq_dec : EqDecision WorkerPC.
Proof. solve_decision. Defined.

Definition entry (op : Op) : MainPC :=
  match op with
  | OpAddJob f x => Add_125 f x
  | OpWaitOnJobs => Wait_221
  | OpFree => Free_259
  end.

(** The fields of [struct JobQueue] (jobqueue.c:63-76).  The mutex is its
    owner, if any; the two condition variables carry no state. *)
Record JobQueue : Type := mkJobQueue {
  todo : Z;
  acceptingJobs : Z;
  threadsStopped : Z;
  nthreads : Z;
  thread : Z;
  lock : option Tid
}.

Definition set_todo (v : Z) (j : JobQueue) : JobQueue :=
  mkJobQueue v (acceptingJobs j) (threadsStopped j) (nthreads j) (thread j) (lock j).
Definition set_acceptingJobs (v : Z) (j : JobQueue) : JobQueue :=
  mkJobQueue (todo j) v (threadsStopped j) (nthreads j) (thread j) (lock j).
Definition set_threadsStopped (v : Z) (j : JobQueue) : JobQueue :=
  mkJobQueue (todo j) (acceptingJobs j) v (nthreads j) (thread j) (lock j).
Definition set_nthreads (v : Z) (j : JobQueue) : JobQueue :=
  mkJobQueue (todo j) (acceptingJobs j) (threadsStopped j) v (thread j) (lock j).
Definition set_thread (v : Z) (j : JobQueue) : JobQueue :=
  mkJobQueue (todo j) (acceptingJobs j) (threadsStopped j) (nthreads j) v (lock j).
Definition set_lock (v : option Tid) (j : JobQueue) : JobQueue :=
  mkJobQueue (todo j) (acceptingJobs j) (threadsStopped j) (nthreads j) (thread j) v.

(** What the scheduler and the environment decide for one step. *)
Record Choice : Type := mkChoice {
  who : Tid;     (* the thread that moves *)
  rc : Z;        (* status returned by the pthread call of this step *)
  ptr : Z;       (* pointer returned by the malloc of this step *)
  junk : Z       (* what freshly allocated storage happens to hold *)
}.

Section Machine.

(** The memory the job functions work on, and what calling
    [jobfun(param)] does to it. *)
Variable Mem : Type.
Variable jobsem : Z -> Z -> Mem -> Mem.

(** Whether the library is compiled with -DNDEBUG (assert is then a no-op). *)
Variable NDEBUG : bool.

Record State : Type := mkState {
  status : Status;
  heap : gmap Z Block;
  jq : Z;                       (* the handle returned by JobQueue_new *)
  q : JobQueue;                 (* the fields of *jq *)
  mainpc : MainPC;
  prog : list Op;               (* calls the owner has still to make *)
  workers : list WorkerPC;      (* thread i is jq->thread[i] *)
  mem : Mem;
  hist : list (Tid * Event)     (* most recent first *)
}.

Definition set_status (v : Status) (s : State) : State :=
  mkState v (heap s) (jq s) (q s) (mainpc s) (prog s) (workers s) (mem s) (hist s).
Definition set_heap (v : gmap Z Block) (s : State) : State :=
  mkState (status s) v (jq s) (q s) (mainpc s) (prog s) (workers s) (mem s) (hist s).
Definition set_jq (v : Z) (s : State) : State :=
  mkState (status s) (heap s) v (q s) (mainpc s) (prog s) (workers s) (mem s) (hist s).
Definition set_q (v : JobQueue) (s : State) : State :=
  mkState (status s) (heap s) (jq s) v (mainpc s) (prog s) (workers s) (mem s) (hist s).
Definition set_mainpc (v : MainPC) (s : State) : State :=
  mkState (status s) (heap s) (jq s) (q s) v (prog s) (workers s) (mem s) (hist s).
Definition set_prog (v : list Op) (s : State) : State :=
  mkState (status s) (heap s) (jq s) (q s) (mainpc s) v (workers s) (mem s) (hist s).
Definition set_workers (v : list WorkerPC) (s : State) : State :=
  mkState (status s) (heap s) (jq s) (q s) (mainpc s) (prog s) v (mem s) (hist s).
Definition set_mem (v : Mem) (s : State) : State :=
  mkState (status s) (heap s) (jq s) (q s) (mainpc s) (prog s) (workers s) v (hist s).
Definition set_hist (v : list (Tid * Event)) (s : State) : State :=
  mkState (status s) (heap s) (jq s) (q s) (mainpc s) (prog s) (workers s) (mem s) v.

Definition upd_q (f : JobQueue -> JobQueue) (s : State) : State := set_q (f (q s)) s.
Definition log (t : Tid) (e : Event) (s : State) : State := set_hist ((t, e) :: hist s) s.

(** Thread [t] continues at [pc]. *)
Inductive PC : Type :=
| PMain (pc : MainPC)
| PWorker (i : nat) (pc : WorkerPC).

Definition goto (p : PC) (s : State) : State :=
  match p with
  | PMain pc => set_mainpc pc s
  | PWorker i pc => set_workers (<[i := pc]> (workers s)) s
  end.

(** *** Library primitives *)

(** exit(code): the process is gone, no thread moves any more. *)
Definition exit_ (code : Z) (s : State) : option State := Some (set_status (Exited code) s).
(** undefined behaviour *)
Definition fault (s : State) : option State := Some (set_status Faulted s).

(** misc.h: ERR(code, msg) prints and calls exit(1) *)
Definition ERR (code : Z) (s : State) (k : option State) : option State :=
  if decide (code = 0) then k else exit_ 1 s.

(** misc.c:256 eprintf prints and calls exit(EXIT_FAILURE) *)
Definition eprintf (code : Z) (s : State) (k : option State) : option State :=
  if decide (code = 0) then k else exit_ EXIT_FAILURE s.

(** misc.c:249 die prints and calls exit(EXIT_FAILURE) *)
Definition die (s : State) : option State := exit_ EXIT_FAILURE s.

(** misc.c:38 checkmem *)
Definition checkmem (obj : Z) (s : State) (k : option State) : option State :=
  if decide (obj = NULL) then die s else k.

(** assert(b) *)
Definition assert_ (b : bool) (s : State) (k : option State) : option State :=
  if NDEBUG || b then k else Some (set_status Aborted s).

(** malloc returning [p]: NULL, or an address that is not in use. *)
Definition malloc (t : Tid) (p : Z) (b : Block) (s : State) : option State :=
  if decide (p = NULL) then Some (log t (EvMalloc NULL) s)
  else match heap s !! p with
       | None => Some (log t (EvMalloc p) (set_heap (<[p := b]> (heap s)) s))
       | Some _ => None
       end.

Definition with_heap (r : Res (gmap Z Block)) (s : State) (k : State -> option State)
  : option State :=
  match r with
  | Done h => k (set_heap h s)
  | _ => fault s
  end.

(** pthread_mutex_lock: blocks (no step) while the mutex is taken. *)
Definition mutex_lock (t : Tid) (c : Choice) (p : PC) (s : State) : option State :=
  ERR (rc c) s
    match lock (q s) with
    | None => Some (goto p (log t EvLock (upd_q (set_lock (Some t)) s)))
    | Some _ => None
    end.

(** pthread_mutex_unlock: undefined when the caller is not the owner. *)
Definition mutex_unlock (t : Tid) (c : Choice) (p : PC) (s : State) : option State :=
  if decide (lock (q s) = Some t)
  then ERR (rc c) s (Some (goto p (log t EvUnlock (upd_q (set_lock None) s))))
  else fault s.

Definition cond_signal (t : Tid) (cv : Cond) (c : Choice) (p : PC) (s : State)
  : option State :=
  ERR (rc c) s (Some (goto p (log t (EvSignal cv) s))).

Definition cond_broadcast (t : Tid) (cv : Cond) (c : Choice) (p : PC) (s : State)
  : option State :=
  ERR (rc c) s (Some (goto p (log t (EvBroadcast cv) s))).

(** pthread_cond_wait, first half: release the mutex and block. *)
Definition cond_wait_block (t : Tid) (cv : Cond) (p : PC) (s : State) : option State :=
  if decide (lock (q s) = Some t)
  then Some (goto p (log t (EvWait cv) (upd_q (set_lock None) s)))
  else fault s.

(** pthread_cond_wait, second half: woken (by a signal, a broadcast or
    spuriously), take the mutex again and return. *)
Definition cond_wait_wake (t : Tid) (cv : Cond) (c : Choice) (p : PC) (s : State)
  : option State :=
  match lock (q s) with
  | None => ERR (rc c) s (Some (goto p (log t (EvWoken cv) (upd_q (set_lock (Some t)) s))))
  | Some _ => None
  end.

(** Any access to a field of *jq needs the structure to be allocated. *)
Definition jq_live (s : State) : bool := bool_decide (heap s !! jq s = Some BJobQueue).

(** *** The owner thread *)

Definition step_main (c : Choice) (s : State) : option State :=
  let next pc := Some (goto (PMain pc) s) in
  match mainpc s with
  | Ready =>
      match prog s with
      | [] => None
      | op :: rest => Some (goto (PMain (entry op)) (set_prog rest s))
      end
  (* JobQueue_new *)
  | New_87 n =>
      (fun s' => goto (PMain (New_89 n)) (set_jq (ptr c) s')) <$> malloc Main (ptr c) BJobQueue s
  | New_89 n => checkmem (jq s) s (next (New_91 n))
  | pc =>
      if negb (jq_live s) then fault s else
      match pc with
      | Ready | New_87 _ | New_89 _ => None
      | New_91 n =>
          Some (goto (PMain (New_95 n))
                  (upd_q (fun j => set_threadsStopped 0 (set_acceptingJobs 1 (set_todo NULL j))) s))
      | New_95 n => eprintf (rc c) s (Some (goto (PMain (New_99 n)) (upd_q (set_lock None) s)))
      | New_99 n => eprintf (rc c) s (next (New_103 n))
      | New_103 n => eprintf (rc c) s (next (New_107 n))
      | New_107 n =>
          (fun s' => goto (PMain (New_111 n 0))
                       (upd_q (fun j => set_thread (ptr c) (set_nthreads n j)) s'))
            <$> malloc Main (ptr c) (BThreads n) s
      | New_111 n i =>
          if decide (i < n) then
            match heap s !! thread (q s) with
            | Some (BThreads len) =>
                if decide (0 <= i < len) then
                  eprintf (rc c) s
                    (Some (goto (PMain (New_111 n (i + 1)))
                             (log Main (EvCreate i) (set_workers (workers s ++ [Thr_165]) s))))
                else fault s
            | _ => fault s
            end
          else next Ready
      (* JobQueue_addJob *)
      | Add_125 f x =>
          assert_ (bool_decide (jq s ≠ NULL)) s
            ((fun s' => goto (PMain (Add_127 f x (ptr c))) s')
               <$> malloc Main (ptr c) (BJob (junk c) (junk c) (junk c)) s)
      | Add_127 f x job => checkmem job s (next (Add_129 f x job))
      | Add_129 f x job =>
          match heap s !! job with
          | Some (BJob nx _ _) =>
              Some (goto (PMain (Add_132 f x job)) (set_heap (<[job := BJob nx x f]> (heap s)) s))
          | _ => fault s
          end
      | Add_132 f x job => mutex_lock Main c (PMain (Add_136 f x job)) s
      | Add_136 f x job =>
          match link_head (heap s) (todo (q s)) job with
          | Done (h, t) =>
              Some (goto (PMain (Add_139 f x job))
                      (log Main (EvLink f x) (upd_q (set_todo t) (set_heap h s))))
          | _ => fault s
          end
      | Add_139 f x job => cond_signal Main wakeWorker c (PMain (Add_143 f x job)) s
      | Add_143 _ _ _ => mutex_unlock Main c (PMain Ready) s
      (* JobQueue_waitOnJobs *)
      | Wait_221 => mutex_lock Main c (PMain Wait_225) s
      | Wait_225 => Some (goto (PMain Wait_226) (upd_q (set_acceptingJobs 0) s))
      | Wait_226 =>
          if decide (threadsStopped (q s) < nthreads (q s))
          then next Wait_230 else next Wait_241
      | Wait_230 => cond_broadcast Main wakeWorker c (PMain Wait_234) s
      | Wait_234 => cond_wait_block Main wakeMain (PMain Wait_234w) s
      | Wait_234w => cond_wait_wake Main wakeMain c (PMain Wait_226) s
      | Wait_241 => mutex_unlock Main c (PMain Ready) s
      (* JobQueue_free *)
      | Free_259 => assert_ (bool_decide (jq s ≠ NULL)) s (ERR (rc c) s (next Free_263))
      | Free_263 => ERR (rc c) s (next Free_267)
      | Free_267 => ERR (rc c) s (next Free_271)
      | Free_271 =>
          with_heap (Job_free (S (size (heap s))) (heap s) (todo (q s))) s
            (fun s' => Some (goto (PMain Free_272) s'))
      | Free_272 =>
          with_heap (hfree (heap s) (thread (q s))) s
            (fun s' => Some (goto (PMain Free_273) s'))
      | Free_273 =>
          with_heap (hfree (heap s) (jq s)) s
            (fun s' => Some (goto (PMain Ready) s'))
      end
  end.

(** *** A worker thread: threadfun (jobqueue.c:153-213) *)

Definition step_worker (i : nat) (pc : WorkerPC) (c : Choice) (s : State) : option State :=
  let t := Worker i in
  let next pc' := Some (goto (PWorker i pc') s) in
  match pc with
  | Thr_212 => None
  | _ =>
      if negb (jq_live s) then fault s else
      match pc with
      | Thr_165 => mutex_lock t c (PWorker i Thr_169) s
      | Thr_169 =>
          if bool_decide (NULL = todo (q s)) && bool_decide (1 = acceptingJobs (q s))
          then next Thr_173 else next Thr_178
      | Thr_173 => cond_wait_block t wakeWorker (PWorker i Thr_173w) s
      | Thr_173w => cond_wait_wake t wakeWorker c (PWorker i Thr_169) s
      | Thr_178 =>
          if decide (NULL = todo (q s))
          then assert_ (bool_decide (0 = acceptingJobs (q s))) s (next Thr_199)
          else assert_ (bool_decide (NULL ≠ todo (q s))) s (next Thr_187)
      | Thr_187 =>
          match heap s !! todo (q s), unlink_head (heap s) (todo (q s)) with
          | Some (BJob _ x f), Done (job, t') =>
              Some (goto (PWorker i (Thr_190 job))
                      (log t (EvUnlink f x) (upd_q (set_todo t') s)))
          | _, _ => fault s
          end
      | Thr_190 job => mutex_unlock t c (PWorker i (Thr_195 job)) s
      | Thr_195 job =>
          match heap s !! job with
          | Some (BJob _ x f) =>
              Some (goto (PWorker i (Thr_run job f x)) (log t (EvCall f x) s))
          | _ => fault s
          end
      | Thr_run job f x =>
          Some (goto (PWorker i (Thr_197 job))
                  (log t (EvReturn f x) (set_mem (jobsem f x (mem s)) s)))
      | Thr_197 job =>
          with_heap (hfree (heap s) job) s
            (fun s' => Some (goto (PWorker i Thr_165) s'))
      | Thr_199 =>
          Some (goto (PWorker i Thr_201)
                  (upd_q (set_threadsStopped (threadsStopped (q s) + 1)) s))
      | Thr_201 =>
          if decide (threadsStopped (q s) = nthreads (q s))
          then cond_signal t wakeMain c (PWorker i Thr_207) s
          else next Thr_207
      | Thr_207 => mutex_unlock t c (PWorker i Thr_212) s
      | Thr_212 => None
      end
  end.

(** *** The machine *)

Definition step (c : Choice) (s : State) : option State :=
  match status s with
  | Running =>
      match who c with
      | Main => step_main c s
      | Worker i =>
          match workers s !! i with
          | Some pc => step_worker i pc c s
          | None => None
          end
      end
  | _ => None
  end.

Fixpoint run (cs : list Choice) (s : State) : option State :=
  match cs with
  | [] => Some s
  | c :: cs' =>
      match step c s with
      | Some s' => run cs' s'
      | None => None
      end
  end.

(** The owner is about to call JobQueue_new(n) and will then make the calls
    [p].  Nothing is allocated; [q0] is whatever the storage of the queue
    will hold when malloc hands it out. *)
Definition init (n : Z) (p : list Op) (q0 : JobQueue) (m0 : Mem) : State :=
  mkState Running ∅ NULL (set_lock None q0) (New_87 n) p [] m0 [].

(** ** Vocabulary of the properties *)

(** Lines 91-93 have not run yet: todo, acceptingJobs and threadsStopped
    still hold whatever malloc returned. *)
Definition uninit (pc : MainPC) : bool :=
  match pc with
  | New_87 _ | New_89 _ | New_91 _ => true
  | _ => false
  end.

(** The program points between a lock (or a return from cond_wait) and the
    next unlock (or cond_wait). *)
Definition main_holds (pc : MainPC) : bool :=
  match pc with
  | Add_136 _ _ _ | Add_139 _ _ _ | Add_143 _ _ _
  | Wait_225 | Wait_226 | Wait_230 | Wait_234 | Wait_241 => true
  | _ => false
  end.

Definition worker_holds (pc : WorkerPC) : bool :=
  match pc with
  | Thr_169 | Thr_173 | Thr_178 | Thr_187 | Thr_190 _
  | Thr_199 | Thr_201 | Thr_207 => true
  | _ => false
  end.

(** The worker has left its loop (the break of line 181). *)
Definition left_loop (pc : WorkerPC) : bool :=
  match pc with
  | Thr_199 | Thr_201 | Thr_207 | Thr_212 => true
  | _ => false
  end.

(** The worker has counted itself in threadsStopped (line 199). *)
Definition parked (pc : WorkerPC) : bool :=
  match pc with
  | Thr_201 | Thr_207 | Thr_212 => true
  | _ => false
  end.

(** Collect what each worker contributes. *)
Definition gather {A : Type} (f : WorkerPC -> list A) (ws : list WorkerPC) : list A :=
  ws ≫= f.

Definition parked_mark (pc : WorkerPC) : list unit :=
  if parked pc then [()] else [].

Definition nparked (ws : list WorkerPC) : Z :=
  Z.of_nat (length (gather parked_mark ws)).

(** The job function a worker is inside of. *)
Definition running (pc : WorkerPC) : list (Z * Z) :=
  match pc with
  | Thr_run _ f x => [(f, x)]
  | _ => []
  end.

(** Projections of the history, most recent first. *)
Fixpoint links (h : list (Tid * Event)) : list (Z * Z) :=
  match h with
  | [] => []
  | (_, EvLink f x) :: h' => (f, x) :: links h'
  | _ :: h' => links h'
  end.
Fixpoint unlinks (h : list (Tid * Event)) : list (Z * Z) :=
  match h with
  | [] => []
  | (_, EvUnlink f x) :: h' => (f, x) :: unlinks h'
  | _ :: h' => unlinks h'
  end.
Fixpoint calls (h : list (Tid * Event)) : list (Z * Z) :=
  match h with
  | [] => []
  | (_, EvCall f x) :: h' => (f, x) :: calls h'
  | _ :: h' => calls h'
  end.
Fixpoint returns (h : list (Tid * Event)) : list (Z * Z) :=
  match h with
  | [] => []
  | (_, EvReturn f x) :: h' => (f, x) :: returns h'
  | _ :: h' => returns h'
  end.

(** The events of one thread, most recent first. *)
Definition events_of (t : Tid) (h : list (Tid * Event)) : list Event :=
  omap (fun te => if decide (te.1 = t) then Some te.2 else None) h.

(** The jobs a list of calls submits, in order. *)
Fixpoint addjobs (p : list Op) : list (Z * Z) :=
  match p with
  | [] => []
  | OpAddJob f x :: p' => (f, x) :: addjobs p'
  | _ :: p' => addjobs p'
  end.

(** The job of the JobQueue_addJob call in progress, while it is not linked. *)
Definition adding (pc : MainPC) : list (Z * Z) :=
  match pc with
  | Add_125 f x | Add_127 f x _ | Add_129 f x _ | Add_132 f x _ | Add_136 f x _ => [(f, x)]
  | _ => []
  end.

(** The memory after the job functions of [rs] have returned ([rs] most
    recent first). *)
Definition effects (rs : list (Z * Z)) (m0 : Mem) : Mem :=
  foldr (fun fx m => jobsem fx.1 fx.2 m) m0 rs.

(** What each worker may rely on at its program point. *)
Definition worker_fact (j : JobQueue) (pc : WorkerPC) : Prop :=
  match pc with
  | Thr_178 => ¬ (todo j = NULL ∧ acceptingJobs j = 1)
  | Thr_187 => todo j ≠ NULL
  | Thr_199 => todo j = NULL ∧ acceptingJobs j = 0
  | Thr_201 | Thr_207 | Thr_212 => acceptingJobs j = 0
  | _ => True
  end.

(** What the owner has established at its program point, for a machine
    started as [init n p0 _ _]. *)
Definition main_fact (n : Z) (s : State) : Prop :=
  match mainpc s with
  | New_87 n' | New_89 n' | New_91 n' | New_95 n' | New_99 n' | New_103 n' | New_107 n' =>
      n' = n ∧ workers s = []
  | New_111 n' i =>
      n' = n ∧ nthreads (q s) = n ∧ 0 <= i <= Z.max 0 n ∧ Z.of_nat (length (workers s)) = i
  | Wait_241 =>
      nthreads (q s) = n ∧ Z.of_nat (length (workers s)) = Z.max 0 n ∧
      ¬ threadsStopped (q s) < nthreads (q s)
  | _ => nthreads (q s) = n ∧ Z.of_nat (length (workers s)) = Z.max 0 n
  end.

(** The job cell a thread holds in a local variable. *)
Definition owned_main (pc : MainPC) : list Z :=
  match pc with
  | Add_127 _ _ job => if decide (job = NULL) then [] else [job]
  | Add_129 _ _ job | Add_132 _ _ job | Add_136 _ _ job => [job]
  | _ => []
  end.

Definition owned_worker (pc : WorkerPC) : list Z :=
  match pc with
  | Thr_190 job | Thr_195 job | Thr_run job _ _ | Thr_197 job => [job]
  | _ => []
  end.

Definition held (s : State) : list Z :=
  owned_main (mainpc s) ++ gather owned_worker (workers s).

(** The job a worker has taken off the list and not called yet. *)
Definition pending (h : gmap Z Block) (pc : WorkerPC) : list (Z * Z) :=
  match pc with
  | Thr_190 job | Thr_195 job =>
      match h !! job with
      | Some (BJob _ x f) => [(f, x)]
      | _ => []
      end
  | _ => []
  end.

(** The stack obtained by replaying the links and unlinks of a history. *)
Fixpoint replay (h : list (Tid * Event)) : list (Z * Z) :=
  match h with
  | [] => []
  | (_, EvLink f x) :: h' => (f, x) :: replay h'
  | (_, EvUnlink _ _) :: h' => tail (replay h')
  | _ :: h' => replay h'
  end.

(** Every unlink of the history took the job that was on top of the stack. *)
Fixpoint lifo (h : list (Tid * Event)) : Prop :=
  match h with
  | [] => True
  | (_, EvUnlink f x) :: h' => head (replay h') = Some (f, x) ∧ lifo h'
  | _ :: h' => lifo h'
  end.

(** The heap while the queue is in use: the pending list is a chain of
    cells, every cell has one owner (the list or a local variable), and the
    cells account for the jobs linked so far. *)
Record heap_ok (s : State) (l : list (Z * (Z * Z))) : Prop := mkHeapOk {
  k_chain : chain (heap s) (todo (q s)) l;
  k_nodup : NoDup (l.*1 ++ held s);
  k_held : forall a, a ∈ held s -> exists nx x f, heap s !! a = Some (BJob nx x f);
  k_main : match mainpc s with
           | Add_132 f x job | Add_136 f x job =>
               exists nx, heap s !! job = Some (BJob nx x f)
           | _ => True
           end;
  k_replay : l.*2 = replay (hist s);
  k_links : links (hist s) ≡ₚ l.*2 ++ gather (pending (heap s)) (workers s) ++ calls (hist s)
}.

(** jq->thread is NULL or the array malloc'ed at line 108. *)
Definition thread_ok (s : State) : Prop :=
  thread (q s) = NULL ∨ heap s !! thread (q s) = Some (BThreads (nthreads (q s))).

Definition heap_fact (s : State) : Prop :=
  match mainpc s with
  | New_87 _ | New_89 _ | New_91 _ => True
  | New_95 _ | New_99 _ | New_103 _ | New_107 _ => exists l, heap_ok s l
  | Free_272 | Free_273 => heap s !! todo (q s) = None
  | _ => (exists l, heap_ok s l) ∧ thread_ok s
  end.

(** The invariant of the heap. *)
Record Inv2 (s : State) : Prop := mkInv2 {
  h_null : heap s !! NULL = None;
  h_lifo : lifo (hist s);
  h_fresh : uninit (mainpc s) = true ->
      links (hist s) = [] ∧ calls (hist s) = [] ∧ replay (hist s) = [];
  h_live : jq_live s = true -> heap_fact s
}.

(** The invariant of the control state: who holds the mutex, what the
    counters count, what the history records. *)
Record Inv1 (n : Z) (p0 : list Op) (m0 : Mem) (s : State) : Prop := mkInv1 {
  i_main : main_fact n s;
  i_lock_main : main_holds (mainpc s) = true <-> lock (q s) = Some Main;
  i_lock_worker : forall i pc, workers s !! i = Some pc ->
      (worker_holds pc = true <-> lock (q s) = Some (Worker i));
  i_lock_range : forall i, lock (q s) = Some (Worker i) -> is_Some (workers s !! i);
  i_fields : uninit (mainpc s) = false ->
      (acceptingJobs (q s) = 0 ∨ acceptingJobs (q s) = 1) ∧
      threadsStopped (q s) = nparked (workers s);
  i_worker : forall i pc, workers s !! i = Some pc -> worker_fact (q s) pc;
  i_prog : rev (links (hist s)) ++ adding (mainpc s) ++ addjobs (prog s) = addjobs p0;
  i_mem : mem s = effects (returns (hist s)) m0;
  i_calls : calls (hist s) ≡ₚ gather running (workers s) ++ returns (hist s)
}.

(** The owner is inside the loop of JobQueue_waitOnJobs (lines 226-241). *)
Definition draining (pc : MainPC) : bool :=
  match pc with
  | Wait_226 | Wait_230 | Wait_234 | Wait_234w | Wait_241 => true
  | _ => false
  end.

Definition constructing (pc : MainPC) : bool :=
  match pc with
  | New_87 _ | New_89 _ | New_91 _ | New_95 _ | New_99 _ | New_103 _ | New_107 _
  | New_111 _ _ => true
  | _ => false
  end.

Definition all_exited (ws : list WorkerPC) : Prop :=
  forall i pc, ws !! i = Some pc -> pc = Thr_212.

(** The invariant of the shutdown flag: acceptingJobs is 0 only while the
    owner is draining, or after every worker has returned. *)
Record Inv3 (s : State) : Prop := mkInv3 {
  d_new : constructing (mainpc s) = true -> uninit (mainpc s) = false ->
      acceptingJobs (q s) = 1;
  d_drain : uninit (mainpc s) = false -> acceptingJobs (q s) = 0 ->
      draining (mainpc s) = true ∨ all_exited (workers s)
}.

(** The owner follows the protocol "submit [jobs], then wait, then [rest]". *)
Definition protocol (jobs : list (Z * Z)) (rest : list Op) : list Op :=
  map (fun fx => OpAddJob fx.1 fx.2) jobs ++ OpWaitOnJobs :: rest.

Definition in_wait (pc : MainPC) : bool :=
  match pc with
  | Wait_221 | Wait_225 | Wait_226 | Wait_230 | Wait_234 | Wait_234w | Wait_241 => true
  | _ => false
  end.

Definition in_free (pc : MainPC) : bool :=
  match pc with
  | Free_259 | Free_263 | Free_267 | Free_271 | Free_272 | Free_273 => true
  | _ => false
  end.

(** The first JobQueue_waitOnJobs of the protocol has returned. *)
Definition returned (rest : list Op) (s : State) : Prop :=
  (length (prog s) < length rest)%nat ∨
  (length (prog s) = length rest ∧ mainpc s = Ready).

(** The invariant of a protocol run. *)
Record Inv4 (jobs : list (Z * Z)) (rest : list Op) (s : State) : Prop := mkInv4 {
  p_suffix : exists done, protocol jobs rest = done ++ prog s;
  p_new : constructing (mainpc s) = true -> prog s = protocol jobs rest;
  p_before : (length rest < length (prog s))%nat ->
      in_wait (mainpc s) = false ∧ in_free (mainpc s) = false ∧
      (uninit (mainpc s) = false -> acceptingJobs (q s) = 1);
  p_during : length (prog s) = length rest ->
      (in_wait (mainpc s) = true ∨ mainpc s = Ready) ∧
      (mainpc s = Wait_221 ∨ mainpc s = Wait_225 -> acceptingJobs (q s) = 1);
  p_todo : (length rest <= length (prog s))%nat ->
      forall i pc, workers s !! i = Some pc -> left_loop pc = true -> todo (q s) = NULL;
  p_after : returned rest s ->
      all_exited (workers s) ∧ calls (hist s) ≡ₚ jobs ∧ returns (hist s) ≡ₚ jobs
}.

End Machine.

Arguments status {Mem} s.
Arguments heap {Mem} s.
Arguments jq {Mem} s.
Arguments q {Mem} s.
Arguments mainpc {Mem} s.
Arguments prog {Mem} s.
Arguments workers {Mem} s.
Arguments mem {Mem} s.
Arguments hist {Mem} s.
Arguments step {Mem} jobsem NDEBUG c s.
Arguments run {Mem} jobsem NDEBUG cs s.
Arguments init {Mem} n p q0 m0.
Arguments effects {Mem} jobsem rs m0.
Arguments main_fact {Mem} n s.
Arguments Inv1 {Mem} jobsem n p0 m0 s.
Arguments held {Mem} s.
Arguments heap_ok {Mem} s l.
Arguments thread_ok {Mem} s.
Arguments heap_fact {Mem} s.
Arguments Inv2 {Mem} s.
Arguments jq_live {Mem} s.
Arguments set_status {Mem} v s.
Arguments gather : simpl never.
Arguments Inv3 {Mem} s.
Arguments Inv4 {Mem} jobs rest s.
Arguments returned {Mem} rest s.

(** ** More vocabulary *)

(** The worker has left its loop and still holds the mutex (lines 181-207). *)
Definition quitting (pc : WorkerPC) : bool :=
  match pc with
  | Thr_199 | Thr_201 | Thr_207 => true
  | _ => false
  end.

(** While a worker is quitting the list is empty. *)
Definition quit_fact {Mem : Type} (s : State Mem) : Prop :=
  forall i pc, workers s !! i = Some pc -> quitting pc = true -> todo (q s) = NULL.

(** The owner is inside JobQueue_addJob. *)
Definition in_add (pc : MainPC) : bool :=
  match pc with
  | Add_125 _ _ | Add_127 _ _ _ | Add_129 _ _ _ | Add_132 _ _ _
  | Add_136 _ _ _ | Add_139 _ _ _ | Add_143 _ _ _ => true
  | _ => false
  end.

(** Line 107 has not run yet: jq->nthreads is not set. *)
Definition before_107 (pc : MainPC) : bool :=
  match pc with
  | New_87 _ | New_89 _ | New_91 _ | New_95 _ | New_99 _ | New_103 _ | New_107 _ => true
  | _ => false
  end.

(** The owner is not about to broadcast and has never done so. *)
Definition quiet {Mem : Type} (s : State Mem) : Prop :=
  mainpc s ≠ Wait_230 ∧ EvBroadcast wakeWorker ∉ events_of Main (hist s).

Arguments events_of : simpl never.

(** ** What one call of the owner does

    The library calls the owner has made since it entered the current
    function, by program point (most recent first).  [Ready] is the point
    of return. *)

Definition addJob_trace (f x : Z) (pc : MainPC) (evs : list Event) : Prop :=
  match pc with
  | Add_125 f' x' => f' = f ∧ x' = x ∧ evs = []
  | Add_127 f' x' job => f' = f ∧ x' = x ∧ evs = [EvMalloc job]
  | Add_129 f' x' job | Add_132 f' x' job =>
      f' = f ∧ x' = x ∧ job ≠ NULL ∧ evs = [EvMalloc job]
  | Add_136 f' x' job =>
      f' = f ∧ x' = x ∧ job ≠ NULL ∧ evs = [EvLock; EvMalloc job]
  | Add_139 f' x' job =>
      f' = f ∧ x' = x ∧ job ≠ NULL ∧ evs = [EvLink f x; EvLock; EvMalloc job]
  | Add_143 f' x' job =>
      f' = f ∧ x' = x ∧ job ≠ NULL ∧
      evs = [EvSignal wakeWorker; EvLink f x; EvLock; EvMalloc job]
  | Ready =>
      exists job, job ≠ NULL ∧
        evs = [EvUnlock; EvSignal wakeWorker; EvLink f x; EvLock; EvMalloc job]
  | _ => False
  end.

(** One turn of the loop of JobQueue_waitOnJobs (lines 226-237). *)
Definition wait_round : list Event :=
  [EvWoken wakeMain; EvWait wakeMain; EvBroadcast wakeWorker].

Fixpoint wait_rounds (k : nat) : list Event :=
  match k with
  | O => []
  | S k' => wait_round ++ wait_rounds k'
  end.

Definition waitOnJobs_trace (pc : MainPC) (evs : list Event) : Prop :=
  match pc with
  | Wait_221 => evs = []
  | Wait_225 => evs = [EvLock]
  | Wait_226 | Wait_230 | Wait_241 => exists k, evs = wait_rounds k ++ [EvLock]
  | Wait_234 => exists k, evs = EvBroadcast wakeWorker :: wait_rounds k ++ [EvLock]
  | Wait_234w =>
      exists k, evs = EvWait wakeMain :: EvBroadcast wakeWorker :: wait_rounds k ++ [EvLock]
  | Ready => exists k, evs = EvUnlock :: wait_rounds k ++ [EvLock]
  | _ => False
  end.

Definition call_trace (op : Op) (pc : MainPC) (evs : list Event) : Prop :=
  match op with
  | OpAddJob f x => addJob_trace f x pc evs
  | OpWaitOnJobs => waitOnJobs_trace pc evs
  | OpFree => True
  end.

(** What the call has established in the queue. *)
Definition call_fact (op : Op) (pc : MainPC) (j : JobQueue) : Prop :=
  match op with
  | OpWaitOnJobs => pc ≠ Wait_221 -> pc ≠ Wait_225 -> acceptingJobs j = 0
  | _ => True
  end.

(** [s] is a state of an execution that was in [s0] when the owner was
    about to make the call [op], with the calls [rest] to follow. *)
Inductive since {Mem : Type} (s0 : State Mem) (op : Op) (rest : list Op)
    (s : State Mem) : Prop :=
| call_before (new : list (Tid * Event)) :
    hist s = new ++ hist s0 -> events_of Main new = [] ->
    mainpc s = Ready -> prog s = op :: rest -> since s0 op rest s
| call_during (new : list (Tid * Event)) :
    hist s = new ++ hist s0 -> prog s = rest ->
    call_trace op (mainpc s) (events_of Main new) ->
    call_fact op (mainpc s) (q s) -> since s0 op rest s
| call_after :
    (length (prog s) < length rest)%nat -> since s0 op rest s.

(** ** The unit test of jobqueue.c as an instance

    Memory maps addresses to numbers.  [jobfunc] (jobqueue.c:289) reads
    param->arg and stores its square in param->result, the next field. *)
Module Test.

Definition Mem : Type := gmap Z Z.

Definition jobfunc (f param : Z) (m : Mem) : Mem :=
  match m !! param with
  | Some arg => <[param + 1 := arg * arg]> m
  | None => m
  end.

(** The owner moves; every library call succeeds. *)
Definition M : Choice := mkChoice Main 0 NULL 0.
(** The owner moves and malloc returns [p]. *)
Definition Mp (p : Z) : Choice := mkChoice Main 0 p 0.
(** Worker [i] moves. *)
Definition W (i : nat) : Choice := mkChoice (Worker i) 0 NULL 0.

(** JobQueue_new(n) for n >= 0, with the queue at 10 and the array at 20. *)
Definition sched_new (n : nat) : list Choice :=
  Mp 10 :: replicate 5 M ++ Mp 20 :: replicate (S n) M.
(** One JobQueue_addJob, the job cell at [p]. *)
Definition sched_add (p : Z) : list Choice := M :: Mp p :: replicate 6 M.
(** JobQueue_waitOnJobs up to its first pthread_cond_wait. *)
Definition sched_wait : list Choice := replicate 6 M.
(** Worker [i] takes one job, runs it and frees it. *)
Definition sched_job (i : nat) : list Choice := replicate 8 (W i).
(** Worker [i] finds the list empty and returns. *)
Definition sched_park (i : nat) : list Choice := replicate 6 (W i).
(** The owner wakes up and JobQueue_waitOnJobs returns. *)
Definition sched_woken : list Choice := replicate 3 M.
(** JobQueue_free. *)
Definition sched_free : list Choice := replicate 7 M.

(** What malloc'ed storage and the caller's memory hold at the start. *)
Definition q0 : JobQueue := mkJobQueue 7 7 7 7 7 None.
Definition m0 : Mem := {[ 100 := 3; 200 := 4 ]}.
Definition jobs : list (Z * Z) := [(1, 100); (1, 200)].

(** One worker, two jobs: up to the call of JobQueue_waitOnJobs, ... *)
Definition sched_submit : list Choice :=
  sched_new 1 ++ sched_add 30 ++ sched_add 40.
(** ... until the worker is about to count itself at line 199, ... *)
Definition sched_drain : list Choice :=
  sched_submit ++ sched_wait ++ sched_job 0 ++ sched_job 0 ++ replicate 3 (W 0).
(** ... and until JobQueue_waitOnJobs has returned. *)
Definition sched_test : list Choice :=
  sched_drain ++ replicate 3 (W 0) ++ sched_woken.

(** JobQueue_waitOnJobs from its call to its return, the worker doing
    both jobs in between. *)
Definition sched_serve : list Choice :=
  sched_wait ++ sched_job 0 ++ sched_job 0 ++ sched_park 0 ++ sched_woken.

Definition test_init : State Mem := init 1 (protocol jobs [OpFree]) q0 m0.

(** JobQueue_free called with both jobs still in the list: the worker
    has not been scheduled yet when the owner reaches line 271. *)
Definition leftover_init : State Mem :=
  init 1 [OpAddJob 1 100; OpAddJob 1 200; OpFree] q0 m0.
Definition sched_leftover : list Choice :=
  sched_new 1 ++ sched_add 30 ++ sched_add 40 ++ replicate 4 M.

(** A queue without threads: JobQueue_new(0), then JobQueue_waitOnJobs. *)
Definition zero_init : State Mem := init 0 [OpWaitOnJobs; OpFree] q0 m0.

End Test.

(** ** misc.c and misc.h: the helper functions

    The functions of misc.c that work on integers, arrays and strings.
    A call returns a value, fails an assertion, runs into undefined
    behaviour (a read outside the array, signed overflow), or ends the
    process with exit. *)
Module Misc.

Inductive Out (A : Type) : Type :=
| Ret (a : A)
| AssertFail
| Undefined
| Exits (code : Z)
| NoFuel.
Arguments Ret {A} a.
Arguments AssertFail {A}.
Arguments Undefined {A}.
Arguments Exits {A} code.
Arguments NoFuel {A}.

Global Instance Out_ret : MRet Out := fun A a => Ret a.
Global Instance Out_bind : MBind Out := fun A B f m =>
  match m with
  | Ret a => f a
  | AssertFail => AssertFail
  | Undefined => Undefined
  | Exits code => Exits code
  | NoFuel => NoFuel
  end.

(** <limits.h>, with a 64-bit long *)
Definition LONG_MAX : Z := 2 ^ 63 - 1.
Definition LONG_MIN : Z := - 2 ^ 63.

(** The result of an arithmetic operation on long: overflow is undefined. *)
Definition long (z : Z) : Out Z :=
  if decide (LONG_MIN <= z <= LONG_MAX) then Ret z else Undefined.

Arguments long : simpl never.

(** v[i] for an array of [length v] elements *)
Definition rd (v : list Z) (i : Z) : Out Z :=
  if decide (0 <= i) then
    match v !! Z.to_nat i with
    | Some x => Ret x
    | None => Undefined
    end
  else Undefined.

Arguments rd : simpl never.

(** misc.h:173-177: myassert(x) evaluates x only without NDEBUG *)
Definition myassert (NDEBUG : bool) (x : Out bool) : Out unit :=
  if NDEBUG then Ret ()
  else b ← x; if b : bool then Ret () else AssertFail.

(** The loop of long_first_geq (misc.c:194-202); returns lo and hi. *)
Fixpoint first_geq_loop (fuel : nat) (val : Z) (v : list Z) (lo hi : Z) : Out (Z * Z) :=
  match fuel with
  | O => NoFuel
  | S k =>
      if decide (lo < hi) then
        d ← long (hi - lo);
        mid ← long (lo + Z.quot d 2);
        if decide (mid = lo) then Ret (lo, hi)
        else
          x ← rd v mid;
          if decide (x < val) then first_geq_loop k val v mid hi
          else first_geq_loop k val v lo mid
      else Ret (lo, hi)
  end.

Arguments first_geq_loop : simpl never.

(** misc.c:186-212 *)
Definition long_first_geq (NDEBUG : bool) (val : Z) (v : list Z) (len : Z) : Out Z :=
  _ ← myassert NDEBUG (Ret (bool_decide (len > 0)));
  hi ← long (len - 1);
  vhi ← rd v hi;
  if decide (val > vhi) then Ret len
  else
    lohi ← first_geq_loop (S (Z.to_nat len)) val v 0 hi;
    let lo := lohi.1 in
    vlo ← rd v lo;
    let hi := if decide (vlo >= val) then lo else lohi.2 in
    _ ← myassert NDEBUG (Ret (bool_decide (hi >= 0)));
    _ ← myassert NDEBUG (Ret (bool_decide (hi < len)));
    _ ← myassert NDEBUG (x ← rd v hi; Ret (bool_decide (x >= val)));
    _ ← myassert NDEBUG
          (if decide (hi = 0) then Ret true
           else i ← long (hi - 1); x ← rd v i; Ret (bool_decide (x < val)));
    Ret hi.

(** The loop of long_last_leq (misc.c:228-236); returns lo and hi. *)
Fixpoint last_leq_loop (fuel : nat) (val : Z) (v : list Z) (lo hi : Z) : Out (Z * Z) :=
  match fuel with
  | O => NoFuel
  | S k =>
      if decide (lo < hi) then
        d ← long (hi - lo);
        mid ← long (hi - Z.quot d 2);
        if decide (mid = hi) then Ret (lo, hi)
        else
          x ← rd v mid;
          if decide (x > val) then last_leq_loop k val v lo mid
          else last_leq_loop k val v mid hi
      else Ret (lo, hi)
  end.

Arguments last_leq_loop : simpl never.

(** misc.c:220-246 *)
Definition long_last_leq (NDEBUG : bool) (val : Z) (v : list Z) (len : Z) : Out Z :=
  _ ← myassert NDEBUG (Ret (bool_decide (len > 0)));
  hi ← long (len - 1);
  v0 ← rd v 0;
  if decide (val < v0) then Ret (-1)
  else
    lohi ← last_leq_loop (S (Z.to_nat len)) val v 0 hi;
    let hi := lohi.2 in
    vhi ← rd v hi;
    let lo := if decide (vhi <= val) then hi else lohi.1 in
    _ ← myassert NDEBUG (Ret (bool_decide (lo >= 0)));
    _ ← myassert NDEBUG (Ret (bool_decide (lo < len)));
    _ ← myassert NDEBUG (x ← rd v lo; Ret (bool_decide (x <= val)));
    _ ← myassert NDEBUG
          (l1 ← long (len - 1);
           if decide (lo = l1) then Ret true
           else i ← long (lo + 1); x ← rd v i; Ret (bool_decide (x > val)));
    Ret lo.

(** *** Strings

    A C string is the list of its characters before the terminating NUL;
    a character is its code. *)

(** <limits.h> *)
Definition INT_MAX : Z := 2 ^ 31 - 1.
Definition INT_MIN : Z := - 2 ^ 31.

(** The result of an arithmetic operation on int: overflow is undefined. *)
Definition int (z : Z) : Out Z :=
  if decide (INT_MIN <= z <= INT_MAX) then Ret z else Undefined.
Arguments int : simpl never.

(** Conversion of a size_t to int, as in [i = strcspn(...)]: the value
    modulo 2^32 (what gcc and clang do). *)
Definition to_int (n : nat) : Z :=
  (Z.of_nat n + 2 ^ 31) `mod` 2 ^ 32 - 2 ^ 31.

(** <ctype.h> in the "C" locale; the argument must be an unsigned char
    value or EOF. *)
Definition isspace (c : Z) : Out bool :=
  if decide (-1 <= c <= 255) then Ret (bool_decide (c = 32 ∨ 9 <= c <= 13))
  else Undefined.
Definition tolower (c : Z) : Out Z :=
  if decide (-1 <= c <= 255) then Ret (if decide (65 <= c <= 90) then c + 32 else c)
  else Undefined.

(** <string.h> *)
Fixpoint strcspn (s reject : list Z) : nat :=
  match s with
  | [] => 0
  | c :: s' => if decide (c ∈ reject) then 0 else S (strcspn s' reject)
  end.
Fixpoint strspn (s accept : list Z) : nat :=
  match s with
  | [] => 0
  | c :: s' => if decide (c ∈ accept) then S (strspn s' accept) else 0
  end.
(** strchr(s, c) for c other than NUL: the offset of the first c, if any *)
Fixpoint strchr (s : list Z) (c : Z) : option nat :=
  match s with
  | [] => None
  | c' :: s' => if decide (c' = c) then Some 0%nat else S <$> strchr s' c
  end.

(** str += i *)
Definition advance (str : list Z) (i : Z) : Out (list Z) :=
  if decide (0 <= i <= Z.of_nat (length str)) then Ret (drop (Z.to_nat i) str)
  else Undefined.

(** misc.c:30-36; returns the string now in the buffer *)
Fixpoint strlowercase (s : list Z) : Out (list Z) :=
  match s with
  | [] => Ret []
  | c :: s' => c' ← tolower c; r ← strlowercase s'; Ret (c' :: r)
  end.

(** The loop of strCountSetChunks (misc.c:291-299). *)
Fixpoint chunks_loop (fuel : nat) (str sep : list Z) (nchunks : Z) : Out Z :=
  match fuel with
  | O => NoFuel
  | S k =>
      match str with
      | [] => Ret nchunks
      | _ :: _ =>
          str1 ← advance str (to_int (strcspn str sep));
          let i := to_int (strspn str1 sep) in
          if decide (i > 0) then
            n ← int (nchunks + 1);
            str2 ← advance str1 i;
            chunks_loop k str2 sep n
          else chunks_loop k str1 sep nchunks
      end
  end.
Arguments chunks_loop : simpl never.

(** misc.c:288-301 *)
Definition strCountSetChunks (str sep : list Z) : Out Z :=
  chunks_loop (S (length str)) str sep 0.

(** The loop that skips white space (misc.c:307-308, 328-329); returns
    what is left of the string at p. *)
Fixpoint skip_space (s : list Z) : Out (list Z) :=
  match s with
  | [] => b ← isspace 0; Ret []
  | c :: s' => b ← isspace c; if b : bool then skip_space s' else Ret s
  end.

(** misc.c:304-312; '#' is 35 *)
Definition strcomment (s : list Z) : Out Z :=
  p ← skip_space s;
  match p with
  | c :: _ => if decide (c = 35) then Ret 1 else Ret 0
  | [] => Ret 0
  end.

(** misc.c:315-322; returns the string now in the buffer *)
Definition stripComment (s : list Z) : list Z :=
  match strchr s 35 with
  | Some p => take p s
  | None => s
  end.

(** misc.c:325-333 *)
Definition strempty (s : list Z) : Out Z :=
  p ← skip_space s;
  match p with
  | [] => Ret 1
  | _ :: _ => Ret 0
  end.

(** *** misc.h: genotype codes *)

Definition UNPHASED_HETEROZYGOTE : Z := 4.

(** misc.h:57-63; '0' is 48 and '1' is 49 *)
Definition encode01 (c : Z) : Z :=
  if decide (c = 48) then 0 else if decide (c = 49) then 1 else 255.

(** misc.h:89-129: the genotypes written to gtype, whose number is the
    value returned; [room] is what is left of gtypeSize.  'h' is 104. *)
Fixpoint encodeDiploid (room : nat) (str : list Z) : Out (list Z) :=
  match str, room with
  | [], _ | _, O => Ret []
  | c :: s1, S room' =>
      if decide (c = 104) then
        r ← encodeDiploid room' s1; Ret (UNPHASED_HETEROZYGOTE :: r)
      else
        let twoBit := encode01 c in
        if decide (twoBit > 1) then Exits EXIT_FAILURE
        else
          match s1 with
          | [] => Exits EXIT_FAILURE
          | c2 :: s2 =>
              let oneBit := encode01 c2 in
              if decide (oneBit > 1) then Exits EXIT_FAILURE
              else r ← encodeDiploid room' s2; Ret (2 * twoBit + oneBit :: r)
          end
  end.

(** misc.h:152-163 *)
Fixpoint encodeHaploid (room : nat) (str : list Z) : list Z :=
  match str, room with
  | [], _ | _, O => []
  | c :: s', S room' => encode01 c :: encodeHaploid room' s'
  end.

(** *** strcenter (misc.c:122-142)

    [width] and [buffsize] are unsigned, and [txtwid], [lpad], [rpad] are
    int: the comparisons and subtractions that mix them are done on
    unsigned. *)

(** Arithmetic on unsigned, 32 bits wide: modulo 2^32. *)
Definition unsigned (z : Z) : Z := z `mod` 2 ^ 32.

(** Conversion of an unsigned to int: the value modulo 2^32 (what gcc and
    clang do; the C standard leaves it to the implementation when the value
    is above INT_MAX). *)
Definition of_unsigned (u : Z) : Z := (u + 2 ^ 31) `mod` 2 ^ 32 - 2 ^ 31.

(** buff[i] = c for a buffer of [length buff] bytes *)
Definition wr (buff : list Z) (i c : Z) : Out (list Z) :=
  if decide (0 <= i < Z.of_nat (length buff)) then Ret (<[Z.to_nat i := c]> buff)
  else Undefined.

(** for(j = ...; j < bound; ++j) buff[idx] = val; with idx and val
    expressions in j. *)
Fixpoint fill (fuel : nat) (j bound : Z) (idx val : Z -> Out Z) (buff : list Z)
  : Out (list Z) :=
  match fuel with
  | O => NoFuel
  | S k =>
      if decide (j < bound) then
        i ← idx j; c ← val j; b ← wr buff i c; j' ← int (j + 1);
        fill k j' bound idx val b
      else Ret buff
  end.
Arguments fill : simpl never.

(** snprintf(buff, size, "%s", text): nothing when size is 0, else at most
    size - 1 characters of text and a NUL. *)
Definition snprintf_s (buff : list Z) (size : Z) (text : list Z) : Out (list Z) :=
  if decide (size = 0) then Ret buff
  else
    let out := take (Z.to_nat (size - 1)) text ++ [0] in
    if decide (length out <= length buff)%nat then Ret (out ++ drop (length out) buff)
    else Undefined.

(** misc.c:122-142; '-' is 45.  Returns what the buffer holds. *)
Definition strcenter (text : list Z) (width : Z) (buff : list Z) (buffsize : Z)
  : Out (list Z) :=
  let txtwid := to_int (length text) in
  if decide (unsigned txtwid >= buffsize) then snprintf_s buff buffsize text
  else
    let lpad := if decide (width > unsigned txtwid)
                then of_unsigned (unsigned (width - unsigned txtwid) / 2)
                else 0 in
    let rpad :=
      of_unsigned (unsigned (unsigned (width - unsigned txtwid) - unsigned lpad)) in
    b1 ← fill (S (Z.to_nat lpad)) 0 lpad (fun i => Ret i) (fun _ => Ret 45) buff;
    let i := Z.max 0 lpad in
    b2 ← fill (S (Z.to_nat txtwid)) 0 txtwid (fun j => int (i + j))
           (fun j => rd text j) b1;
    b3 ← fill (S (Z.to_nat rpad)) 0 rpad (fun j => s ← int (i + txtwid); int (s + j))
           (fun _ => Ret 45) b2;
    k ← (s ← int (lpad + txtwid); int (s + rpad));
    wr b3 k 0.

(** *** Vocabulary *)

(** The number of maximal runs of characters of [sep] in [s]: a run ends
    where a character of [sep] is followed by the end of the string or by a
    character that is not in [sep]. *)
Fixpoint runs (s sep : list Z) : nat :=
  match s with
  | [] => 0
  | c :: s' =>
      (if decide (c ∈ sep) then
         match s' with
         | [] => 1
         | c' :: _ => if decide (c' ∈ sep) then 0 else 1
         end
       else 0) + runs s' sep
  end.

(** White space in the "C" locale: space, tab, newline, vertical tab, form
    feed, carriage return. *)
Definition white (c : Z) : Prop := c = 32 ∨ 9 <= c <= 13.

(** The characters of the string are unsigned char values. *)
Definition is_text (s : list Z) : Prop := Forall (fun c => 1 <= c <= 255) s.

(** How a diploid genotype is written (misc.h:69-74). *)
Definition genotype_text (g : Z) : list Z :=
  if decide (g = 4) then [104] else [48 + g / 2; 48 + g `mod` 2].

(** [v] is in ascending order. *)
Definition ascending (v : list Z) : Prop :=
  forall i j x y, (i <= j)%nat -> v !! i = Some x -> v !! j = Some y -> x <= y.

(** The array of the unit test (misc.c:408). *)
Definition test_v : list Z := [0; 0; 1; 1; 1; 2; 2].

(** The buffer with [vals] written at offset [off]. *)
Definition splice (off : nat) (vals buff : list Z) : list Z :=
  take off buff ++ vals ++ drop (off + length vals) buff.

(** The C string that a buffer holds: the characters before the first
    NUL. *)
Fixpoint cstring (buff : list Z) : list Z :=
  match buff with
  | [] => []
  | c :: buff' => if decide (c = 0) then [] else c :: cstring buff'
  end.

End Misc.

(** ** Vocabulary for whole executions *)

(** Thread [t] is between a lock (or a return from pthread_cond_wait) and
    the next unlock (or pthread_cond_wait). *)
Definition in_critical {Mem : Type} (t : Tid) (s : State Mem) : bool :=
  match t with
  | Main => main_holds (mainpc s)
  | Worker i =>
      match workers s !! i with
      | Some pc => worker_holds pc
      | None => false
      end
  end.

(** The indices handed to pthread_create so far, most recent first. *)
Fixpoint creates (h : list (Tid * Event)) : list Z :=
  match h with
  | [] => []
  | (_, EvCreate i) :: h' => i :: creates h'
  | _ :: h' => creates h'
  end.


(** JobQueue_free, if the owner calls it at all, is its last call. *)
Fixpoint free_last (p : list Op) : bool :=
  match p with
  | [] => true
  | OpFree :: p' => match p' with [] => true | _ => false end
  | _ :: p' => free_last p'
  end.

(** Where the storage of the queue is allocated: from the checkmem of line
    89 until JobQueue_free has returned, after which the owner makes no call
    and no worker is left. *)
Definition live_fact {Mem : Type} (s : State Mem) : Prop :=
  match mainpc s with
  | New_87 _ => True
  | New_89 _ => jq s = NULL ∨ jq_live s = true
  | Ready => jq_live s = true ∨ (prog s = [] ∧ all_exited (workers s))
  | Free_272 => jq_live s = true ∧ thread_ok s
  | _ => jq_live s = true
  end.

(** The invariant of a protocol run that ends with JobQueue_free, if it
    calls it at all. *)
Record Inv5 {Mem : Type} (jobs : list (Z * Z)) (rest : list Op) (s : State Mem)
  : Prop := mkInv5 {
  f_suffix : exists done, protocol jobs rest = done ++ prog s;
  f_last : free_last (prog s) = true;
  f_new : constructing (mainpc s) = true -> (length rest < length (prog s))%nat;
  f_waited : (length (prog s) <= length rest)%nat ->
      mainpc s = Wait_221 ∨ mainpc s = Wait_225 ∨ acceptingJobs (q s) = 0;
  f_free : in_free (mainpc s) = true -> prog s = [] ∧ all_exited (workers s);
  f_live : live_fact s
}.





(** The number of times the owner's condition has been signalled
    (jobqueue.c:202). *)
Fixpoint main_signals (h : list (Tid * Event)) : nat :=
  match h with
  | [] => 0
  | (_, EvSignal wakeMain) :: h' => S (main_signals h')
  | _ :: h' => main_signals h'
  end.

(** The worker is past the test of line 201. *)
Definition past_201 (pc : WorkerPC) : bool :=
  match pc with
  | Thr_207 | Thr_212 => true
  | _ => false
  end.

Definition past_mark (pc : WorkerPC) : list unit :=
  if past_201 pc then [()] else [].

Definition npast (ws : list WorkerPC) : Z :=
  Z.of_nat (length (gather past_mark ws)).

(** One signal has been sent to the owner when all [n] workers are past
    line 201, none before. *)
Definition signal_fact {Mem : Type} (n : Z) (s : State Mem) : Prop :=
  main_signals (hist s) =
  if decide (0 < n ∧ npast (workers s) = n) then 1%nat else 0%nat.

(** * Proofs *)

Set Warnings "-unused-intro-pattern".

(** ** Chains of job cells *)

Lemma chain_insert_ne h p l a b :
  a ∉ l.*1 -> chain h p l -> chain (<[a:=b]> h) p l.
Proof.
  revert p. induction l as [|[a' [f x]] l IH]; intros p Ha Hc; cbn in *; [done|].
  destruct Hc as (-> & ? & nx & Hl & Hc). apply not_elem_of_cons in Ha as [? ?].
  split_and!; [done..|]. exists nx. rewrite lookup_insert_ne by done. eauto.
Qed.

Lemma chain_delete_ne h p l a :
  a ∉ l.*1 -> chain h p l -> chain (delete a h) p l.
Proof.
  revert p. induction l as [|[a' [f x]] l IH]; intros p Ha Hc; cbn in *; [done|].
  destruct Hc as (-> & ? & nx & Hl & Hc). apply not_elem_of_cons in Ha as [? ?].
  split_and!; [done..|]. exists nx. rewrite lookup_delete_ne by done. eauto.
Qed.

Lemma chain_alloc h p l a :
  chain h p l -> a ∈ l.*1 -> exists nx x f, h !! a = Some (BJob nx x f).
Proof.
  revert p. induction l as [|[a' [f x]] l IH]; intros p Hc Ha; cbn in *.
  - by apply elem_of_nil in Ha.
  - destruct Hc as (-> & ? & nx & Hl & Hc).
    apply elem_of_cons in Ha as [->|Ha]; eauto.
Qed.

Lemma chain_fresh h p l a :
  chain h p l -> h !! a = None -> a ∉ l.*1.
Proof.
  intros Hc Hn Ha. destruct (chain_alloc _ _ _ _ Hc Ha) as (? & ? & ? & ?). congruence.
Qed.

Lemma chain_inj h p l1 l2 :
  chain h p l1 -> chain h p l2 -> l1 = l2.
Proof.
  revert p l2. induction l1 as [|[a [f x]] l1 IH]; intros p [|[a' [f' x']] l2] H1 H2;
    cbn in *; try done.
  - destruct H2 as (-> & ? & _). done.
  - destruct H1 as (-> & ? & _). done.
  - destruct H1 as (-> & ? & nx & Hl & H1). destruct H2 as (<- & ? & nx' & Hl' & H2).
    simplify_eq. f_equal. eauto.
Qed.

Lemma chain_suffix h p l1 a c l2 :
  chain h p (l1 ++ (a, c) :: l2) -> chain h a ((a, c) :: l2).
Proof.
  destruct c as [f0 x0].
  revert p. induction l1 as [|[a' [f x]] l1 IH]; intros p Hc; cbn in *.
  - destruct Hc as (-> & ?). done.
  - destruct Hc as (-> & ? & nx & Hl & Hc). eauto.
Qed.

Lemma chain_NoDup h p l : chain h p l -> NoDup l.*1.
Proof.
  revert p. induction l as [|[a [f x]] l IH]; intros p Hc; cbn; [constructor|].
  assert (chain h a ((a, (f, x)) :: l)) as Hc'.
  { cbn in *. destruct Hc as (-> & ?). done. }
  cbn in Hc. destruct Hc as (-> & ? & nx & Hl & Hc).
  constructor; [|eauto].
  intros Ha. apply list_elem_of_fmap in Ha as ([a' c] & Heq & Hin). cbn in Heq. subst a'.
  apply list_elem_of_split in Hin as (l1 & l2 & ->).
  pose proof (chain_suffix _ _ _ _ _ _ Hc) as Hs.
  pose proof (chain_inj _ _ _ _ Hs Hc') as Heq.
  apply (f_equal length) in Heq. cbn in Heq. rewrite length_app in Heq. cbn in Heq. lia.
Qed.

Lemma free_all_lookup as_ h a :
  free_all as_ h !! a = if decide (a ∈ as_) then None else h !! a.
Proof.
  unfold free_all. induction as_ as [|b as_ IH]; cbn.
  - by rewrite decide_False by apply not_elem_of_nil.
  - destruct (decide (b = a)) as [->|Hne].
    + rewrite lookup_delete_eq. by rewrite decide_True by apply list_elem_of_here.
    + rewrite lookup_delete_ne by done. rewrite IH.
      destruct (decide (a ∈ as_)).
      * by rewrite decide_True by (by apply list_elem_of_further).
      * rewrite decide_False; [done|]. intros [->|?]%elem_of_cons; done.
Qed.

Lemma Job_free_S k h job :
  Job_free (S k) h job =
  if decide (job = NULL) then Done h
  else match h !! job with
       | Some (BJob next _ _) =>
           match Job_free k h next with
           | Done h' => hfree h' job
           | r => r
           end
       | _ => Fault
       end.
Proof. done. Qed.

Lemma Job_free_None fuel h p h' a :
  Job_free fuel h p = Done h' -> h !! a = None -> h' !! a = None.
Proof.
  revert h p h'. induction fuel as [|fuel IH]; intros h p h' Hf Ha; [done|].
  rewrite Job_free_S in Hf.
  repeat case_match; simplify_eq; try done.
  unfold hfree in Hf. repeat case_match; simplify_eq; eauto.
  rewrite lookup_delete_None. eauto.
Qed.

(** Job_free on a chain frees exactly the cells of the chain, and the
    recursion is no deeper than the chain is long. *)
Lemma Job_free_chain h p l fuel :
  chain h p l -> (length l < fuel)%nat ->
  Job_free fuel h p = Done (free_all l.*1 h).
Proof.
  revert p fuel. induction l as [|[a [f x]] l IH]; intros p fuel Hc Hf.
  - cbn in Hc. subst p. destruct fuel; [lia|]. done.
  - pose proof (chain_NoDup _ _ _ Hc) as Hnd. cbn in Hc.
    destruct Hc as (-> & Hne & nx & Hl & Hc).
    destruct fuel as [|fuel]; [cbn in Hf; lia|]. rewrite Job_free_S.
    rewrite decide_False by done. rewrite Hl.
    rewrite (IH nx fuel Hc) by (cbn in Hf; lia).
    unfold hfree. rewrite decide_False by done.
    cbn in Hnd. apply NoDup_cons in Hnd as [Hni _].
    rewrite free_all_lookup, decide_False by done. rewrite Hl. done.
Qed.

(** Whatever the fuel, a run of Job_free that finishes gives that result. *)
Lemma Job_free_Done h p l fuel h' :
  chain h p l -> Job_free fuel h p = Done h' -> h' = free_all l.*1 h.
Proof.
  revert p fuel h'. induction l as [|[a [f x]] l IH]; intros p fuel h' Hc Hf.
  - cbn in Hc. subst p. destruct fuel; [done|]. rewrite Job_free_S in Hf.
    rewrite decide_True in Hf by done. by simplify_eq.
  - pose proof (chain_NoDup _ _ _ Hc) as Hnd. cbn in Hc.
    destruct Hc as (-> & Hne & nx & Hl & Hc).
    destruct fuel as [|fuel]; [done|]. rewrite Job_free_S in Hf.
    rewrite decide_False in Hf by done. rewrite Hl in Hf.
    destruct (Job_free fuel h nx) as [h1| |] eqn:E; try done.
    apply (IH _ _ _ Hc) in E. subst h1.
    unfold hfree in Hf. rewrite decide_False in Hf by done.
    cbn in Hnd. apply NoDup_cons in Hnd as [Hni _].
    rewrite free_all_lookup, decide_False in Hf by done. rewrite Hl in Hf.
    by simplify_eq.
Qed.

Lemma chain_length h p l : chain h p l -> (length l <= size h)%nat.
Proof.
  intros Hc. pose proof (chain_NoDup _ _ _ Hc) as Hnd.
  assert (list_to_set (C := gset Z) l.*1 ⊆ dom h) as Hsub.
  { intros a Ha. apply elem_of_list_to_set in Ha.
    destruct (chain_alloc _ _ _ _ Hc Ha) as (? & ? & ? & ?). by apply elem_of_dom. }
  apply subseteq_size in Hsub. rewrite size_list_to_set in Hsub by done.
  rewrite size_dom in Hsub. by rewrite length_fmap in Hsub.
Qed.

(** ** Tactics *)

Ltac unfold_prims :=
  unfold mutex_lock, mutex_unlock, cond_signal, cond_broadcast, cond_wait_block,
    cond_wait_wake, with_heap, malloc, checkmem, die, eprintf, ERR, assert_, exit_, fault,
    link_head, unlink_head, hfree in *.

Ltac goal_rew :=
  repeat match goal with
  | E : ?t = _ |- context [?t] =>
      lazymatch t with
      | mainpc _ => rewrite E
      | lock _ => rewrite E
      end
  end.

(** Case analysis on a step: which thread moved, from which line, along
    which branch. *)
Ltac step_inv H :=
  unfold step, step_main, step_worker in H; unfold_prims;
  cbv zeta in H;
  repeat (match type of H with
          | context [match ?x with _ => _ end] =>
              lazymatch x with
              | context [match _ with _ => _ end] => fail
              | _ => destruct x eqn:?
              end
          end; simplify_eq/=; try done);
  cbn; goal_rew; cbn.

Ltac learn H :=
  let T := type of H in
  lazymatch goal with
  | _ : T |- _ => fail
  | _ => pose proof H
  end.

(** Split a lookup in the updated worker list into "the worker that moved"
    and "another worker". *)
Ltac split_worker Hl :=
  first
    [ apply list_lookup_insert_Some in Hl as [(<- & <- & ?)|[? Hl]]
    | apply lookup_snoc_Some in Hl as [[? Hl]|[? <-]]
    | idtac ].

(** Name the fields of an invariant. *)
Ltac inv1 H :=
  destruct H as [i_main i_lock_main i_lock_worker i_lock_range i_fields i_worker
                 i_prog i_mem i_calls].
Ltac inv2 H := destruct H as [h_null h_lifo h_fresh h_live].
Ltac inv3 H := destruct H as [d_new d_drain].
Ltac inv4 H := destruct H as [p_suffix p_new p_before p_during p_todo p_after].
Ltac invk H := destruct H as [k_chain k_nodup k_held k_main k_replay k_links].

Section Proofs.

Context {Mem : Type} (jobsem : Z -> Z -> Mem -> Mem) (NDEBUG : bool).
Implicit Types (s : State Mem) (c : Choice) (ws : list WorkerPC).

(** ** Collecting over the workers *)

Lemma gather_snoc {A} (f : WorkerPC -> list A) ws pc :
  gather f (ws ++ [pc]) = gather f ws ++ f pc.
Proof. unfold gather. by rewrite bind_app, bind_singleton. Qed.

Lemma gather_insert {A} (f : WorkerPC -> list A) ws i pc pc' :
  ws !! i = Some pc ->
  gather f (<[i:=pc']> ws) ++ f pc ≡ₚ f pc' ++ gather f ws.
Proof.
  intros Hi. unfold gather.
  rewrite <- (take_drop_middle ws i pc Hi) at 2.
  rewrite insert_take_drop by (eapply lookup_lt_Some; eauto).
  rewrite !bind_app, !bind_cons.
  generalize (take i ws ≫= f) (drop (S i) ws ≫= f) (f pc) (f pc').
  intros. solve_Permutation.
Qed.

Lemma gather_insert_same {A} (f : WorkerPC -> list A) ws i pc pc' :
  ws !! i = Some pc -> f pc' = f pc ->
  gather f (<[i:=pc']> ws) = gather f ws.
Proof.
  intros Hi Hf. unfold gather.
  rewrite <- (take_drop_middle ws i pc Hi) at 2.
  rewrite insert_take_drop by (eapply lookup_lt_Some; eauto).
  by rewrite !bind_app, !bind_cons, Hf.
Qed.

Lemma gather_insert_add {A} (f : WorkerPC -> list A) ws i pc pc' :
  ws !! i = Some pc -> f pc = [] ->
  gather f (<[i:=pc']> ws) ≡ₚ f pc' ++ gather f ws.
Proof.
  intros Hi Hf. rewrite <- (gather_insert f ws i pc pc' Hi), Hf. by rewrite app_nil_r.
Qed.

Lemma gather_insert_del {A} (f : WorkerPC -> list A) ws i pc pc' :
  ws !! i = Some pc -> f pc' = [] ->
  gather f ws ≡ₚ f pc ++ gather f (<[i:=pc']> ws).
Proof.
  intros Hi Hf. pose proof (gather_insert f ws i pc pc' Hi) as HP.
  rewrite Hf in HP. cbn in HP. rewrite <- HP. apply Permutation_app_comm.
Qed.

Lemma elem_of_gather {A} (f : WorkerPC -> list A) ws a :
  a ∈ gather f ws <-> exists i pc, ws !! i = Some pc ∧ a ∈ f pc.
Proof.
  unfold gather. rewrite list_elem_of_bind. split.
  - intros (pc & Ha & Hpc). apply list_elem_of_lookup in Hpc as [i Hi]. eauto.
  - intros (i & pc & Hi & Ha). exists pc. split; [done|].
    apply list_elem_of_lookup. eauto.
Qed.

Lemma nparked_insert ws i pc pc' :
  ws !! i = Some pc ->
  nparked (<[i:=pc']> ws) + Z.of_nat (length (parked_mark pc))
  = Z.of_nat (length (parked_mark pc')) + nparked ws.
Proof.
  intros Hi. unfold nparked.
  pose proof (Permutation_length (gather_insert parked_mark ws i pc pc' Hi)) as HL.
  rewrite !length_app in HL. lia.
Qed.

Lemma nparked_snoc ws pc :
  nparked (ws ++ [pc]) = nparked ws + Z.of_nat (length (parked_mark pc)).
Proof. unfold nparked. rewrite gather_snoc, length_app. lia. Qed.

Lemma nparked_bound ws : 0 <= nparked ws <= Z.of_nat (length ws).
Proof.
  unfold nparked, gather. induction ws as [|pc ws IH]; [cbn; lia|].
  rewrite bind_cons, length_app, length_cons.
  assert (length (parked_mark pc) <= 1)%nat
    by (unfold parked_mark; destruct (parked pc); cbn; lia).
  lia.
Qed.

Lemma Inv1_init n p0 q0 m0 : Inv1 jobsem n p0 m0 (init n p0 q0 m0).
Proof. split; cbn; try done. all: intros ? ? ; by rewrite ?lookup_nil. Qed.

Lemma main_fact_workers n s i pc :
  main_fact n s -> workers s !! i = Some pc ->
  uninit (mainpc s) = false.
Proof.
  unfold main_fact. intros Hm Hi. destruct (mainpc s); try done.
  all: destruct Hm as [_ Hw]; by rewrite Hw in Hi.
Qed.

Lemma main_fact_mono n s s' :
  mainpc s' = mainpc s -> nthreads (q s') = nthreads (q s) ->
  length (workers s') = length (workers s) ->
  threadsStopped (q s) <= threadsStopped (q s') ->
  main_fact n s -> main_fact n s'.
Proof.
  unfold main_fact. intros -> -> Hl Hst.
  assert (workers s = [] -> workers s' = []).
  { intros E. rewrite E in Hl. by destruct (workers s'). }
  destruct (mainpc s); rewrite ?Hl; intuition lia.
Qed.

Lemma Inv1_main n p0 m0 s c s' :
  Inv1 jobsem n p0 m0 s -> step jobsem NDEBUG c s = Some s' -> main_fact n s'.
Proof.
  intros Hinv1 Hs. inv1 Hinv1. pose proof i_main as Hmf. unfold main_fact in i_main.
  step_inv Hs.
  all: try (eapply main_fact_mono; [..|exact Hmf]; cbn; rewrite ?length_insert; (done || lia)).
  all: unfold main_fact; cbn; goal_rew; cbn.
  all: try (rewrite ?length_app; cbn; intuition (auto; lia)).
  - by destruct o.
  - destruct i_main as [-> Hw]. rewrite Hw. cbn. lia.
  - destruct i_main as [-> Hw]. rewrite Hw. cbn. lia.
Qed.

Lemma Inv1_lock_main n p0 m0 s c s' :
  Inv1 jobsem n p0 m0 s -> step jobsem NDEBUG c s = Some s' ->
  main_holds (mainpc s') = true <-> lock (q s') = Some Main.
Proof.
  intros Hinv1 Hs. inv1 Hinv1.
  step_inv Hs.
  all: try done.
  all: try (intuition congruence).
  by destruct o.
Qed.

Lemma Inv1_lock_worker n p0 m0 s c s' :
  Inv1 jobsem n p0 m0 s -> step jobsem NDEBUG c s = Some s' ->
  forall i pc, workers s' !! i = Some pc ->
      (worker_holds pc = true <-> lock (q s') = Some (Worker i)).
Proof.
  intros Hinv1 Hs. inv1 Hinv1. unfold main_fact in i_main.
  step_inv Hs.
  all: try done.
  all: intros j pc' Hl; split_worker Hl.
  all: repeat match goal with
         | H : workers _ !! _ = Some _ |- _ => learn (i_lock_worker _ _ H)
         end.
  all: cbn in *.
  all: try (intuition congruence).
  - destruct i_main as [_ Hw]. by rewrite Hw in Hl.
  - split; [done|]. intros Hk%i_lock_range. apply lookup_lt_is_Some in Hk. lia.
Qed.

Lemma Inv1_lock_range n p0 m0 s c s' :
  Inv1 jobsem n p0 m0 s -> step jobsem NDEBUG c s = Some s' ->
  forall i, lock (q s') = Some (Worker i) -> is_Some (workers s' !! i).
Proof.
  intros Hinv1 Hs. inv1 Hinv1.
  step_inv Hs.
  all: try done.
  all: intros j Hj; simplify_eq.
  all: rewrite ?list_lookup_insert_is_Some; eauto.
  all: try (apply i_lock_range in Hj; rewrite ?list_lookup_insert_is_Some; eauto).
  apply lookup_lt_is_Some. apply lookup_lt_is_Some in Hj. rewrite length_app. lia.
Qed.

Lemma Inv1_fields n p0 m0 s c s' :
  Inv1 jobsem n p0 m0 s -> step jobsem NDEBUG c s = Some s' ->
  uninit (mainpc s') = false ->
  (acceptingJobs (q s') = 0 ∨ acceptingJobs (q s') = 1) ∧
  threadsStopped (q s') = nparked (workers s').
Proof.
  intros Hinv1 Hs. inv1 Hinv1. pose proof i_main as Hmf. unfold main_fact in i_main.
  step_inv Hs.
  all: try done.
  all: try (by intros _; destruct i_main as [_ ->]; auto).
  all: try (rewrite nparked_snoc; cbn; rewrite Z.add_0_r; done).
  all: intros Hu.
  all: try (specialize (i_fields eq_refl); intuition auto; fail).
  all: match goal with
       | H : workers _ !! ?i = Some ?pc |- context [<[?i := ?pc']> _] =>
           specialize (i_fields (main_fact_workers _ _ _ _ Hmf H));
           pose proof (nparked_insert _ i pc pc' H) as Hnp
       end.
  all: cbn in Hnp; split; [tauto | lia].
Qed.

Lemma Inv1_worker n p0 m0 s c s' :
  Inv1 jobsem n p0 m0 s -> step jobsem NDEBUG c s = Some s' ->
  forall i pc, workers s' !! i = Some pc -> worker_fact (q s') pc.
Proof.
  intros Hinv1 Hs. inv1 Hinv1. pose proof i_main as Hmf. unfold main_fact in i_main.
  step_inv Hs.
  all: try done.
  all: intros j pc' Hl; split_worker Hl.
  all: repeat match goal with
         | H : workers _ !! _ = Some _ |- _ =>
             learn (i_lock_worker _ _ H); learn (i_worker _ _ H)
         end.
  all: cbn in *.
  all: try done.
  - destruct i_main as [_ Hw]. by rewrite Hw in Hl.
  - assert (lock (q s) = Some Main) as HL by (by apply i_lock_main).
    rewrite HL in *. destruct pc'; cbn in *; try done; intuition congruence.
  - assert (lock (q s) = Some Main) as HL by (by apply i_lock_main).
    rewrite HL in *. destruct pc'; cbn in *; try done; intuition congruence.
  - apply andb_false_iff in Heqb0 as [?%bool_decide_eq_false|?%bool_decide_eq_false]; lia.
  - destruct (i_fields (main_fact_workers _ _ _ _ Hmf Heqo)) as [[?|?] _]; lia.
  - destruct pc'; cbn in *; try done; intuition congruence.
  - tauto.
Qed.

Lemma Inv1_prog n p0 m0 s c s' :
  Inv1 jobsem n p0 m0 s -> step jobsem NDEBUG c s = Some s' ->
  rev (links (hist s')) ++ adding (mainpc s') ++ addjobs (prog s') = addjobs p0.
Proof.
  intros Hinv1 Hs. inv1 Hinv1.
  step_inv Hs.
  all: try done.
  - rewrite <- i_prog. by destruct o.
  - by rewrite <- app_assoc.
Qed.

Lemma Inv1_mem n p0 m0 s c s' :
  Inv1 jobsem n p0 m0 s -> step jobsem NDEBUG c s = Some s' ->
  mem s' = effects jobsem (returns (hist s')) m0.
Proof.
  intros Hinv1 Hs. inv1 Hinv1.
  step_inv Hs.
  all: try done.
  by rewrite i_mem.
Qed.

Lemma Inv1_calls n p0 m0 s c s' :
  Inv1 jobsem n p0 m0 s -> step jobsem NDEBUG c s = Some s' ->
  calls (hist s') ≡ₚ gather running (workers s') ++ returns (hist s').
Proof.
  intros Hinv1 Hs. inv1 Hinv1.
  step_inv Hs.
  all: try done.
  all: try (erewrite gather_insert_same; [eassumption|eassumption|done]).
  - by rewrite gather_snoc, app_nil_r.
  - rewrite (gather_insert_add running _ _ _ _ Heqo) by done. cbn. by rewrite i_calls.
  - rewrite i_calls, (gather_insert_del running _ _ _ (Thr_197 job) Heqo) by done.
    cbn. by rewrite Permutation_middle.
Qed.

Lemma Inv1_status n p0 m0 s st :
  Inv1 jobsem n p0 m0 s -> Inv1 jobsem n p0 m0 (set_status st s).
Proof. by intros []. Qed.

Lemma Inv1_step n p0 m0 s c s' :
  Inv1 jobsem n p0 m0 s -> step jobsem NDEBUG c s = Some s' -> Inv1 jobsem n p0 m0 s'.
Proof.
  intros HI Hs. split.
  - eapply Inv1_main; eauto.
  - eapply Inv1_lock_main; eauto.
  - eapply Inv1_lock_worker; eauto.
  - eapply Inv1_lock_range; eauto.
  - eapply Inv1_fields; eauto.
  - eapply Inv1_worker; eauto.
  - eapply Inv1_prog; eauto.
  - eapply Inv1_mem; eauto.
  - eapply Inv1_calls; eauto.
Qed.

Lemma run_invariant (P : State Mem -> Prop) :
  (forall c s s', P s -> step jobsem NDEBUG c s = Some s' -> P s') ->
  forall cs s s', P s -> run jobsem NDEBUG cs s = Some s' -> P s'.
Proof.
  intros Hstep cs. induction cs as [|c cs IH]; intros s s' HP Hr; cbn in Hr.
  - by simplify_eq.
  - destruct (step jobsem NDEBUG c s) as [s1|] eqn:E; [|done]. eauto.
Qed.

Lemma Inv1_run n p0 q0 m0 cs s :
  run jobsem NDEBUG cs (init n p0 q0 m0) = Some s -> Inv1 jobsem n p0 m0 s.
Proof.
  apply (run_invariant (Inv1 jobsem n p0 m0)).
  - intros. eapply Inv1_step; eauto.
  - apply Inv1_init.
Qed.

Lemma Inv2_init n p0 q0 (m0 : Mem) : Inv2 (init n p0 q0 m0).
Proof. split; cbn; try done. Qed.

Lemma Inv2_null s c s' :
  Inv2 s -> step jobsem NDEBUG c s = Some s' -> heap s' !! NULL = None.
Proof.
  intros Hinv2 Hs. inv2 Hinv2.
  step_inv Hs.
  all: try done.
  all: try (rewrite lookup_insert_ne by done; done).
  all: try (rewrite lookup_delete_None; auto; fail).
  all: try (rewrite lookup_insert_ne by congruence; done).
  eapply Job_free_None; eauto.
Qed.

Lemma Inv2_fresh s c s' n p0 m0 :
  Inv1 jobsem n p0 m0 s -> Inv2 s -> step jobsem NDEBUG c s = Some s' ->
  uninit (mainpc s') = true ->
  links (hist s') = [] ∧ calls (hist s') = [] ∧ replay (hist s') = [].
Proof.
  intros Hinv1 Hinv2 Hs. inv1 Hinv1. inv2 Hinv2. pose proof i_main as Hmf.
  step_inv Hs.
  all: try done.
  all: try (intros; apply h_fresh; done).
  all: try (intros Hu; pose proof (main_fact_workers _ _ _ _ Hmf ltac:(eassumption)); congruence).
  by destruct o.
Qed.

Lemma heap_ok_frame s s' l :
  heap s' = heap s -> todo (q s') = todo (q s) -> mainpc s' = mainpc s ->
  gather owned_worker (workers s') = gather owned_worker (workers s) ->
  gather (pending (heap s)) (workers s') = gather (pending (heap s)) (workers s) ->
  replay (hist s') = replay (hist s) -> links (hist s') = links (hist s) ->
  calls (hist s') = calls (hist s) ->
  heap_ok s l -> heap_ok s' l.
Proof.
  intros Hh Ht Hpc Ho Hp Hr Hl Hc Hinvk. invk Hinvk.
  split; unfold held in *; rewrite ?Hh, ?Ht, ?Hpc, ?Ho, ?Hp, ?Hr, ?Hl, ?Hc; done.
Qed.

Lemma heap_fact_worker s s' :
  mainpc s' = mainpc s ->
  nthreads (q s') = nthreads (q s) -> thread (q s') = thread (q s) ->
  (forall l, heap_ok s l ->
     (exists l', heap_ok s' l') ∧
     (heap s !! thread (q s) = Some (BThreads (nthreads (q s))) ->
      heap s' !! thread (q s) = Some (BThreads (nthreads (q s))))) ->
  (heap s !! todo (q s) = None -> heap s' !! todo (q s') = None) ->
  heap_fact s -> heap_fact s'.
Proof.
  unfold heap_fact, thread_ok. intros -> -> -> Hok Hnone.
  destruct (mainpc s); try done.
  all: try (intros [l Hl]; destruct (Hok l Hl) as [? ?]; done).
  all: intros [[l Hl] Ht]; destruct (Hok l Hl) as [? ?]; split; [done|];
    destruct Ht; auto.
Qed.

Ltac use_live h_live Hlive :=
  try match goal with
      | H : negb (bool_decide _) = false |- _ =>
          apply negb_false_iff in H; specialize (h_live H)
      end;
  try specialize (h_live Hlive);
  try match goal with
      | H : negb (bool_decide _) = true |- _ =>
          apply negb_true_iff in H; congruence
      end.

Ltac frame_with h_live tac :=
  let l := fresh "l" in
  let Hl := fresh "Hl" in
  eapply heap_fact_worker; [..|exact h_live]; cbn; try done;
  intros l Hl; split; [|done]; exists l;
  eapply heap_ok_frame; [..|exact Hl]; cbn; try done; tac.

Lemma pending_ext h h' ws :
  (forall a, a ∈ gather owned_worker ws -> h' !! a = h !! a) ->
  gather (pending h') ws = gather (pending h) ws.
Proof.
  unfold gather. induction ws as [|pc ws IH]; intros Hext; [done|].
  rewrite !bind_cons. rewrite IH.
  - f_equal. destruct pc; cbn; try done.
    all: rewrite Hext; [done|]; rewrite bind_cons; cbn; apply list_elem_of_here.
  - intros a Ha. apply Hext. rewrite bind_cons. apply elem_of_app. by right.
Qed.

Lemma pending_owned h pc fx : fx ∈ pending h pc -> owned_worker pc ≠ [].
Proof. destruct pc; cbn; try by intros ?%elem_of_nil. all: done. Qed.

Lemma gather_nil {A} (f : WorkerPC -> list A) : gather f [] = [].
Proof. done. Qed.

Ltac main_same h_live Heqm :=
  let l0 := fresh "l0" in
  let Hl0 := fresh "Hl0" in
  let Hth := fresh "Hth" in
  first [ destruct h_live as [[l0 Hl0] Hth]; split; [|exact Hth]
        | destruct h_live as [l0 Hl0] ];
  exists l0; invk Hl0;
  split; unfold held in *; cbn in *;
  rewrite ?Heqm in *; cbn in *; done.

Lemma Inv2_live s c s' n p0 m0 :
  Inv1 jobsem n p0 m0 s -> Inv2 s -> step jobsem NDEBUG c s = Some s' ->
  jq_live s' = true -> heap_fact s'.
Proof.
  intros Hinv1 Hinv2 Hs. inv1 Hinv1. inv2 Hinv2. unfold main_fact in i_main.
  step_inv Hs.
  all: unfold jq_live in *.
  all: intros Hlive; cbn in Hlive; use_live h_live Hlive.
  all: try done.
  all: try (frame_with h_live ltac:(eapply gather_insert_same; [eassumption|done]); fail).
  all: try (frame_with h_live idtac; fail).
  all: try match goal with
           | H : mainpc _ = _ |- _ =>
               unfold heap_fact in *; cbn; rewrite ?H in *; cbn in h_live; cbn
           end.
  all: try done.
  all: try (main_same h_live Heqm; fail).
  - destruct o; cbn; main_same h_live Heqm.
  - (* lines 91-93: the list starts empty *)
    destruct i_main as [_ Hw]. destruct (h_fresh eq_refl) as (Hl & Hc & Hr).
    exists []. split; unfold held; cbn; rewrite ?Heqm, ?Hw, ?Hl, ?Hc, ?Hr; cbn; try done.
    + constructor.
    + intros a Ha. by apply elem_of_nil in Ha.
  - (* line 108, malloc returns NULL *)
    destruct h_live as [l0 Hl0]. split; [|by left].
    exists l0. invk Hl0. split; unfold held in *; cbn in *; rewrite ?Heqm in *; done.
  - (* line 108, malloc returns a new block *)
    destruct h_live as [l0 [Kc Kn Kh Km Kr Kl]]. destruct i_main as [_ Hw].
    unfold held in *; cbn in *; rewrite ?Heqm, ?Hw in *; cbn in *.
    split; [|right; apply lookup_insert_eq].
    exists l0. split; unfold held; cbn; rewrite ?Hw; try done.
    + apply chain_insert_ne; [|done]. eapply chain_fresh; eauto.
    + intros a Ha. rewrite gather_nil in Ha. by apply elem_of_nil in Ha.
  - (* line 112, a worker is created *)
    destruct h_live as [[l0 [Kc Kn Kh Km Kr Kl]] Hth].
    unfold held in *; cbn in *; rewrite ?Heqm in *; cbn in *.
    split; [|done].
    exists l0. split; unfold held; cbn; rewrite ?gather_snoc, ?app_nil_r; done.
  - (* line 125, malloc returns NULL *)
    destruct h_live as [[l0 Hl0] Hth]. split; [|exact Hth].
    exists l0. invk Hl0. split; unfold held in *; cbn in *;
      rewrite ?Heqm, ?Heqs1 in *; done.
  - (* line 125, malloc returns a new cell *)
    destruct h_live as [[l0 [Kc Kn Kh Km Kr Kl]] Hth].
    unfold held in *; cbn in *; rewrite ?Heqm, ?Heqs1 in *; cbn in *.
    assert (ptr c ∉ l0.*1 ++ gather owned_worker (workers s)) as Hni.
    { intros [Hin|Hin]%elem_of_app.
      - by apply (chain_fresh _ _ _ _ Kc Heqo).
      - destruct (Kh _ Hin) as (? & ? & ? & ?). congruence. }
    split.
    + exists l0. split; unfold held; cbn; rewrite ?Heqs1; cbn; try done.
      * apply chain_insert_ne; [|done]. eapply chain_fresh; eauto.
      * rewrite <- Permutation_middle. by constructor.
      * intros a [->|Ha]%elem_of_cons.
        { rewrite lookup_insert_eq. eauto. }
        rewrite lookup_insert_ne; [eauto|]. intros <-. apply Hni, elem_of_app. by right.
      * rewrite (pending_ext (heap s)); [done|]. intros a Ha.
        rewrite lookup_insert_ne; [done|]. intros <-. apply Hni, elem_of_app. by right.
    + unfold thread_ok in *; cbn in *. destruct Hth as [?|Hth]; [by left|right].
      rewrite lookup_insert_ne; [done|]. intros E. rewrite E in Heqo. congruence.
  - (* line 127, checkmem passes *)
    destruct h_live as [[l0 Hl0] Hth]. split; [|exact Hth].
    exists l0. invk Hl0. split; unfold held, owned_main in *; cbn in *;
      rewrite ?Heqm, ?Heqs1 in *; done.
  - (* lines 129-130, the cell is filled in *)
    destruct h_live as [[l0 [Kc Kn Kh Km Kr Kl]] Hth].
    unfold held in *; cbn in *; rewrite ?Heqm in *; cbn in *.
    apply NoDup_app in Kn as (Kn1 & Kn2 & Kn3).
    apply NoDup_cons in Kn3 as [Kn3 Kn4].
    assert (job ∉ l0.*1) as Hni by (intros Hin; apply (Kn2 _ Hin), list_elem_of_here).
    split.
    + exists l0. split; unfold held; cbn; try done.
      * by apply chain_insert_ne.
      * apply NoDup_app. split_and!; [done..|]. by constructor.
      * intros a [->|Ha]%elem_of_cons.
        { rewrite lookup_insert_eq. eauto. }
        rewrite lookup_insert_ne; [apply Kh; by right|]. by intros <-.
      * rewrite lookup_insert_eq. eauto.
      * rewrite (pending_ext (heap s)); [done|]. intros a Ha.
        rewrite lookup_insert_ne; [done|]. by intros <-.
    + unfold thread_ok in *; cbn in *. destruct Hth as [?|Hth]; [by left|right].
      rewrite lookup_insert_ne; [done|]. intros E. rewrite E in Heqo. congruence.
  - (* lines 136-137, the cell is linked at the head *)
    destruct h_live as [[l0 [Kc Kn Kh Km Kr Kl]] Hth].
    unfold held in *; cbn in *; rewrite ?Heqm in *; cbn in *.
    destruct Km as [nx Km]. rewrite Km in Heqo. simplify_eq.
    apply NoDup_app in Kn as (Kn1 & Kn2 & Kn3).
    apply NoDup_cons in Kn3 as [Kn3 Kn4].
    assert (job ∉ l0.*1) as Hni by (intros Hin; apply (Kn2 _ Hin), list_elem_of_here).
    assert (job ≠ 0) as Hnz by (intros ->; congruence).
    split.
    + lazymatch type of Heqm with
      | _ = Add_136 ?f ?x ?j => exists ((j, (f, x)) :: l0)
      end. split; unfold held; cbn; try done.
      * split_and!; [done..|]. exists (todo (q s)). rewrite lookup_insert_eq.
        split; [done|]. by apply chain_insert_ne.
      * constructor.
        { intros [Hin|Hin]%elem_of_app; done. }
        apply NoDup_app. split_and!; [done| |done].
        intros a Ha Hg. apply (Kn2 _ Ha). by right.
      * intros a Ha. rewrite lookup_insert_ne; [apply Kh; by right|]. by intros <-.
      * by rewrite Kr.
      * rewrite (pending_ext (heap s)); [by rewrite Kl|]. intros a Ha.
        rewrite lookup_insert_ne; [done|]. by intros <-.
    + unfold thread_ok in *; cbn in *. destruct Hth as [?|Hth]; [by left|right].
      rewrite lookup_insert_ne; [done|]. intros E. rewrite E in Km. congruence.
  - (* line 271, Job_free *)
    destruct h_live as [[l0 [Kc Kn Kh Km Kr Kl]] Hth].
    rewrite (Job_free_Done _ _ _ _ _ Kc Heqr).
    rewrite free_all_lookup. destruct l0 as [|[a0 [f0 x0]] l0]; cbn in Kc.
    + rewrite Kc. by rewrite decide_False by apply not_elem_of_nil.
    + destruct Kc as (-> & _). by rewrite decide_True by apply list_elem_of_here.
  - (* line 272, free(jq->thread) *)
    rewrite lookup_delete_None. by right.
  - (* line 273, free(jq) with jq NULL *)
    apply bool_decide_eq_true in Hlive. congruence.
  - (* line 273, free(jq) *)
    apply bool_decide_eq_true in Hlive. by rewrite lookup_delete_eq in Hlive.
  - (* lines 187-188, the head cell is taken *)
    eapply heap_fact_worker; [..|exact h_live]; cbn; try done; [|congruence].
    intros l0 [Kc Kn Kh Km Kr Kl]. split; [|done].
    destruct l0 as [|[a0 [f0 x0]] l0]; cbn in Kc; [congruence|].
    destruct Kc as (Ea & Hnz & nx & Hla & Kc). subst a0. rewrite Hla in Heqo0. simplify_eq.
    pose proof (gather_insert_add owned_worker _ _ _ (Thr_190 (todo (q s))) Heqo eq_refl) as Hg.
    pose proof (gather_insert_add (pending (heap s)) _ _ _ (Thr_190 (todo (q s))) Heqo eq_refl)
      as Hp.
    cbn in Hg, Hp. rewrite Hla in Hp.
    exists l0. split; unfold held in *; cbn in *; try done.
    + by rewrite Hg, <- !Permutation_middle.
    + intros a Ha. rewrite Hg in Ha. rewrite <- Permutation_middle in Ha.
      apply elem_of_cons in Ha as [->|Ha]; eauto.
    + rewrite <- Kr. done.
    + rewrite Kl, Hp. solve_Permutation.
  - (* line 195, the job function is called *)
    eapply heap_fact_worker; [..|exact h_live]; cbn; try done.
    intros l0 [Kc Kn Kh Km Kr Kl]. split; [|done].
    pose proof (gather_insert_same owned_worker _ _ _ (Thr_run job jobfun param) Heqo eq_refl)
      as Hg.
    pose proof (gather_insert_del (pending (heap s)) _ _ _ (Thr_run job jobfun param)
                  Heqo eq_refl) as Hp.
    cbn in Hp. rewrite Heqo0 in Hp.
    exists l0. split; unfold held in *; cbn in *; rewrite ?Hg; try done.
    rewrite Kl, Hp. solve_Permutation.
  - (* line 197, free(job) with job NULL *)
    eapply heap_fact_worker; [..|exact h_live]; cbn; try done.
    intros l0 [Kc Kn Kh Km Kr Kl]. exfalso.
    destruct (Kh 0) as (? & ? & ? & ?); [|congruence].
    unfold held. apply elem_of_app. right. apply elem_of_gather.
    eexists _, _. split; [exact Heqo|]. cbn. apply list_elem_of_here.
  - (* line 197, free(job) *)
    eapply heap_fact_worker; [..|exact h_live]; cbn; try done.
    + intros l0 [Kc Kn Kh Km Kr Kl].
      pose proof (gather_insert_del owned_worker _ _ _ Thr_165 Heqo eq_refl) as Hg.
      pose proof (gather_insert_same (pending (heap s)) _ _ _ Thr_165 Heqo eq_refl) as Hp.
      cbn in Hg. unfold held in *. rewrite Hg in Kn. setoid_rewrite Hg in Kh.
      rewrite <- !Permutation_middle in Kn. apply NoDup_cons in Kn as [Kn1 Kn2].
      assert (forall a, a ∈ l0.*1 ++ owned_main (mainpc s) ++
                gather owned_worker (<[i:=Thr_165]> (workers s)) -> a ≠ job) as Hne.
      { intros a Ha ->. done. }
      destruct (Kh job) as (nx & x0 & f0 & Hj).
      { apply elem_of_app. right. apply list_elem_of_here. }
      split.
      * exists l0. split; cbn; try done.
        -- apply chain_delete_ne; [|done]. intros Hin. eapply Hne; [|done].
           apply elem_of_app. by left.
        -- intros a Ha. rewrite lookup_delete_ne.
           { apply Kh. apply elem_of_app in Ha as [Ha|Ha]; apply elem_of_app; [by left|].
             right. by right. }
           intros <-. eapply Hne; [|done]. apply elem_of_app. by right.
        -- destruct (mainpc s); try done.
           all: destruct Km as [nx' Km]; exists nx'; rewrite lookup_delete_ne; [done|].
           all: intros <-; eapply Hne; [|done]; apply elem_of_app; right;
             apply elem_of_app; left; cbn; apply list_elem_of_here.
        -- rewrite (pending_ext (heap s)); [by rewrite Hp|]. intros a Ha.
           rewrite lookup_delete_ne; [done|]. intros <-. eapply Hne; [|done].
           apply elem_of_app. right. apply elem_of_app. by right.
      * intros Hth. rewrite lookup_delete_ne; [done|]. intros E. rewrite E in Hj. congruence.
    + intros Hn. rewrite lookup_delete_None. by right.
Qed.

Lemma heap_ok_head s l nx x f :
  heap s !! NULL = None ->
  heap_ok s l -> heap s !! todo (q s) = Some (BJob nx x f) ->
  exists l', l = (todo (q s), (f, x)) :: l' ∧ chain (heap s) nx l'.
Proof.
  intros Hn [Kc _ _ _ _ _] Hl. destruct l as [|[a0 [f0 x0]] l]; cbn in Kc.
  - rewrite Kc in Hl. congruence.
  - destruct Kc as (<- & _ & nx' & Hl' & Kc). simplify_eq. eauto.
Qed.

Lemma Inv2_lifo s c s' n p0 m0 :
  Inv1 jobsem n p0 m0 s -> Inv2 s -> step jobsem NDEBUG c s = Some s' ->
  lifo (hist s').
Proof.
  intros Hinv1 Hinv2 Hs. inv1 Hinv1. inv2 Hinv2. pose proof i_main as Hmf.
  step_inv Hs.
  all: try done.
  split; [|done].
  apply negb_false_iff in Heqb. specialize (h_live Heqb).
  pose proof (main_fact_workers _ _ _ _ Hmf Heqo) as Hu.
  unfold heap_fact in h_live.
  assert (exists l, heap_ok s l) as [l Hl].
  { destruct (mainpc s); try done; try tauto; congruence. }
  destruct (heap_ok_head _ _ _ _ _ h_null Hl Heqo0) as (l' & -> & _).
  destruct Hl as [_ _ _ _ Kr _]. cbn in Kr. by rewrite <- Kr.
Qed.

Lemma Inv2_step s c s' n p0 m0 :
  Inv1 jobsem n p0 m0 s -> Inv2 s -> step jobsem NDEBUG c s = Some s' -> Inv2 s'.
Proof.
  intros H1 H2 Hs. split.
  - eapply Inv2_null; eauto.
  - eapply Inv2_lifo; eauto.
  - eapply Inv2_fresh; eauto.
  - eapply Inv2_live; eauto.
Qed.

Lemma Inv_run n p0 q0 m0 cs s :
  run jobsem NDEBUG cs (init n p0 q0 m0) = Some s ->
  Inv1 jobsem n p0 m0 s ∧ Inv2 s.
Proof.
  apply (run_invariant (fun s => Inv1 jobsem n p0 m0 s ∧ Inv2 s)).
  - intros c s1 s2 [H1 H2] Hs. split.
    + eapply Inv1_step; eauto.
    + eapply Inv2_step; eauto.
  - split; [apply Inv1_init|apply Inv2_init].
Qed.

Lemma Inv3_init n p0 q0 (m0 : Mem) : Inv3 (init n p0 q0 m0).
Proof. split; cbn; done. Qed.

Lemma all_exited_insert ws i pc pc' :
  all_exited ws -> ws !! i = Some pc -> pc ≠ Thr_212 -> all_exited (<[i:=pc']> ws).
Proof. intros Ha Hi Hne. by rewrite (Ha _ _ Hi) in Hne. Qed.

(** When the owner leaves the loop of line 226, every worker has returned. *)
Lemma drained_all_exited n p0 m0 s :
  Inv1 jobsem n p0 m0 s -> mainpc s = Wait_241 -> all_exited (workers s).
Proof.
  intros Hinv1 Hpc. inv1 Hinv1. unfold main_fact in i_main. rewrite Hpc in *. cbn in *.
  destruct i_main as (Hn & Hlen & Hst). destruct (i_fields eq_refl) as [_ Hnp].
  assert (lock (q s) = Some Main) as HL by (by apply i_lock_main).
  assert (nparked (workers s) = Z.of_nat (length (workers s))) as Hall.
  { pose proof (nparked_bound (workers s)). lia. }
  intros i pc Hi.
  assert (parked pc = true) as Hp.
  { clear -Hall Hi. revert i Hi. unfold nparked, gather in Hall.
    induction (workers s) as [|pc0 ws IH]; intros i Hi; [done|].
    rewrite bind_cons, length_app, length_cons in Hall.
    pose proof (nparked_bound ws) as Hb. unfold nparked, gather in Hb.
    assert (length (parked_mark pc0) <= 1)%nat as H1
      by (unfold parked_mark; destruct (parked pc0); cbn; lia).
    destruct i as [|i]; cbn in Hi.
    - simplify_eq. unfold parked_mark in *. destruct (parked pc); [done|]. cbn in *. lia.
    - apply (IH ltac:(lia) i Hi). }
  pose proof (i_lock_worker _ _ Hi) as Hw. rewrite HL in Hw.
  destruct pc; cbn in *; try done; intuition congruence.
Qed.

Lemma Inv3_step n p0 m0 s c s' :
  Inv1 jobsem n p0 m0 s -> Inv3 s -> step jobsem NDEBUG c s = Some s' -> Inv3 s'.
Proof.
  intros HI1 Hinv3 Hs. inv3 Hinv3. pose proof HI1 as Hinv1. inv1 Hinv1. pose proof i_main as Hmf.
  split.
  - step_inv Hs.
    all: try done.
    all: try (intros; apply d_new; done).
    all: try (intros; pose proof (main_fact_workers _ _ _ _ Hmf ltac:(eassumption));
              apply d_new; [|done]; unfold main_fact in Hmf;
              destruct (mainpc s); done).
    by destruct o.
  - step_inv Hs.
    all: try done.
    all: try (intros; apply d_drain; done).
    all: try (intros Hu Ha; left; done).
    all: try (intros Hu Ha;
              pose proof (main_fact_workers _ _ _ _ Hmf ltac:(eassumption)) as Hu';
              destruct (d_drain Hu' Ha) as [?|Hex]; [by left|];
              match goal with
              | H : workers _ !! _ = Some _ |- _ => apply Hex in H; done
              end).
    + intros Hu Ha. destruct (d_drain eq_refl Ha) as [?|?]; [done|by right].
    + intros _ Ha. specialize (d_new eq_refl eq_refl). lia.
    + intros _ _. right. eapply drained_all_exited; eauto.
Qed.

Lemma addjobs_app p1 p2 : addjobs (p1 ++ p2) = addjobs p1 ++ addjobs p2.
Proof. induction p1 as [|[] p1 IH]; cbn; by rewrite ?IH. Qed.

Lemma addjobs_protocol jobs rest :
  addjobs (protocol jobs rest) = jobs ++ addjobs rest.
Proof.
  unfold protocol. rewrite addjobs_app. f_equal.
  induction jobs as [|[f x] jobs IH]; cbn; [done|]. by f_equal.
Qed.

(** Where a suffix of the protocol starts decides what its first call is. *)
Lemma protocol_suffix jobs rest done op tl :
  protocol jobs rest = done ++ op :: tl ->
  ((length rest < length tl)%nat -> exists f x, op = OpAddJob f x) ∧
  (length tl = length rest -> op = OpWaitOnJobs ∧ tl = rest).
Proof.
  revert done. induction jobs as [|[f x] jobs IH]; intros done Heq.
  - unfold protocol in Heq. cbn in Heq. destruct done as [|o done]; cbn in Heq.
    + injection Heq as <- <-. split; [lia|done].
    + injection Heq as _ Heq. apply (f_equal length) in Heq.
      rewrite length_app in Heq. cbn in Heq. split; lia.
  - change (protocol ((f, x) :: jobs) rest) with (OpAddJob f x :: protocol jobs rest) in Heq.
    destruct done as [|o done]; cbn in Heq.
    + injection Heq as <- <-. split; [eauto|].
      unfold protocol. rewrite length_app, length_map. cbn. lia.
    + injection Heq as _ Heq. eauto.
Qed.

Lemma all_exited_gather {A} (f : WorkerPC -> list A) ws :
  all_exited ws -> f Thr_212 = [] -> gather f ws = [].
Proof.
  intros Ha Hf. unfold gather. induction ws as [|pc ws IH]; [done|].
  rewrite bind_cons. rewrite (Ha 0%nat pc eq_refl), Hf. cbn.
  apply IH. intros i pc' Hi. apply (Ha (S i)). done.
Qed.

Lemma Inv4_init n jobs rest q0 (m0 : Mem) : Inv4 jobs rest (init n (protocol jobs rest) q0 m0).
Proof.
  split; cbn.
  - by exists [].
  - done.
  - done.
  - unfold protocol. rewrite length_app, length_cons. lia.
  - intros _ i pc Hi. by rewrite lookup_nil in Hi.
  - unfold returned, protocol. cbn. rewrite length_app, length_cons. intros [?|[? ?]]; lia.
Qed.

(** The owner's list of calls only shrinks, by the call it makes. *)
Lemma step_prog s c s' :
  step jobsem NDEBUG c s = Some s' ->
  (prog s' = prog s ∧ (mainpc s = Ready -> mainpc s' = Ready)) ∨
  (mainpc s = Ready ∧ exists op, prog s = op :: prog s' ∧ mainpc s' = entry op).
Proof.
  intros Hs. step_inv Hs.
  all: try (left; split; [done|]; try done; intros ?; congruence).
  right. split; [done|]. eauto.
Qed.

(** A step of the owner calls no job function and, after construction,
    leaves the workers alone. *)
Lemma step_main_calls s c s' :
  step jobsem NDEBUG c s = Some s' -> who c = Main ->
  calls (hist s') = calls (hist s) ∧ returns (hist s') = returns (hist s) ∧
  (constructing (mainpc s) = false -> workers s' = workers s).
Proof.
  intros Hs Hw. step_inv Hs; try done.
Qed.

Lemma step_all_exited s c s' :
  step jobsem NDEBUG c s = Some s' -> all_exited (workers s) -> who c = Main.
Proof.
  intros Hs Ha. unfold step in Hs.
  destruct (status s); try done. destruct (who c) as [|i]; [done|].
  destruct (workers s !! i) as [pc|] eqn:Hi; [|done].
  rewrite (Ha _ _ Hi) in Hs. done.
Qed.

Lemma Inv4_suffix jobs rest s c s' :
  Inv4 jobs rest s -> step jobsem NDEBUG c s = Some s' ->
  exists done, protocol jobs rest = done ++ prog s'.
Proof.
  intros Hinv4 Hs. inv4 Hinv4. destruct p_suffix as [done Hd].
  destruct (step_prog _ _ _ Hs) as [[-> _]|(_ & op & Hop & _)]; [eauto|].
  exists (done ++ [op]). by rewrite <- app_assoc, Hd, Hop.
Qed.

Lemma Inv4_new jobs rest s c s' :
  Inv4 jobs rest s -> step jobsem NDEBUG c s = Some s' ->
  constructing (mainpc s') = true -> prog s' = protocol jobs rest.
Proof.
  intros Hinv4 Hs. inv4 Hinv4. step_inv Hs; try done.
  by destruct o.
Qed.

Lemma Inv4_before jobs rest s c s' :
  Inv4 jobs rest s -> step jobsem NDEBUG c s = Some s' ->
  (length rest < length (prog s'))%nat ->
  in_wait (mainpc s') = false ∧ in_free (mainpc s') = false ∧
  (uninit (mainpc s') = false -> acceptingJobs (q s') = 1).
Proof.
  intros Hinv4 Hs. inv4 Hinv4. destruct p_suffix as [done Hd].
  step_inv Hs.
  all: try done.
  all: try (intros Hlen; specialize (p_before Hlen); cbn in *; intuition congruence).
  intros Hlen. destruct (protocol_suffix _ _ _ _ _ Hd) as [Hadd _].
  destruct (Hadd Hlen) as (f & x & ->). cbn.
  split_and!; [done..|]. intros _. apply p_before; [cbn in *; lia|done].
Qed.

Lemma Inv4_during jobs rest s c s' :
  Inv4 jobs rest s -> step jobsem NDEBUG c s = Some s' ->
  length (prog s') = length rest ->
  (in_wait (mainpc s') = true ∨ mainpc s' = Ready) ∧
  (mainpc s' = Wait_221 ∨ mainpc s' = Wait_225 -> acceptingJobs (q s') = 1).
Proof.
  intros Hinv4 Hs. inv4 Hinv4. destruct p_suffix as [done Hd].
  step_inv Hs.
  all: try done.
  all: try (intros Hlen; specialize (p_during Hlen); cbn in *; intuition congruence).
  intros Hlen. destruct (protocol_suffix _ _ _ _ _ Hd) as [_ Hw].
  destruct (Hw Hlen) as (-> & ->). cbn.
  split; [by left|]. intros _. apply p_before; [cbn; lia|done].
Qed.

Lemma Inv4_todo n jobs rest m0 s c s' :
  Inv1 jobsem n (protocol jobs rest) m0 s ->
  Inv4 jobs rest s -> step jobsem NDEBUG c s = Some s' ->
  (length rest <= length (prog s'))%nat ->
  forall i pc, workers s' !! i = Some pc -> left_loop pc = true -> todo (q s') = NULL.
Proof.
  intros Hinv1 Hinv4 Hs. inv1 Hinv1. inv4 Hinv4.
  pose proof i_main as Hmf. unfold main_fact in i_main.
  step_inv Hs.
  all: try done.
  all: try (intros Hlen j pc' Hl; split_worker Hl; try done;
            eapply p_todo; eauto; cbn in *; lia).
  - (* lines 136-137: no worker has left its loop while jobs are submitted *)
    intros Hlen j pc' Hl Hll. exfalso.
    assert (length rest < length (prog s))%nat as Hlt.
    { destruct (decide (length (prog s) = length rest)) as [E|]; [|lia].
      destruct (p_during E) as [[?|?] _]; done. }
    destruct (p_before Hlt) as (_ & _ & Ha). specialize (Ha eq_refl).
    pose proof (i_worker _ _ Hl) as Hf. destruct pc'; cbn in *; try done; lia.
  - (* lines 187-188 run only while no worker has left its loop *)
    intros Hlen j pc' Hl Hll. exfalso. split_worker Hl; [done|].
    pose proof (p_todo Hlen _ _ Hl Hll). pose proof (i_worker _ _ Heqo) as Hf. done.
  - intros Hlen j pc' Hl Hll. by eapply (p_todo Hlen i _ Heqo).
  - intros Hlen j pc' Hl Hll. by eapply (p_todo Hlen i _ Heqo).
  - intros Hlen j pc' Hl Hll. by eapply (p_todo Hlen i _ Heqo).
  - intros Hlen j pc' Hl Hll. by eapply (p_todo Hlen i _ Heqo).
Qed.

Lemma protocol_tail jobs rest done tl :
  protocol jobs rest = done ++ tl -> length tl = length rest -> tl = rest.
Proof.
  unfold protocol. intros Heq Hlen.
  change (OpWaitOnJobs :: rest) with ([OpWaitOnJobs] ++ rest) in Heq.
  rewrite app_assoc in Heq. symmetry in Heq.
  by apply app_inj_2 in Heq as [_ ?].
Qed.

(** What holds when the owner's first JobQueue_waitOnJobs is about to
    return: nothing is pending, and the jobs called are the jobs submitted. *)
Lemma drained_jobs n jobs rest m0 s :
  1 <= n ->
  Inv1 jobsem n (protocol jobs rest) m0 s -> Inv2 s -> Inv4 jobs rest s ->
  mainpc s = Wait_241 -> jq_live s = true -> length (prog s) = length rest ->
  all_exited (workers s) ∧ calls (hist s) ≡ₚ jobs ∧ returns (hist s) ≡ₚ jobs.
Proof.
  intros Hn HI1 Hinv2 Hinv4 Hpc Hlive Hlen. inv2 Hinv2. inv4 Hinv4.
  pose proof (drained_all_exited _ _ _ _ HI1 Hpc) as Hex.
  inv1 HI1. unfold main_fact in i_main. rewrite Hpc in *. cbn in *.
  destruct i_main as (_ & Hws & _).
  (* there is a worker, and it has left its loop: the list is empty *)
  destruct (workers s !! 0%nat) as [pc0|] eqn:H0.
  2: { apply lookup_ge_None in H0. lia. }
  pose proof (Hex _ _ H0) as ->.
  assert (todo (q s) = 0) as Htodo by (eapply p_todo; [lia|exact H0|done]).
  specialize (h_live Hlive). unfold heap_fact in h_live. rewrite Hpc in h_live.
  destruct h_live as [[l [Kc _ _ _ _ Kl]] _].
  destruct l as [|[a [f x]] l]; cbn in Kc; [|lia].
  rewrite (all_exited_gather (pending (heap s)) _ Hex eq_refl) in Kl. cbn in Kl.
  rewrite (all_exited_gather running _ Hex eq_refl) in i_calls. cbn in i_calls.
  (* every submitted job has been linked *)
  destruct p_suffix as [done Hd].
  rewrite (protocol_tail _ _ _ _ Hd Hlen), addjobs_protocol in i_prog.
  apply app_inv_tail in i_prog.
  assert (calls (hist s) ≡ₚ jobs) as Hc.
  { rewrite <- Kl, <- i_prog. apply Permutation_rev. }
  split_and!; [done..|]. by rewrite <- i_calls.
Qed.

Lemma Inv4_after n jobs rest m0 s c s' :
  1 <= n ->
  Inv1 jobsem n (protocol jobs rest) m0 s -> Inv2 s ->
  Inv4 jobs rest s -> step jobsem NDEBUG c s = Some s' ->
  returned rest s' ->
  all_exited (workers s') ∧ calls (hist s') ≡ₚ jobs ∧ returns (hist s') ≡ₚ jobs.
Proof.
  intros Hn HI1 HI2 HI4 Hs Hr'.
  assert (returned rest s ->
          all_exited (workers s') ∧ calls (hist s') ≡ₚ jobs ∧ returns (hist s') ≡ₚ jobs)
    as Hkeep.
  { intros Hr. inv4 HI4. destruct (p_after Hr) as (Hex & Hc & Hrt).
    pose proof (step_all_exited _ _ _ Hs Hex) as Hw.
    destruct (step_main_calls _ _ _ Hs Hw) as (-> & -> & Hws).
    rewrite Hws; [done|]. destruct (constructing (mainpc s)) eqn:E; [|done].
    exfalso. unfold returned in Hr. rewrite (p_new eq_refl) in Hr. unfold protocol in Hr.
    rewrite length_app in Hr. cbn in Hr. lia. }
  destruct (step_prog _ _ _ Hs) as [[Hp Hpc]|(Hpc & op & Hop & Hpc')].
  - (* the owner makes no call in this step *)
    destruct Hr' as [Hlt|[Hlen Hready']].
    { apply Hkeep. left. by rewrite <- Hp. }
    destruct (decide (mainpc s = Ready)) as [Hready|Hnr].
    { apply Hkeep. right. by rewrite <- Hp. }
    (* it returns from JobQueue_waitOnJobs *)
    rewrite Hp in Hlen.
    assert (in_wait (mainpc s) = true) as Hin.
    { inv4 HI4. by destruct (p_during Hlen) as [[?|?] _]. }
    clear Hkeep Hpc.
    revert Hready'. step_inv Hs; try done.
    intros _. apply negb_false_iff in Heqb.
    destruct (drained_jobs _ _ _ _ _ Hn HI1 HI2 HI4 Heqm Heqb Hlen) as (? & ? & ?).
    done.
  - (* the owner makes its next call *)
    apply Hkeep. destruct Hr' as [Hlt|[Hlen Hready']].
    + unfold returned. rewrite Hop. cbn.
      destruct (decide (S (length (prog s')) = length rest)).
      * right. split; [lia|done].
      * left. lia.
    + rewrite Hpc' in Hready'. by destruct op.
Qed.

Lemma Inv4_step n jobs rest m0 s c s' :
  1 <= n ->
  Inv1 jobsem n (protocol jobs rest) m0 s -> Inv2 s ->
  Inv4 jobs rest s -> step jobsem NDEBUG c s = Some s' -> Inv4 jobs rest s'.
Proof.
  intros Hn H1 H2 H4 Hs. split.
  - eapply Inv4_suffix; eauto.
  - eapply Inv4_new; eauto.
  - eapply Inv4_before; eauto.
  - eapply Inv4_during; eauto.
  - eapply Inv4_todo; eauto.
  - eapply Inv4_after; eauto.
Qed.

Lemma Inv_protocol_run n jobs rest q0 m0 cs s :
  1 <= n ->
  run jobsem NDEBUG cs (init n (protocol jobs rest) q0 m0) = Some s ->
  Inv1 jobsem n (protocol jobs rest) m0 s ∧ Inv2 s ∧ Inv4 jobs rest s.
Proof.
  intros Hn.
  apply (run_invariant
           (fun s => Inv1 jobsem n (protocol jobs rest) m0 s ∧ Inv2 s ∧ Inv4 jobs rest s)).
  - intros c s1 s2 (H1 & H2 & H4) Hs. split_and!.
    + eapply Inv1_step; eauto.
    + eapply Inv2_step; eauto.
    + eapply Inv4_step; eauto.
  - split_and!; [apply Inv1_init|apply Inv2_init|apply Inv4_init].
Qed.

Lemma Inv3_run n p0 q0 m0 cs s :
  run jobsem NDEBUG cs (init n p0 q0 m0) = Some s -> Inv3 s.
Proof.
  intros Hr.
  cut (Inv1 jobsem n p0 m0 s ∧ Inv3 s); [tauto|]. revert Hr.
  apply (run_invariant (fun s => Inv1 jobsem n p0 m0 s ∧ Inv3 s)).
  - intros c s1 s2 (H1 & H3) Hs. split.
    + eapply Inv1_step; eauto.
    + eapply Inv3_step; eauto.
  - split; [apply Inv1_init|apply Inv3_init].
Qed.

End Proofs.

(** ** The list stays empty while a worker quits *)

Section Quitting.

Context {Mem : Type} (jobsem : Z -> Z -> Mem -> Mem) (NDEBUG : bool).
Implicit Types (s : State Mem) (c : Choice) (ws : list WorkerPC).

Lemma quit_fact_step n p0 m0 s c s' :
  Inv1 jobsem n p0 m0 s -> quit_fact s -> step jobsem NDEBUG c s = Some s' ->
  quit_fact s'.
Proof.
  intros Hinv1 Hq Hs. inv1 Hinv1. pose proof i_main as Hmf.
  unfold main_fact in i_main. unfold quit_fact in *.
  step_inv Hs.
  all: try done.
  all: intros j pc' Hl Hqt; split_worker Hl.
  all: try (cbn in Hqt; discriminate Hqt).
  all: try (eapply Hq; eauto; done).
  all: repeat match goal with
         | H : workers _ !! _ = Some _ |- _ =>
             learn (i_lock_worker _ _ H); learn (i_worker _ _ H)
         end.
  all: cbn in *.
  all: try done.
  - assert (lock (q s) = Some Main) as HL by (by apply i_lock_main).
    rewrite HL in *. destruct pc'; cbn in *; try done; intuition congruence.
  - assert (worker_holds Thr_187 = true) as Hh by done.
    match goal with
    | H : workers s !! _ = Some Thr_187 |- _ => apply (i_lock_worker _ _ H) in Hh
    end.
    rewrite Hh in *. destruct pc'; cbn in *; try done; intuition congruence.
Qed.

(** In every reachable state. *)
Lemma quit_fact_run n p0 q0 m0 cs s :
  run jobsem NDEBUG cs (init n p0 q0 m0) = Some s ->
  Inv1 jobsem n p0 m0 s ∧ quit_fact s.
Proof.
  apply (run_invariant jobsem NDEBUG (fun s => Inv1 jobsem n p0 m0 s ∧ quit_fact s)).
  - intros c s1 s2 [H1 H2] Hs. split.
    + eapply Inv1_step; eauto.
    + eapply quit_fact_step; eauto.
  - split; [apply Inv1_init|]. intros i pc Hl. done.
Qed.

(** The worker leaves its loop only from the test of line 178, with the
    list empty and acceptingJobs = 0. *)
Lemma leave_loop n p0 q0 m0 cs s c s' i pc pc' :
  run jobsem NDEBUG cs (init n p0 q0 m0) = Some s ->
  step jobsem NDEBUG c s = Some s' ->
  workers s !! i = Some pc -> workers s' !! i = Some pc' ->
  left_loop pc = false -> left_loop pc' = true ->
  pc = Thr_178 ∧ pc' = Thr_199 ∧ todo (q s) = NULL ∧ acceptingJobs (q s) = 0.
Proof.
  intros Hr Hs Hi Hi' Hp Hp'.
  destruct (Inv_run jobsem NDEBUG _ _ _ _ _ _ Hr) as [Hinv1 _]. inv1 Hinv1.
  pose proof i_main as Hmf. pose proof (i_worker _ _ Hi) as Hw.
  pose proof (i_fields (main_fact_workers _ _ _ _ Hmf Hi)) as [Hacc _].
  step_inv Hs.
  all: split_worker Hi'.
  all: simplify_eq/=.
  all: try done.
  all: try congruence.
  split_and!; [done..|]. destruct Hacc as [?|?]; [done|]. destruct Hw. by split.
Qed.

(** Once out of the loop the worker holds the mutex until its unlock of
    line 207, and the list stays empty. *)
Lemma quitting_state n p0 q0 m0 cs s i pc :
  run jobsem NDEBUG cs (init n p0 q0 m0) = Some s ->
  workers s !! i = Some pc -> quitting pc = true ->
  todo (q s) = NULL ∧ acceptingJobs (q s) = 0 ∧ lock (q s) = Some (Worker i).
Proof.
  intros Hr Hi Hq.
  destruct (quit_fact_run _ _ _ _ _ _ Hr) as [Hinv1 Hqf]. inv1 Hinv1.
  pose proof (i_worker _ _ Hi) as Hw. pose proof (i_lock_worker _ _ Hi) as Hl.
  split; [by eapply Hqf|].
  destruct pc; cbn in *; try done; intuition.
Qed.

(** threadsStopped is incremented at line 199 and nowhere else. *)
Lemma park_step n p0 q0 m0 cs s c s' i pc pc' :
  run jobsem NDEBUG cs (init n p0 q0 m0) = Some s ->
  step jobsem NDEBUG c s = Some s' ->
  workers s !! i = Some pc -> workers s' !! i = Some pc' ->
  parked pc = false -> parked pc' = true ->
  pc = Thr_199 ∧ pc' = Thr_201 ∧ jq_live s = true ∧
  q s' = set_threadsStopped (threadsStopped (q s) + 1) (q s) ∧
  hist s' = hist s ∧ workers s' = <[i := Thr_201]> (workers s).
Proof.
  intros Hr Hs Hi Hi' Hp Hp'.
  step_inv Hs.
  all: split_worker Hi'.
  all: simplify_eq/=.
  all: try done.
  all: try congruence.
  apply negb_false_iff in Heqb. done.
Qed.

Lemma nparked_all ws :
  nparked ws = Z.of_nat (length ws) ->
  forall i pc, ws !! i = Some pc -> parked pc = true.
Proof.
  unfold nparked, gather. induction ws as [|pc0 ws IH]; intros Hall i pc Hi; [done|].
  rewrite bind_cons, length_app, length_cons in Hall.
  pose proof (nparked_bound ws) as Hb. unfold nparked, gather in Hb.
  assert (length (parked_mark pc0) <= 1)%nat as H1
    by (unfold parked_mark; destruct (parked pc0); cbn; lia).
  destruct i as [|i]; cbn in Hi.
  - simplify_eq. unfold parked_mark in *. destruct (parked pc); [done|]. cbn in *. lia.
  - apply (IH ltac:(lia) i _ Hi).
Qed.

Lemma gather_all_nil {A} (f : WorkerPC -> list A) ws :
  (forall i pc, ws !! i = Some pc -> f pc = []) -> gather f ws = [].
Proof.
  intros Hf. unfold gather. induction ws as [|pc ws IH]; [done|].
  rewrite bind_cons, (Hf 0%nat pc eq_refl). cbn.
  apply IH. intros i pc' Hi. apply (Hf (S i)). done.
Qed.

(** When the last worker is about to count itself, every job linked so far
    has been called and has returned. *)
Lemma last_worker_drained n p0 q0 m0 cs s i :
  run jobsem NDEBUG cs (init n p0 q0 m0) = Some s ->
  workers s !! i = Some Thr_199 -> jq_live s = true ->
  threadsStopped (q s) + 1 = nthreads (q s) ->
  todo (q s) = NULL ∧ links (hist s) ≡ₚ calls (hist s) ∧
  calls (hist s) ≡ₚ returns (hist s).
Proof.
  intros Hr Hi Hlive Hlast.
  destruct (Inv_run jobsem NDEBUG _ _ _ _ _ _ Hr) as [Hinv1 Hinv2].
  pose proof (Inv3_run jobsem NDEBUG _ _ _ _ _ _ Hr) as Hinv3.
  inv1 Hinv1. inv2 Hinv2. inv3 Hinv3.
  pose proof i_main as Hmf. pose proof (i_worker _ _ Hi) as [Htodo Hacc].
  pose proof (main_fact_workers _ _ _ _ Hmf Hi) as Hun.
  destruct (i_fields Hun) as [_ Hst].
  destruct (d_drain Hun Hacc) as [Hdr|Hex]; [|by apply Hex in Hi].
  specialize (h_live Hlive).
  unfold main_fact in i_main. unfold heap_fact in h_live.
  assert (Z.of_nat (length (workers s)) = Z.max 0 n ∧ nthreads (q s) = n ∧
          exists l, heap_ok s l) as (Hlen & Hn & l & Hok).
  { destruct (mainpc s); try done; intuition. }
  assert (forall j pc, workers s !! j = Some pc -> pc = Thr_199 ∨ parked pc = true)
    as Hall.
  { assert (nparked (<[i:=Thr_201]> (workers s)) =
            Z.of_nat (length (<[i:=Thr_201]> (workers s)))) as Hfull.
    { pose proof (nparked_insert _ _ _ Thr_201 Hi) as Hins. cbn in Hins.
      rewrite length_insert.
      pose proof (nparked_bound (<[i:=Thr_201]> (workers s))) as Hb.
      rewrite length_insert in Hb. lia. }
    intros j pc Hj. destruct (decide (j = i)) as [->|Hne].
    - left. congruence.
    - right. eapply (nparked_all _ Hfull j). by rewrite list_lookup_insert_ne. }
  invk Hok. rewrite Htodo in k_chain.
  assert (l = []) as -> by (destruct l as [|[a [f x]] l]; cbn in *; [done|lia]).
  cbn in k_links.
  rewrite (gather_all_nil (pending (heap s))) in k_links.
  2:{ intros j pc Hj. destruct (Hall _ _ Hj) as [->|?]; [done|]. by destruct pc. }
  rewrite (gather_all_nil running) in i_calls.
  2:{ intros j pc Hj. destruct (Hall _ _ Hj) as [->|?]; [done|]. by destruct pc. }
  done.
Qed.

End Quitting.

(** ** The trace of a call *)

Lemma events_of_cons t t' e h :
  events_of t ((t', e) :: h) =
  if decide (t' = t) then e :: events_of t h else events_of t h.
Proof. unfold events_of. cbn. by destruct (decide (t' = t)). Qed.

Lemma events_of_main e h : events_of Main ((Main, e) :: h) = e :: events_of Main h.
Proof. by rewrite events_of_cons, decide_True. Qed.

Lemma events_of_worker i e h : events_of Main ((Worker i, e) :: h) = events_of Main h.
Proof. by rewrite events_of_cons, decide_False. Qed.

Lemma events_of_app t h1 h2 : events_of t (h1 ++ h2) = events_of t h1 ++ events_of t h2.
Proof. unfold events_of. apply omap_app. Qed.

Section Calls.

Context {Mem : Type} (jobsem : Z -> Z -> Mem -> Mem) (NDEBUG : bool).
Implicit Types (s : State Mem) (c : Choice) (ws : list WorkerPC).

Lemma since_step s0 op rest s c s' :
  since s0 op rest s -> step jobsem NDEBUG c s = Some s' -> since s0 op rest s'.
Proof.
  intros [new Hh Hev Hpc Hprog|new Hh Hprog Htr Hf|Hlen] Hs.
  - step_inv Hs; try congruence.
    all: try (eapply (call_before _ _ _ _ new); cbn; done).
    all: try (eapply (call_before _ _ _ _ (_ :: new)); cbn;
              rewrite ?events_of_worker; [rewrite Hh; reflexivity|done..]).
    eapply (call_during _ _ _ _ new); cbn; [done..| |].
    + rewrite Hev. by destruct op.
    + destruct op; cbn; done.
  - destruct op as [f x| |].
    + unfold call_trace, call_fact in *. step_inv Hs.
      all: try (rewrite Heqm in Htr; cbn in Htr).
      all: try done.
      all: try (eapply (call_during _ _ _ _ new); cbn; goal_rew; cbn; done).
      all: try (eapply (call_during _ _ _ _ (_ :: new)); cbn; goal_rew; cbn;
                rewrite ?events_of_worker; [rewrite Hh; reflexivity|done..]).
      { apply call_after. cbn. lia. }
      all: first [ eapply (call_during _ _ _ _ (_ :: new)); cbn;
                   [rewrite Hh; reflexivity|done|..]
                 | eapply (call_during _ _ _ _ new); cbn; [done|done|..] ].
      all: try done.
      all: rewrite ?events_of_main.
      all: try (destruct Htr as (-> & -> & Htr)).
      all: try (destruct Htr as (Hj & Htr)).
      all: rewrite ?Htr.
      all: try done.
      * by rewrite e.
      * by exists job.
    + unfold call_trace, call_fact in *. step_inv Hs.
      all: try (rewrite Heqm in Htr, Hf; cbn in Htr).
      all: try done.
      all: try (eapply (call_during _ _ _ _ new); cbn; goal_rew; cbn; done).
      all: try (eapply (call_during _ _ _ _ (_ :: new)); cbn; goal_rew; cbn;
                rewrite ?events_of_worker; [rewrite Hh; reflexivity|done..]).
      { apply call_after. cbn. lia. }
      all: first [ eapply (call_during _ _ _ _ (_ :: new)); cbn;
                   [rewrite Hh; reflexivity|done|..]
                 | eapply (call_during _ _ _ _ new); cbn; [done|done|..] ].
      all: rewrite ?events_of_main.
      all: try (destruct Htr as (k & Htr)).
      all: rewrite ?Htr.
      all: try done.
      all: try (intros; apply Hf; done).
      all: try (by exists k).
      * by exists 0%nat.
      * by exists (S k).
    + step_inv Hs.
      all: try (eapply (call_during _ _ _ _ new); cbn; done).
      all: try (eapply (call_during _ _ _ _ (_ :: new)); cbn;
                [rewrite Hh; reflexivity|done..]).
      apply call_after. cbn. lia.
  - apply call_after.
    destruct (step_prog jobsem NDEBUG _ _ _ Hs) as [[-> _]|(_ & op' & Hop & _)];
      [done|].
    rewrite Hop in Hlen. cbn in Hlen. lia.
Qed.

Lemma since_run s0 op rest cs s :
  mainpc s0 = Ready -> prog s0 = op :: rest ->
  run jobsem NDEBUG cs s0 = Some s -> since s0 op rest s.
Proof.
  intros Hpc Hprog.
  apply (run_invariant jobsem NDEBUG (since s0 op rest)).
  - intros c s1 s2. apply since_step.
  - by apply (call_before _ _ _ _ []).
Qed.

(** The trace of a complete call. *)
Lemma call_returned s0 op rest cs s :
  mainpc s0 = Ready -> prog s0 = op :: rest ->
  run jobsem NDEBUG cs s0 = Some s ->
  mainpc s = Ready -> prog s = rest ->
  exists new, hist s = new ++ hist s0 ∧
    call_trace op Ready (events_of Main new) ∧ call_fact op Ready (q s).
Proof.
  intros Hpc0 Hprog0 Hr Hpc Hprog.
  destruct (since_run _ _ _ _ _ Hpc0 Hprog0 Hr) as [new Hh _ _ Hp|new Hh _ Htr Hf|Hlen].
  - rewrite Hprog in Hp. apply (f_equal length) in Hp. cbn in Hp. lia.
  - exists new. by rewrite Hpc in Htr, Hf.
  - rewrite Hprog in Hlen. lia.
Qed.

Lemma run_app cs1 cs2 s s1 s2 :
  run jobsem NDEBUG cs1 s = Some s1 -> run jobsem NDEBUG cs2 s1 = Some s2 ->
  run jobsem NDEBUG (cs1 ++ cs2) s = Some s2.
Proof.
  revert s. induction cs1 as [|c cs1 IH]; intros s H1 H2; cbn in *.
  - by simplify_eq.
  - destruct (step jobsem NDEBUG c s); [eauto|done].
Qed.

End Calls.

(** ** JobQueue_addJob, step by step *)

Section AddJob.

Context {Mem : Type} (jobsem : Z -> Z -> Mem -> Mem) (NDEBUG : bool).
Implicit Types (s : State Mem) (c : Choice) (ws : list WorkerPC).

Lemma addJob_frame s c s' :
  in_add (mainpc s) = true -> who c = Main ->
  step jobsem NDEBUG c s = Some s' ->
  acceptingJobs (q s') = acceptingJobs (q s) ∧
  threadsStopped (q s') = threadsStopped (q s) ∧
  nthreads (q s') = nthreads (q s) ∧
  forall cv, hist s' ≠ (Main, EvWait cv) :: hist s.
Proof.
  intros Hin Hw Hs. step_inv Hs; try done.
  all: try (split_and!; [done..|]; intros cv Hcv;
            apply (f_equal length) in Hcv; cbn in Hcv; lia).
Qed.

(** Line 136-137: the new cell becomes the head of the list, its next is
    the old head. *)
Lemma addJob_link n p0 q0 m0 cs s f x job c s' :
  run jobsem NDEBUG cs (init n p0 q0 m0) = Some s ->
  mainpc s = Add_136 f x job -> who c = Main ->
  step jobsem NDEBUG c s = Some s' -> status s' = Running ->
  exists l, chain (heap s) (todo (q s)) l ∧
    chain (heap s') (todo (q s')) ((job, (f, x)) :: l) ∧
    hist s' = (Main, EvLink f x) :: hist s.
Proof.
  intros Hr Hpc Hw Hs Hst.
  destruct (Inv_run jobsem NDEBUG _ _ _ _ _ _ Hr) as [Hinv1 Hinv2].
  inv1 Hinv1. inv2 Hinv2. unfold heap_fact in h_live.
  step_inv Hs; try done; try congruence.
  apply negb_false_iff in Heqb. specialize (h_live Heqb).
  destruct h_live as [[l Hl] _]. invk Hl.
  rewrite Heqm in k_main. simplify_eq. destruct k_main as [nx Hnx].
  exists l. split; [done|]. split; [|done].
  assert (job ∉ l.*1) as Hfresh.
  { intros Hin. apply NoDup_app in k_nodup as (_ & Hd & _).
    apply (Hd _ Hin). unfold held. rewrite Heqm. cbn. apply elem_of_cons. by left. }
  assert (job ≠ NULL) by congruence.
  simplify_eq. split_and!; [done..|].
  exists (todo (q s)). rewrite lookup_insert_eq. split; [done|].
  by apply chain_insert_ne.
Qed.

Lemma run_cons c cs s s1 :
  step jobsem NDEBUG c s = Some s1 ->
  run jobsem NDEBUG (c :: cs) s = run jobsem NDEBUG cs s1.
Proof. intros H. cbn. by rewrite H. Qed.

(** With the mutex free and memory available, the owner alone completes
    the call: no step of it depends on a worker. *)
Lemma addJob_returns n p0 q0 m0 cs0 s f x rest a c c' :
  run jobsem NDEBUG cs0 (init n p0 q0 m0) = Some s ->
  status s = Running -> mainpc s = Ready -> prog s = OpAddJob f x :: rest ->
  jq_live s = true -> lock (q s) = None ->
  a ≠ NULL -> heap s !! a = None ->
  who c = Main -> rc c = 0 -> who c' = Main -> rc c' = 0 -> ptr c' = a ->
  exists s',
    run jobsem NDEBUG (c :: c' :: replicate 6 c) s = Some s' ∧
    status s' = Running ∧ mainpc s' = Ready ∧ prog s' = rest.
Proof.
  intros Hr Hst Hpc Hprog Hlive Hlock Ha Hfresh Hc Hrc Hc' Hrc' Hptr.
  destruct (Inv_run jobsem NDEBUG _ _ _ _ _ _ Hr) as [_ Hinv2]. inv2 Hinv2.
  assert (jq s ≠ NULL) as Hjq.
  { intros E. unfold jq_live in Hlive. apply bool_decide_eq_true in Hlive.
    rewrite E in Hlive. congruence. }
  assert (a ≠ jq s) as Hne.
  { intros ->. unfold jq_live in Hlive. apply bool_decide_eq_true in Hlive.
    congruence. }
  unfold jq_live in Hlive.
  erewrite run_cons.
  2:{ unfold step, step_main. rewrite Hst, Hc, Hpc, Hprog. reflexivity. }
  erewrite run_cons.
  2:{ unfold step, step_main, assert_, malloc, jq_live. cbn.
      rewrite Hst, Hc', Hlive, Hptr, (bool_decide_eq_true_2 _ Hjq), orb_true_r.
      cbn. rewrite (decide_False (P := a = 0)) by done. rewrite Hfresh.
      reflexivity. }
  cbn [replicate].
  repeat (erewrite run_cons;
    [|unfold step, step_main, jq_live, checkmem, mutex_lock, mutex_unlock,
        cond_signal, link_head, ERR; cbn;
      rewrite ?Hst, ?Hc, ?Hrc; cbn;
      rewrite ?lookup_insert_ne by done; rewrite ?Hlive; cbn;
      rewrite ?(decide_False (P := a = 0)) by done;
      rewrite ?lookup_insert_eq, ?Hlock; cbn;
      rewrite ?(decide_True (P := Some Main = Some Main)) by done; cbn;
      reflexivity]).
  eexists. split; [reflexivity|]. cbn. done.
Qed.

End AddJob.

(** ** JobQueue_waitOnJobs *)

Section WaitOnJobs.

Context {Mem : Type} (jobsem : Z -> Z -> Mem -> Mem) (NDEBUG : bool).
Implicit Types (s : State Mem) (c : Choice) (ws : list WorkerPC).

Lemma all_exited_nparked ws :
  all_exited ws -> nparked ws = Z.of_nat (length ws).
Proof.
  unfold nparked, gather. induction ws as [|pc ws IH]; intros Hex; [done|].
  rewrite bind_cons, length_app, (Hex 0%nat pc eq_refl). cbn.
  rewrite Nat2Z.inj_succ, IH; [lia|].
  intros i pc' Hi. by apply (Hex (S i)).
Qed.

(** After JobQueue_waitOnJobs has set acceptingJobs to 0 and is not in its
    loop any more, every worker has returned and is counted. *)
Lemma stopped_all n p0 q0 m0 cs s :
  0 <= n ->
  run jobsem NDEBUG cs (init n p0 q0 m0) = Some s ->
  uninit (mainpc s) = false -> draining (mainpc s) = false ∨ mainpc s = Wait_241 ->
  acceptingJobs (q s) = 0 ->
  threadsStopped (q s) = nthreads (q s) ∧ all_exited (workers s).
Proof.
  intros Hn Hr Hun Hdr Hacc.
  destruct (Inv_run jobsem NDEBUG _ _ _ _ _ _ Hr) as [Hinv1 _].
  pose proof (Inv3_run jobsem NDEBUG _ _ _ _ _ _ Hr) as Hinv3.
  assert (all_exited (workers s)) as Hex.
  { destruct Hdr as [Hdr|Hpc]; [|by eapply drained_all_exited].
    inv3 Hinv3. destruct (d_drain Hun Hacc) as [?|?]; [congruence|done]. }
  split; [|done]. inv1 Hinv1. inv3 Hinv3.
  destruct (i_fields Hun) as [_ ->]. rewrite (all_exited_nparked _ Hex).
  assert (constructing (mainpc s) = false) as Hc.
  { destruct (constructing (mainpc s)) eqn:E; [|done].
    specialize (d_new eq_refl Hun). lia. }
  unfold main_fact in i_main. destruct (mainpc s); try done; lia.
Qed.

Lemma wait_steps n p0 q0 m0 cs s c s' :
  run jobsem NDEBUG cs (init n p0 q0 m0) = Some s ->
  who c = Main -> step jobsem NDEBUG c s = Some s' -> status s' = Running ->
  (mainpc s = Wait_225 ->
     lock (q s) = Some Main ∧ acceptingJobs (q s') = 0 ∧ mainpc s' = Wait_226) ∧
  (mainpc s = Wait_226 ->
     lock (q s) = Some Main ∧
     mainpc s' = if decide (threadsStopped (q s) < nthreads (q s))
                 then Wait_230 else Wait_241).
Proof.
  intros Hr Hw Hs Hst.
  destruct (Inv_run jobsem NDEBUG _ _ _ _ _ _ Hr) as [Hinv1 _]. inv1 Hinv1.
  split; intros Hpc; (split; [apply i_lock_main; by rewrite Hpc|]).
  - step_inv Hs; try done; congruence.
  - step_inv Hs; try done; congruence.
Qed.

End WaitOnJobs.

(** ** The order of the pending list *)

Lemma replay_quiet h h' :
  links h = [] -> unlinks h = [] -> replay (h ++ h') = replay h'.
Proof.
  induction h as [|[t e] h IH]; [done|]. destruct e; cbn; try done; auto.
Qed.

Lemma lifo_app h h' : lifo (h ++ h') -> lifo h'.
Proof.
  induction h as [|[t e] h IH]; [done|]. destruct e; cbn; try done; tauto.
Qed.

(** After A then B are linked, the next two unlinks take B, then A. *)
Lemma lifo_last_first h4 h3 h2 h1 t t' tA tB f x f' x' fA xA fB xB :
  lifo ((t', EvUnlink f' x') :: h4 ++ (t, EvUnlink f x) :: h3 ++
        (tB, EvLink fB xB) :: h2 ++ (tA, EvLink fA xA) :: h1) ->
  links h4 = [] -> unlinks h4 = [] -> links h3 = [] -> unlinks h3 = [] ->
  links h2 = [] -> unlinks h2 = [] ->
  (f, x) = (fB, xB) ∧ (f', x') = (fA, xA).
Proof.
  intros [Hhd Hl] L4 U4 L3 U3 L2 U2.
  rewrite replay_quiet in Hhd by done. cbn in Hhd.
  apply lifo_app in Hl. destruct Hl as [Hhd' _].
  rewrite replay_quiet in Hhd, Hhd' by done. cbn in Hhd, Hhd'.
  rewrite replay_quiet in Hhd by done. cbn in Hhd.
  split; congruence.
Qed.

Section Dequeue.

Context {Mem : Type} (jobsem : Z -> Z -> Mem -> Mem) (NDEBUG : bool).
Implicit Types (s : State Mem) (c : Choice) (ws : list WorkerPC).

(** Line 187-188: the worker takes the first cell of the list. *)
Lemma dequeue_head n p0 q0 m0 cs s i c s' :
  run jobsem NDEBUG cs (init n p0 q0 m0) = Some s ->
  workers s !! i = Some Thr_187 -> who c = Worker i ->
  step jobsem NDEBUG c s = Some s' -> status s' = Running ->
  exists a f x l,
    chain (heap s) (todo (q s)) ((a, (f, x)) :: l) ∧
    chain (heap s') (todo (q s')) l ∧
    workers s' !! i = Some (Thr_190 a) ∧
    hist s' = (Worker i, EvUnlink f x) :: hist s.
Proof.
  intros Hr Hi Hw Hs Hst.
  destruct (Inv_run jobsem NDEBUG _ _ _ _ _ _ Hr) as [Hinv1 Hinv2].
  inv1 Hinv1. inv2 Hinv2.
  pose proof (main_fact_workers _ _ _ _ i_main Hi) as Hun.
  pose proof (i_worker _ _ Hi) as Htodo. cbn in Htodo.
  unfold heap_fact in h_live.
  step_inv Hs; try congruence.
  all: simplify_eq/=.
  apply negb_false_iff in Heqb. specialize (h_live Heqb).
  assert (exists l, heap_ok s l) as [l Hl].
  { destruct (mainpc s); try done; try (by destruct h_live).
    all: unfold main_fact in i_main; cbn in i_main; destruct i_main as [_ Hw];
      by rewrite Hw in Heqo. }
  invk Hl. destruct l as [|[a [f x]] l]; cbn in k_chain; [done|].
  destruct k_chain as (Ha & Hne & nx & Hnx & Hc). simplify_eq.
  exists (todo (q s)), jobfun, param, l. split_and!; try done.
  - by exists next.
  - apply list_lookup_insert_eq. by eapply lookup_lt_Some.
Qed.

End Dequeue.

(** ** The flag and the counter *)

Section Counters.

Context {Mem : Type} (jobsem : Z -> Z -> Mem -> Mem) (NDEBUG : bool).
Implicit Types (s : State Mem) (c : Choice) (ws : list WorkerPC).

(** The two assignments to acceptingJobs: lines 92 and 225. *)
Lemma accepting_writes s c s' :
  step jobsem NDEBUG c s = Some s' ->
  acceptingJobs (q s') ≠ acceptingJobs (q s) ->
  who c = Main ∧
  (((exists n, mainpc s = New_91 n) ∧ acceptingJobs (q s') = 1) ∨
   (mainpc s = Wait_225 ∧ acceptingJobs (q s') = 0)).
Proof.
  intros Hs Hne. step_inv Hs; try done.
  - split; [done|]. left. eauto.
  - split; [done|]. by right.
Qed.

Lemma shutdown_step s c s' :
  uninit (mainpc s) = false -> acceptingJobs (q s) = 0 ->
  step jobsem NDEBUG c s = Some s' ->
  uninit (mainpc s') = false ∧ acceptingJobs (q s') = 0.
Proof.
  intros Hun Hacc Hs. step_inv Hs; try done.
  split; [|done]. by destruct o.
Qed.

Lemma shutdown_run s cs s' :
  uninit (mainpc s) = false -> acceptingJobs (q s) = 0 ->
  run jobsem NDEBUG cs s = Some s' ->
  uninit (mainpc s') = false ∧ acceptingJobs (q s') = 0.
Proof.
  intros Hun Hacc.
  apply (run_invariant jobsem NDEBUG
           (fun s => uninit (mainpc s) = false ∧ acceptingJobs (q s) = 0)).
  - intros c s1 s2 [H1 H2] Hs. by eapply shutdown_step.
  - done.
Qed.

(** The writes to threadsStopped: line 93 and the increment of line 199. *)
Lemma stopped_step s c s' :
  uninit (mainpc s) = false ->
  step jobsem NDEBUG c s = Some s' ->
  (threadsStopped (q s') = threadsStopped (q s) ∨
   (threadsStopped (q s') = threadsStopped (q s) + 1 ∧
    exists i, who c = Worker i ∧ workers s !! i = Some Thr_199 ∧
              workers s' !! i = Some Thr_201)) ∧
  (forall i pc pc', workers s !! i = Some pc -> workers s' !! i = Some pc' ->
     parked pc = true -> parked pc' = true).
Proof.
  intros Hun Hs. step_inv Hs; try done.
  all: split; [try (by left)|].
  all: try (intros j pc pc' Hj Hj' Hp; split_worker Hj'; simplify_eq/=; done).
  - intros j pc pc' Hj Hj' Hp.
    rewrite lookup_app_l in Hj' by (by eapply lookup_lt_Some). congruence.
  - right. split; [done|]. exists i. split_and!; [done..|].
    apply list_lookup_insert_eq. by eapply lookup_lt_Some.
Qed.

End Counters.

(** ** JobQueue_free *)

Section Free.

Context {Mem : Type} (jobsem : Z -> Z -> Mem -> Mem) (NDEBUG : bool).
Implicit Types (s : State Mem) (c : Choice) (ws : list WorkerPC).

(** Lines 271-273: Job_free(jq->todo), free(jq->thread), free(jq). *)
Lemma free_steps n p0 q0 m0 cs s c1 c2 c3 :
  run jobsem NDEBUG cs (init n p0 q0 m0) = Some s ->
  status s = Running -> mainpc s = Free_271 -> jq_live s = true ->
  who c1 = Main -> who c2 = Main -> who c3 = Main ->
  exists l s',
    chain (heap s) (todo (q s)) l ∧
    run jobsem NDEBUG [c1; c2; c3] s = Some s' ∧
    status s' = Running ∧ mainpc s' = Ready ∧
    heap s' = delete (jq s) (delete (thread (q s)) (free_all l.*1 (heap s))).
Proof.
  intros Hr Hst Hpc Hlive Hc1 Hc2 Hc3.
  destruct (Inv_run jobsem NDEBUG _ _ _ _ _ _ Hr) as [_ Hinv2]. inv2 Hinv2.
  specialize (h_live Hlive). unfold heap_fact in h_live. rewrite Hpc in h_live.
  destruct h_live as [[l Hl] Hth]. invk Hl. exists l.
  unfold jq_live in Hlive. apply bool_decide_eq_true in Hlive.
  assert (forall a b, heap s !! a = Some b -> (forall nx x f, b ≠ BJob nx x f) ->
            free_all l.*1 (heap s) !! a = Some b) as Hkeep.
  { intros a b Ha Hb. rewrite free_all_lookup, decide_False; [done|].
    intros Hin. destruct (chain_alloc _ _ _ _ k_chain Hin) as (nx & x & f & E).
    rewrite Ha in E. simplify_eq. by eapply Hb. }
  assert (jq s ≠ NULL) as Hjq by congruence.
  pose proof (Hkeep _ _ Hlive ltac:(done)) as Hlive1.
  assert (free_all l.*1 (heap s) !! NULL = None) as Hnull1.
  { rewrite free_all_lookup. by destruct (decide _). }
  pose proof (chain_length _ _ _ k_chain) as Hlen.
  erewrite (run_cons jobsem NDEBUG).
  2:{ unfold step, step_main, with_heap, jq_live. rewrite Hst, Hc1, Hpc. cbn.
      rewrite (bool_decide_eq_true_2 _ Hlive). cbn.
      rewrite (Job_free_chain _ _ l) by (done || lia). reflexivity. }
  assert (hfree (free_all l.*1 (heap s)) (thread (q s)) =
          Done (delete (thread (q s)) (free_all l.*1 (heap s))) ∧
          thread (q s) ≠ jq s) as [Hf2 Hne].
  { unfold hfree. destruct Hth as [E|E].
    - rewrite E. cbn. split; [|congruence].
      by rewrite delete_id.
    - assert (thread (q s) ≠ NULL) as Ht by congruence.
      rewrite decide_False by done.
      rewrite (Hkeep _ _ E ltac:(done)). split; [done|]. congruence. }
  erewrite (run_cons jobsem NDEBUG).
  2:{ unfold step, step_main, with_heap, jq_live. cbn. rewrite Hst, Hc2. cbn.
      rewrite (bool_decide_eq_true_2 _ Hlive1). cbn. rewrite Hf2. reflexivity. }
  erewrite (run_cons jobsem NDEBUG).
  2:{ unfold step, step_main, with_heap, jq_live, hfree. cbn. rewrite Hst, Hc3. cbn.
      rewrite lookup_delete_ne by done.
      rewrite (bool_decide_eq_true_2 _ Hlive1). cbn.
      rewrite decide_False by done. rewrite Hlive1. reflexivity. }
  eexists. split; [done|]. split; [reflexivity|]. cbn. done.
Qed.

End Free.

(** ** A queue without threads *)

Section NoThreads.

Context {Mem : Type} (jobsem : Z -> Z -> Mem -> Mem) (NDEBUG : bool).
Implicit Types (s : State Mem) (c : Choice) (ws : list WorkerPC).

Lemma no_workers p0 q0 m0 cs s :
  run jobsem NDEBUG cs (init 0 p0 q0 m0) = Some s -> workers s = [].
Proof.
  intros Hr.
  destruct (Inv_run jobsem NDEBUG _ _ _ _ _ _ Hr) as [Hinv1 _]. inv1 Hinv1.
  apply nil_length_inv. unfold main_fact in i_main.
  destruct (mainpc s); try lia; destruct i_main as [? Hw]; try (by rewrite Hw); lia.
Qed.

(** JobQueue_new(0) returns a queue, having created no thread. *)
Lemma new0_returns p0 q0 m0 a t c ca ct :
  a ≠ NULL -> t ≠ a ->
  who c = Main -> rc c = 0 -> who ca = Main -> ptr ca = a ->
  who ct = Main -> ptr ct = t ->
  exists s,
    run jobsem NDEBUG (ca :: replicate 5 c ++ [ct; c]) (init 0 p0 q0 m0) = Some s ∧
    status s = Running ∧ mainpc s = Ready ∧ prog s = p0 ∧
    jq s = a ∧ jq_live s = true ∧ workers s = [] ∧
    q s = mkJobQueue NULL 1 0 0 t None ∧
    events_of Main (hist s) = [EvMalloc t; EvMalloc a].
Proof.
  intros Ha Hta Hc Hrc Hca Hpa Hct Hpt. cbn [replicate app].
  erewrite run_cons.
  2:{ unfold step, step_main, malloc. cbn. rewrite Hca, Hpa.
      rewrite decide_False by done. rewrite lookup_empty. reflexivity. }
  do 5 (erewrite run_cons;
    [|unfold step, step_main, jq_live, checkmem, eprintf; cbn;
      rewrite ?Hc, ?Hrc; cbn; rewrite ?decide_False by done;
      rewrite ?lookup_insert_eq; cbn; reflexivity]).
  destruct (decide (t = NULL)) as [Ht|Ht].
  - erewrite run_cons.
    2:{ unfold step, step_main, jq_live, malloc. cbn. rewrite Hct, Hpt. cbn.
        rewrite lookup_insert_eq. cbn. rewrite (decide_True (P := t = 0)) by done.
        reflexivity. }
    erewrite run_cons.
    2:{ unfold step, step_main, jq_live. cbn. rewrite Hc. cbn.
        rewrite lookup_insert_eq. cbn. reflexivity. }
    eexists. split; [reflexivity|]. cbn. unfold jq_live. cbn.
    rewrite lookup_insert_eq. rewrite !events_of_main, Ht. done.
  - erewrite run_cons.
    2:{ unfold step, step_main, jq_live, malloc. cbn. rewrite Hct, Hpt. cbn.
        rewrite lookup_insert_eq. cbn. rewrite (decide_False (P := t = 0)) by done.
        rewrite lookup_insert_ne by done. rewrite lookup_empty. reflexivity. }
    erewrite run_cons.
    2:{ unfold step, step_main, jq_live. cbn. rewrite Hc. cbn.
        rewrite lookup_insert_ne by done. rewrite lookup_insert_eq. cbn.
        reflexivity. }
    eexists. split; [reflexivity|]. cbn. unfold jq_live. cbn.
    rewrite lookup_insert_ne by done. rewrite lookup_insert_eq.
    rewrite !events_of_main. done.
Qed.

(** Without threads the owner never broadcasts. *)
Lemma quiet_step p0 m0 s c s' :
  Inv1 jobsem 0 p0 m0 s -> quiet s -> step jobsem NDEBUG c s = Some s' -> quiet s'.
Proof.
  intros Hinv1 [Hpc Hev] Hs. inv1 Hinv1. unfold main_fact in i_main.
  unfold quiet. step_inv Hs; try done.
  all: rewrite ?events_of_main, ?events_of_worker.
  all: try (split; [done|]).
  all: try done.
  all: try (apply not_elem_of_cons; split; [done|]; done).
  - by destruct o.
  - destruct (i_fields eq_refl) as [_ Hst].
    pose proof (nparked_bound (workers s)). lia.
Qed.

Lemma quiet_run p0 q0 m0 cs s :
  run jobsem NDEBUG cs (init 0 p0 q0 m0) = Some s ->
  Inv1 jobsem 0 p0 m0 s ∧ quiet s.
Proof.
  apply (run_invariant jobsem NDEBUG (fun s => Inv1 jobsem 0 p0 m0 s ∧ quiet s)).
  - intros c s1 s2 [H1 H2] Hs. split.
    + eapply Inv1_step; eauto.
    + eapply quiet_step; eauto.
  - split; [apply Inv1_init|]. split; [done|]. cbn. apply not_elem_of_nil.
Qed.

(** The trace of a complete JobQueue_waitOnJobs: lock, unlock. *)
Lemma wait0_trace p0 q0 m0 cs0 s0 rest cs s :
  run jobsem NDEBUG cs0 (init 0 p0 q0 m0) = Some s0 ->
  mainpc s0 = Ready -> prog s0 = OpWaitOnJobs :: rest ->
  run jobsem NDEBUG cs s0 = Some s -> mainpc s = Ready -> prog s = rest ->
  exists new, hist s = new ++ hist s0 ∧ events_of Main new = [EvUnlock; EvLock].
Proof.
  intros Hr0 Hpc0 Hprog0 Hr Hpc Hprog.
  destruct (call_returned jobsem NDEBUG _ _ _ _ _ Hpc0 Hprog0 Hr Hpc Hprog)
    as (new & Hh & (k & Hev) & _).
  exists new. split; [done|].
  destruct (quiet_run _ _ _ _ _ (run_app jobsem NDEBUG _ _ _ _ _ Hr0 Hr))
    as [_ [_ Hq]].
  destruct k as [|k]; [done|]. destruct Hq.
  rewrite Hh, events_of_app, Hev. cbn.
  do 3 (apply elem_of_cons; right). apply elem_of_cons. by left.
Qed.

(** JobQueue_waitOnJobs returns by the owner's steps alone. *)
Lemma wait0_returns p0 q0 m0 cs0 s rest c :
  run jobsem NDEBUG cs0 (init 0 p0 q0 m0) = Some s ->
  status s = Running -> mainpc s = Ready -> prog s = OpWaitOnJobs :: rest ->
  jq_live s = true -> who c = Main -> rc c = 0 ->
  exists s',
    run jobsem NDEBUG (replicate 5 c) s = Some s' ∧
    status s' = Running ∧ mainpc s' = Ready ∧ prog s' = rest ∧
    hist s' = (Main, EvUnlock) :: (Main, EvLock) :: hist s.
Proof.
  intros Hr Hst Hpc Hprog Hlive Hc Hrc.
  destruct (Inv_run jobsem NDEBUG _ _ _ _ _ _ Hr) as [Hinv1 _]. inv1 Hinv1.
  pose proof (no_workers _ _ _ _ _ Hr) as Hws.
  assert (lock (q s) = None) as Hlock.
  { destruct (lock (q s)) as [[|i]|]; [| |done].
    - destruct i_lock_main as [_ Hm]. specialize (Hm eq_refl).
      by rewrite Hpc in Hm.
    - destruct (i_lock_range i eq_refl) as [pc Hi]. by rewrite Hws in Hi. }
  assert (uninit (mainpc s) = false) as Hun by (by rewrite Hpc).
  destruct (i_fields Hun) as [_ Hstop]. rewrite Hws in Hstop. cbn in Hstop.
  unfold main_fact in i_main. rewrite Hpc in i_main. destruct i_main as [Hn _].
  unfold jq_live in Hlive. cbn [replicate].
  erewrite run_cons.
  2:{ unfold step, step_main. rewrite Hst, Hc, Hpc, Hprog. reflexivity. }
  do 4 (erewrite run_cons;
    [|unfold step, step_main, jq_live, mutex_lock, mutex_unlock, ERR; cbn;
      rewrite ?Hst, ?Hc, ?Hrc, ?Hlive, ?Hlock, ?Hstop, ?Hn; cbn;
      rewrite ?(decide_True (P := Some Main = Some Main)) by done; cbn;
      reflexivity]).
  eexists. split; [reflexivity|]. cbn. done.
Qed.

End NoThreads.

(** * Main theorems *)

(** ** C1: every job runs exactly once *)

(** C1: with at least one worker thread, when the owner submits [jobs] with
    JobQueue_addJob, then calls JobQueue_waitOnJobs, then that call has
    returned: the job functions called so far are exactly the submitted jobs,
    each with its own argument and as often as it was submitted; each of these
    calls has returned; every worker has returned from threadfun, so no job
    is running; and the memory the owner reads is the initial memory with
    the writes of all these jobs applied. *)
Theorem jobs_run_exactly_once {Mem : Type} (jobsem : Z -> Z -> Mem -> Mem)
    (NDEBUG : bool) (n : Z) (jobs : list (Z * Z)) (rest : list Op) (q0 : JobQueue)
    (m0 : Mem) (cs : list Choice) (s : State Mem) :
  1 <= n ->
  run jobsem NDEBUG cs (init n (protocol jobs rest) q0 m0) = Some s ->
  returned rest s ->
  calls (hist s) ≡ₚ jobs ∧ returns (hist s) ≡ₚ jobs ∧
  all_exited (workers s) ∧
  mem s = effects jobsem (returns (hist s)) m0.
Proof.
  intros Hn Hrun Hret.
  destruct (Inv_protocol_run jobsem NDEBUG n jobs rest q0 m0 cs s Hn Hrun)
    as (HI1 & _ & HI4).
  inv1 HI1. inv4 HI4. destruct (p_after Hret) as (Hex & Hc & Hr). done.
Qed.

(** The unit test with one worker and two jobs: both squares are in memory
    when JobQueue_waitOnJobs has returned. *)
Lemma jobs_run_exactly_once_witness :
  exists s : State Test.Mem,
    run Test.jobfunc false Test.sched_test Test.test_init = Some s ∧
    (calls (hist s) ≡ₚ Test.jobs ∧ returns (hist s) ≡ₚ Test.jobs ∧
     all_exited (workers s) ∧
     mem s = effects Test.jobfunc (returns (hist s)) Test.m0) ∧
    mem s !! 101 = Some 9 ∧ mem s !! 201 = Some 16.
Proof.
  destruct (run Test.jobfunc false Test.sched_test Test.test_init)
    as [s|] eqn:E; [|vm_compute in E; discriminate E].
  exists s. split; [reflexivity|]. split.
  - apply (jobs_run_exactly_once Test.jobfunc false 1 Test.jobs [OpFree]
             Test.q0 Test.m0 Test.sched_test s); [lia|exact E|].
    vm_compute in E. injection E as <-. right. split; reflexivity.
  - vm_compute in E. injection E as <-. split; reflexivity.
Defined.

(** ** C2: allocation failures *)

(** The two allocations that are checked: when the malloc of the queue
    (jobqueue.c:87) or of a job (jobqueue.c:125) returns NULL, the checkmem
    that follows (lines 89 and 127) ends the process with EXIT_FAILURE. *)
Lemma JobQueue_new_queue_checked {Mem : Type} (jobsem : Z -> Z -> Mem -> Mem)
    (NDEBUG : bool) (s : State Mem) (n : Z) (c c' : Choice) :
  status s = Running -> mainpc s = New_87 n ->
  who c = Main -> ptr c = NULL -> who c' = Main ->
  exists s1 s2,
    step jobsem NDEBUG c s = Some s1 ∧ status s1 = Running ∧
    mainpc s1 = New_89 n ∧ jq s1 = NULL ∧
    step jobsem NDEBUG c' s1 = Some s2 ∧ status s2 = Exited EXIT_FAILURE.
Proof.
  intros Hst Hpc Hc Hp Hc'. unfold step, step_main, malloc.
  rewrite Hst, Hc, Hpc, Hp. cbn. do 2 eexists. split; [reflexivity|]. cbn.
  rewrite Hst, Hc'. cbn. done.
Qed.

Lemma JobQueue_addJob_job_checked {Mem : Type} (jobsem : Z -> Z -> Mem -> Mem)
    (NDEBUG : bool) (s : State Mem) (f x : Z) (c c' : Choice) :
  status s = Running -> mainpc s = Add_125 f x -> jq_live s = true -> jq s ≠ NULL ->
  who c = Main -> ptr c = NULL -> who c' = Main ->
  exists s1 s2,
    step jobsem NDEBUG c s = Some s1 ∧ status s1 = Running ∧
    mainpc s1 = Add_127 f x NULL ∧
    step jobsem NDEBUG c' s1 = Some s2 ∧ status s2 = Exited EXIT_FAILURE.
Proof.
  intros Hst Hpc Hlive Hjq Hc Hp Hc'. unfold step, step_main, malloc, assert_.
  rewrite Hst, Hc, Hpc, Hp, Hlive, (bool_decide_eq_true_2 _ Hjq), orb_true_r. cbn.
  do 2 eexists. split; [reflexivity|]. cbn. rewrite Hst, Hc'. cbn.
  unfold jq_live in *. cbn. rewrite Hlive. cbn. done.
Qed.

(** C2 (as the code behaves): the array of thread handles is allocated at
    jobqueue.c:108 and the result is stored in jq->thread without a check.
    When that malloc returns NULL, JobQueue_new(n) with 0 < n is not ended by
    checkmem: it goes on to the thread-creation loop with jq->thread = NULL,
    where the first pthread_create is handed &jq->thread[0], which lies in
    no allocated block, and the process runs into undefined behaviour. *)
Theorem JobQueue_new_thread_array_unchecked {Mem : Type}
    (jobsem : Z -> Z -> Mem -> Mem) (NDEBUG : bool) (s : State Mem) (n : Z)
    (c c' : Choice) :
  status s = Running -> mainpc s = New_107 n -> jq_live s = true ->
  heap s !! NULL = None -> 0 < n ->
  who c = Main -> ptr c = NULL -> who c' = Main ->
  exists s1 s2,
    step jobsem NDEBUG c s = Some s1 ∧ status s1 = Running ∧
    mainpc s1 = New_111 n 0 ∧ thread (q s1) = NULL ∧
    step jobsem NDEBUG c' s1 = Some s2 ∧ status s2 = Faulted.
Proof.
  intros Hst Hpc Hlive Hnull Hn Hc Hp Hc'. unfold step, step_main, malloc.
  rewrite Hst, Hc, Hpc, Hp, Hlive. cbn.
  do 2 eexists. split; [reflexivity|]. cbn. rewrite Hst, Hc'. cbn.
  unfold jq_live in *. cbn. rewrite Hlive, Hnull. cbn.
  rewrite decide_True by done. done.
Qed.

(** JobQueue_new(1) where the first malloc succeeds and the second one
    fails. *)
Lemma JobQueue_new_thread_array_unchecked_witness :
  exists s s1 s2 : State Test.Mem,
    run Test.jobfunc false (Test.Mp 10 :: replicate 5 Test.M)
      (init 1 [] Test.q0 Test.m0) = Some s ∧
    step Test.jobfunc false (Test.Mp NULL) s = Some s1 ∧ status s1 = Running ∧
    mainpc s1 = New_111 1 0 ∧ thread (q s1) = NULL ∧
    step Test.jobfunc false Test.M s1 = Some s2 ∧ status s2 = Faulted.
Proof.
  destruct (run Test.jobfunc false (Test.Mp 10 :: replicate 5 Test.M)
              (init 1 [] Test.q0 Test.m0)) as [s|] eqn:E;
    [|vm_compute in E; discriminate E].
  exists s.
  destruct (JobQueue_new_thread_array_unchecked Test.jobfunc false s 1
              (Test.Mp NULL) Test.M) as (s1 & s2 & H);
    [vm_compute in E; injection E as <-; reflexivity..|].
  exists s1, s2. split; [reflexivity|exact H].
Defined.

(** ** C3: a worker parks only when the queue is drained *)

(** C3: in every execution, for every step of it and every worker: (1) the
    worker leaves its dequeue loop only from the test of line 178 and only in
    a state where the pending list is empty and acceptingJobs is 0; (2) from
    there until its unlock of line 207 it holds the mutex and the list stays
    empty, so it never exits while the list is non-empty; (3) it increments
    threadsStopped only at line 199, by one, in such a state, and when that
    increment makes threadsStopped equal to nthreads (shutdown completes),
    the list is empty and every job linked so far has been called by a worker
    and has returned. *)
Theorem worker_parks_only_when_drained {Mem : Type} (jobsem : Z -> Z -> Mem -> Mem)
    (NDEBUG : bool) (n : Z) (p0 : list Op) (q0 : JobQueue) (m0 : Mem)
    (cs : list Choice) (s s' : State Mem) (c : Choice) (i : nat) (pc pc' : WorkerPC) :
  run jobsem NDEBUG cs (init n p0 q0 m0) = Some s ->
  step jobsem NDEBUG c s = Some s' ->
  workers s !! i = Some pc -> workers s' !! i = Some pc' ->
  (left_loop pc = false -> left_loop pc' = true ->
     pc = Thr_178 ∧ todo (q s) = NULL ∧ acceptingJobs (q s) = 0) ∧
  (quitting pc = true ->
     todo (q s) = NULL ∧ acceptingJobs (q s) = 0 ∧ lock (q s) = Some (Worker i)) ∧
  (parked pc = false -> parked pc' = true ->
     pc = Thr_199 ∧ threadsStopped (q s') = threadsStopped (q s) + 1 ∧
     todo (q s) = NULL ∧ acceptingJobs (q s) = 0 ∧
     (threadsStopped (q s') = nthreads (q s') ->
        todo (q s') = NULL ∧ links (hist s') ≡ₚ calls (hist s') ∧
        calls (hist s') ≡ₚ returns (hist s'))).
Proof.
  intros Hr Hs Hi Hi'. split_and!.
  - intros Hp Hp'.
    destruct (leave_loop jobsem NDEBUG _ _ _ _ _ _ _ _ _ _ _ Hr Hs Hi Hi' Hp Hp')
      as (? & _ & ? & ?). done.
  - intros Hq. by eapply quitting_state.
  - intros Hp Hp'.
    destruct (park_step jobsem NDEBUG _ _ _ _ _ _ _ _ _ _ _ Hr Hs Hi Hi' Hp Hp')
      as (-> & -> & Hlive & Hq & Hh & _).
    destruct (quitting_state jobsem NDEBUG _ _ _ _ _ _ _ _ Hr Hi eq_refl)
      as (Htodo & Hacc & _).
    rewrite Hq, Hh. cbn. split_and!; [done..|]. intros Hlast.
    by eapply last_worker_drained.
Qed.

(** The unit test with one worker, at the step where the worker counts
    itself: both jobs have run. *)
Lemma worker_parks_only_when_drained_witness :
  exists s s' : State Test.Mem,
    run Test.jobfunc false Test.sched_drain Test.test_init = Some s ∧
    step Test.jobfunc false (Test.W 0) s = Some s' ∧
    threadsStopped (q s') = 1 ∧ todo (q s') = NULL ∧
    links (hist s') ≡ₚ calls (hist s') ∧ calls (hist s') ≡ₚ returns (hist s').
Proof.
  destruct (run Test.jobfunc false Test.sched_drain Test.test_init)
    as [s|] eqn:E; [|vm_compute in E; discriminate E].
  destruct (step Test.jobfunc false (Test.W 0) s) as [s'|] eqn:E';
    [|vm_compute in E; injection E as <-; vm_compute in E'; discriminate E'].
  exists s, s'. split; [reflexivity|]. split; [exact E'|].
  destruct (worker_parks_only_when_drained Test.jobfunc false 1
              (protocol Test.jobs [OpFree]) Test.q0 Test.m0 Test.sched_drain
              s s' (Test.W 0) 0%nat Thr_199 Thr_201 E E') as (_ & _ & H).
  - vm_compute in E. injection E as <-. reflexivity.
  - vm_compute in E. injection E as <-. vm_compute in E'. injection E' as <-.
    reflexivity.
  - destruct (H eq_refl eq_refl) as (_ & Hst & _ & _ & Hd).
    assert (threadsStopped (q s') = 1 ∧ nthreads (q s') = 1) as [H1 H2].
    { vm_compute in E. injection E as <-. vm_compute in E'. injection E' as <-.
      split; reflexivity. }
    split; [exact H1|]. apply Hd. by rewrite H1, H2.
Defined.

(** ** C4: what JobQueue_waitOnJobs does *)

(** C4: for a thread count that is not negative and every state [s0] of an
    execution: (1) if the owner is about to call JobQueue_waitOnJobs in [s0]
    and the call has returned in a later state [s], then the library calls
    the owner made in between are a lock, then some number of turns
    "broadcast wakeWorker, wait on wakeMain", then an unlock; acceptingJobs
    is 0; threadsStopped equals nthreads; and every worker has returned;
    (2) at line 225 the owner holds the mutex and its step sets acceptingJobs
    to 0; (3) at the test of line 226 it holds the mutex and goes on to
    broadcast and wait exactly when threadsStopped < nthreads, and leaves the
    loop otherwise; (4) when it has left the loop, threadsStopped equals
    nthreads and every worker has returned. *)
Theorem waitOnJobs_effect {Mem : Type} (jobsem : Z -> Z -> Mem -> Mem)
    (NDEBUG : bool) (n : Z) (p0 : list Op) (q0 : JobQueue) (m0 : Mem)
    (cs0 : list Choice) (s0 : State Mem) :
  0 <= n ->
  run jobsem NDEBUG cs0 (init n p0 q0 m0) = Some s0 ->
  (forall rest cs s,
     mainpc s0 = Ready -> prog s0 = OpWaitOnJobs :: rest ->
     run jobsem NDEBUG cs s0 = Some s -> mainpc s = Ready -> prog s = rest ->
     (exists k new, hist s = new ++ hist s0 ∧
        events_of Main new = EvUnlock :: wait_rounds k ++ [EvLock]) ∧
     acceptingJobs (q s) = 0 ∧
     threadsStopped (q s) = nthreads (q s) ∧ all_exited (workers s)) ∧
  (forall c s1,
     who c = Main -> step jobsem NDEBUG c s0 = Some s1 -> status s1 = Running ->
     (mainpc s0 = Wait_225 ->
        lock (q s0) = Some Main ∧ acceptingJobs (q s1) = 0 ∧
        mainpc s1 = Wait_226) ∧
     (mainpc s0 = Wait_226 ->
        lock (q s0) = Some Main ∧
        mainpc s1 = if decide (threadsStopped (q s0) < nthreads (q s0))
                    then Wait_230 else Wait_241)) ∧
  (mainpc s0 = Wait_241 ->
     threadsStopped (q s0) = nthreads (q s0) ∧ all_exited (workers s0)).
Proof.
  intros Hn Hr. split_and!.
  - intros rest cs s Hpc0 Hprog0 Hrun Hpc Hprog.
    destruct (call_returned jobsem NDEBUG _ _ _ _ _ Hpc0 Hprog0 Hrun Hpc Hprog)
      as (new & Hh & (k & Hev) & Hacc).
    cbn in Hacc. specialize (Hacc ltac:(done) ltac:(done)).
    split; [by exists k, new|]. split; [done|].
    eapply (stopped_all jobsem NDEBUG); [exact Hn|by eapply run_app|..|done].
    + by rewrite Hpc.
    + left. by rewrite Hpc.
  - intros c s1 Hw Hs Hst. by eapply wait_steps.
  - intros Hpc.
    destruct (Inv_run jobsem NDEBUG _ _ _ _ _ _ Hr) as [Hinv1 _].
    split; [|by eapply drained_all_exited].
    pose proof (drained_all_exited jobsem _ _ _ _ Hinv1 Hpc) as Hex.
    inv1 Hinv1. unfold main_fact in i_main. rewrite Hpc in *. cbn in *.
    destruct (i_fields eq_refl) as [_ Hst].
    rewrite (all_exited_nparked _ Hex) in Hst. lia.
Qed.

(** The JobQueue_waitOnJobs of the unit test. *)
Lemma waitOnJobs_effect_witness :
  exists (s0 s : State Test.Mem),
    run Test.jobfunc false Test.sched_submit Test.test_init = Some s0 ∧
    run Test.jobfunc false Test.sched_serve s0 = Some s ∧
    (exists k new, hist s = new ++ hist s0 ∧
       events_of Main new = EvUnlock :: wait_rounds k ++ [EvLock]) ∧
    acceptingJobs (q s) = 0 ∧
    threadsStopped (q s) = nthreads (q s) ∧ all_exited (workers s).
Proof.
  destruct (run Test.jobfunc false Test.sched_submit Test.test_init)
    as [s0|] eqn:E; [|vm_compute in E; discriminate E].
  destruct (run Test.jobfunc false Test.sched_serve s0) as [s|] eqn:E';
    [|vm_compute in E; injection E as <-; vm_compute in E'; discriminate E'].
  exists s0, s. split; [reflexivity|]. split; [exact E'|].
  destruct (waitOnJobs_effect Test.jobfunc false 1 (protocol Test.jobs [OpFree])
              Test.q0 Test.m0 Test.sched_submit s0 ltac:(lia) E) as (H & _).
  apply (H [OpFree] Test.sched_serve s); [..|exact E'|idtac|idtac].
  - vm_compute in E. injection E as <-. reflexivity.
  - vm_compute in E. injection E as <-. reflexivity.
  - vm_compute in E. injection E as <-. vm_compute in E'. injection E' as <-.
    reflexivity.
  - vm_compute in E. injection E as <-. vm_compute in E'. injection E' as <-.
    reflexivity.
Defined.

(** ** C5: the pending list is a stack *)

(** C5: in every state [s] of an execution: (1) every dequeue made so far
    took the job that was on top when the links and dequeues before it are
    replayed on a stack; (2) the link of JobQueue_addJob (line 136) puts the
    new cell in front of the cells of the list; (3) the dequeue of a worker
    (line 187) takes the first cell of the list and leaves the others;
    (4) hence, if A and then B were linked and the next two dequeues came
    with no other link or dequeue in between, the first took B and the
    second took A. *)
Theorem pending_list_is_lifo {Mem : Type} (jobsem : Z -> Z -> Mem -> Mem)
    (NDEBUG : bool) (n : Z) (p0 : list Op) (q0 : JobQueue) (m0 : Mem)
    (cs : list Choice) (s : State Mem) :
  run jobsem NDEBUG cs (init n p0 q0 m0) = Some s ->
  lifo (hist s) ∧
  (forall f x job c s',
     mainpc s = Add_136 f x job -> who c = Main ->
     step jobsem NDEBUG c s = Some s' -> status s' = Running ->
     exists l, chain (heap s) (todo (q s)) l ∧
       chain (heap s') (todo (q s')) ((job, (f, x)) :: l) ∧
       hist s' = (Main, EvLink f x) :: hist s) ∧
  (forall i c s',
     workers s !! i = Some Thr_187 -> who c = Worker i ->
     step jobsem NDEBUG c s = Some s' -> status s' = Running ->
     exists a f x l,
       chain (heap s) (todo (q s)) ((a, (f, x)) :: l) ∧
       chain (heap s') (todo (q s')) l ∧
       workers s' !! i = Some (Thr_190 a) ∧
       hist s' = (Worker i, EvUnlink f x) :: hist s) ∧
  (forall h4 h3 h2 h1 t t' f x f' x' fA xA fB xB,
     hist s = (t', EvUnlink f' x') :: h4 ++ (t, EvUnlink f x) :: h3 ++
              (Main, EvLink fB xB) :: h2 ++ (Main, EvLink fA xA) :: h1 ->
     links h4 = [] -> unlinks h4 = [] -> links h3 = [] -> unlinks h3 = [] ->
     links h2 = [] -> unlinks h2 = [] ->
     (f, x) = (fB, xB) ∧ (f', x') = (fA, xA)).
Proof.
  intros Hr.
  destruct (Inv_run jobsem NDEBUG _ _ _ _ _ _ Hr) as [_ Hinv2]. inv2 Hinv2.
  split_and!.
  - done.
  - intros f x job c s' Hpc Hw Hs Hst. by eapply addJob_link.
  - intros i c s' Hi Hw Hs Hst. by eapply dequeue_head.
  - intros h4 h3 h2 h1 t t' f x f' x' fA xA fB xB Hh.
    rewrite Hh in h_lifo. by eapply lifo_last_first.
Qed.

(** The unit test: (1, 100) is submitted before (1, 200), and the worker
    takes (1, 200) first. *)
Lemma pending_list_is_lifo_witness :
  exists s : State Test.Mem,
    run Test.jobfunc false Test.sched_test Test.test_init = Some s ∧
    lifo (hist s) ∧ links (hist s) = [(1, 200); (1, 100)] ∧
    unlinks (hist s) = [(1, 100); (1, 200)].
Proof.
  destruct (run Test.jobfunc false Test.sched_test Test.test_init)
    as [s|] eqn:E; [|vm_compute in E; discriminate E].
  exists s. split; [reflexivity|]. split.
  - apply (pending_list_is_lifo Test.jobfunc false 1 (protocol Test.jobs [OpFree])
             Test.q0 Test.m0 Test.sched_test s E).
  - vm_compute in E. injection E as <-. split; reflexivity.
Defined.

(** ** C6: shutdown is one-shot *)

(** C6: in every state [s] of an execution: (1) a step changes
    acceptingJobs only if it is the owner's assignment of 1 at line 92, in
    JobQueue_new, or the owner's assignment of 0 at line 225, in
    JobQueue_waitOnJobs; (2) once the queue is initialised the flag is 0 or
    1; (3) once the flag of the initialised queue is 0, it is 0 in every later
    state. *)
Theorem shutdown_is_one_shot {Mem : Type} (jobsem : Z -> Z -> Mem -> Mem)
    (NDEBUG : bool) (n : Z) (p0 : list Op) (q0 : JobQueue) (m0 : Mem)
    (cs : list Choice) (s : State Mem) :
  run jobsem NDEBUG cs (init n p0 q0 m0) = Some s ->
  (forall c s',
     step jobsem NDEBUG c s = Some s' ->
     acceptingJobs (q s') ≠ acceptingJobs (q s) ->
     who c = Main ∧
     (((exists n', mainpc s = New_91 n') ∧ acceptingJobs (q s') = 1) ∨
      (mainpc s = Wait_225 ∧ acceptingJobs (q s') = 0))) ∧
  (uninit (mainpc s) = false ->
     acceptingJobs (q s) = 0 ∨ acceptingJobs (q s) = 1) ∧
  (uninit (mainpc s) = false -> acceptingJobs (q s) = 0 ->
     forall cs' s', run jobsem NDEBUG cs' s = Some s' ->
       uninit (mainpc s') = false ∧ acceptingJobs (q s') = 0).
Proof.
  intros Hr. split_and!.
  - intros c s' Hs Hne. by eapply accepting_writes.
  - intros Hun.
    destruct (Inv_run jobsem NDEBUG _ _ _ _ _ _ Hr) as [Hinv1 _]. inv1 Hinv1.
    by destruct (i_fields Hun).
  - intros Hun Hacc cs' s' Hr'. by eapply shutdown_run.
Qed.

(** The unit test: the flag is 0 when JobQueue_waitOnJobs has returned, and
    still 0 after JobQueue_free. *)
Lemma shutdown_is_one_shot_witness :
  exists s s' : State Test.Mem,
    run Test.jobfunc false Test.sched_test Test.test_init = Some s ∧
    run Test.jobfunc false Test.sched_free s = Some s' ∧
    acceptingJobs (q s) = 0 ∧ acceptingJobs (q s') = 0.
Proof.
  destruct (run Test.jobfunc false Test.sched_test Test.test_init)
    as [s|] eqn:E; [|vm_compute in E; discriminate E].
  destruct (run Test.jobfunc false Test.sched_free s) as [s'|] eqn:E';
    [|vm_compute in E; injection E as <-; vm_compute in E'; discriminate E'].
  exists s, s'. split; [reflexivity|]. split; [exact E'|].
  assert (uninit (mainpc s) = false ∧ acceptingJobs (q s) = 0) as [Hun Hacc].
  { vm_compute in E. injection E as <-. split; reflexivity. }
  split; [exact Hacc|].
  destruct (shutdown_is_one_shot Test.jobfunc false 1 (protocol Test.jobs [OpFree])
              Test.q0 Test.m0 Test.sched_test s E) as (_ & _ & H).
  exact (proj2 (H Hun Hacc Test.sched_free s' E')).
Defined.

(** ** C7: threadsStopped only grows, up to nthreads *)

(** C7: for a thread count [n] that is not negative, in every state [s] of
    an execution in which lines 91-93 have run: (1) threadsStopped is the
    number of workers that have passed line 199, it lies between 0 and [n],
    and [n] is the value of nthreads once line 107 has run; it is 0 right
    after line 93; (2) a step leaves threadsStopped as it is or adds one to
    it, and it adds one only as the step of a worker from line 199 to line
    201; (3) a worker that has passed line 199 stays past it, so it
    increments at most once. *)
Theorem threadsStopped_monotone_bounded {Mem : Type}
    (jobsem : Z -> Z -> Mem -> Mem) (NDEBUG : bool) (n : Z) (p0 : list Op)
    (q0 : JobQueue) (m0 : Mem) (cs : list Choice) (s : State Mem) :
  0 <= n ->
  run jobsem NDEBUG cs (init n p0 q0 m0) = Some s ->
  uninit (mainpc s) = false ->
  (threadsStopped (q s) = nparked (workers s) ∧
   0 <= threadsStopped (q s) <= n ∧
   (before_107 (mainpc s) = false -> nthreads (q s) = n) ∧
   (forall n', mainpc s = New_95 n' -> threadsStopped (q s) = 0)) ∧
  (forall c s',
     step jobsem NDEBUG c s = Some s' ->
     threadsStopped (q s') = threadsStopped (q s) ∨
     (threadsStopped (q s') = threadsStopped (q s) + 1 ∧
      exists i, who c = Worker i ∧ workers s !! i = Some Thr_199 ∧
                workers s' !! i = Some Thr_201)) ∧
  (forall c s' i pc pc',
     step jobsem NDEBUG c s = Some s' ->
     workers s !! i = Some pc -> workers s' !! i = Some pc' ->
     parked pc = true -> parked pc' = true).
Proof.
  intros Hn Hr Hun.
  destruct (Inv_run jobsem NDEBUG _ _ _ _ _ _ Hr) as [Hinv1 _]. inv1 Hinv1.
  destruct (i_fields Hun) as [_ Hst].
  pose proof (nparked_bound (workers s)) as Hb.
  assert (Z.of_nat (length (workers s)) <= n) as Hlen.
  { unfold main_fact in i_main.
    destruct (mainpc s); try done; destruct i_main as [? Hw];
      try (rewrite Hw; cbn; lia); lia. }
  split_and!.
  - done.
  - lia.
  - lia.
  - intros Hb7. unfold main_fact in i_main.
    destruct (mainpc s); cbn in *; try done; tauto.
  - intros n' Hpc. unfold main_fact in i_main. rewrite Hpc in i_main.
    destruct i_main as [_ Hw]. by rewrite Hst, Hw.
  - intros c s' Hs. by destruct (stopped_step jobsem NDEBUG _ _ _ Hun Hs).
  - intros c s' i pc pc' Hs.
    destruct (stopped_step jobsem NDEBUG _ _ _ Hun Hs) as [_ H]. apply H.
Qed.

(** The unit test with one worker, when the worker is about to count
    itself. *)
Lemma threadsStopped_monotone_bounded_witness :
  exists s : State Test.Mem,
    run Test.jobfunc false Test.sched_drain Test.test_init = Some s ∧
    threadsStopped (q s) = nparked (workers s) ∧
    0 <= threadsStopped (q s) <= 1.
Proof.
  destruct (run Test.jobfunc false Test.sched_drain Test.test_init)
    as [s|] eqn:E; [|vm_compute in E; discriminate E].
  exists s. split; [reflexivity|].
  destruct (threadsStopped_monotone_bounded Test.jobfunc false 1
              (protocol Test.jobs [OpFree]) Test.q0 Test.m0 Test.sched_drain s)
    as ((H1 & H2 & _) & _).
  - lia.
  - exact E.
  - vm_compute in E. injection E as <-. reflexivity.
  - split; [exact H1|exact H2].
Defined.

(** ** C8: what JobQueue_addJob does, and what it leaves alone *)

(** C8: for every state [s0] of an execution: (1) if the owner is about to
    call JobQueue_addJob(jq, f, x) in [s0] and the call has returned in a
    later state [s], then the library calls the owner made in between are
    exactly one malloc (of the job cell, not NULL), one lock, the link of
    (f, x), one signal of wakeWorker and one unlock, in this order -- no
    broadcast and no wait on any condition variable; (2) a step of the owner
    inside JobQueue_addJob leaves acceptingJobs, threadsStopped and nthreads
    unchanged and is not a pthread_cond_wait; (3) at the link of line 136 the
    owner holds the mutex, and the step puts the new cell in front of the
    cells of the list; (4) when the mutex is free and malloc succeeds, the
    owner completes the call by its own steps alone, whatever the workers are
    doing. *)
Theorem addJob_effect {Mem : Type} (jobsem : Z -> Z -> Mem -> Mem) (NDEBUG : bool)
    (n : Z) (p0 : list Op) (q0 : JobQueue) (m0 : Mem) (cs0 : list Choice)
    (s0 : State Mem) :
  run jobsem NDEBUG cs0 (init n p0 q0 m0) = Some s0 ->
  (forall f x rest cs s,
     mainpc s0 = Ready -> prog s0 = OpAddJob f x :: rest ->
     run jobsem NDEBUG cs s0 = Some s -> mainpc s = Ready -> prog s = rest ->
     exists job new, job ≠ NULL ∧ hist s = new ++ hist s0 ∧
       events_of Main new =
         [EvUnlock; EvSignal wakeWorker; EvLink f x; EvLock; EvMalloc job]) ∧
  (forall c s1,
     in_add (mainpc s0) = true -> who c = Main ->
     step jobsem NDEBUG c s0 = Some s1 ->
     acceptingJobs (q s1) = acceptingJobs (q s0) ∧
     threadsStopped (q s1) = threadsStopped (q s0) ∧
     nthreads (q s1) = nthreads (q s0) ∧
     forall cv, hist s1 ≠ (Main, EvWait cv) :: hist s0) ∧
  (forall f x job,
     mainpc s0 = Add_136 f x job ->
     lock (q s0) = Some Main ∧
     forall c s1,
       who c = Main -> step jobsem NDEBUG c s0 = Some s1 -> status s1 = Running ->
       exists l, chain (heap s0) (todo (q s0)) l ∧
         chain (heap s1) (todo (q s1)) ((job, (f, x)) :: l) ∧
         hist s1 = (Main, EvLink f x) :: hist s0) ∧
  (forall f x rest a c c',
     status s0 = Running -> mainpc s0 = Ready -> prog s0 = OpAddJob f x :: rest ->
     jq_live s0 = true -> lock (q s0) = None -> a ≠ NULL -> heap s0 !! a = None ->
     who c = Main -> rc c = 0 -> who c' = Main -> rc c' = 0 -> ptr c' = a ->
     exists s,
       run jobsem NDEBUG (c :: c' :: replicate 6 c) s0 = Some s ∧
       status s = Running ∧ mainpc s = Ready ∧ prog s = rest).
Proof.
  intros Hr. split_and!.
  - intros f x rest cs s Hpc0 Hprog0 Hrun Hpc Hprog.
    destruct (call_returned jobsem NDEBUG _ _ _ _ _ Hpc0 Hprog0 Hrun Hpc Hprog)
      as (new & Hh & (job & Hj & Hev) & _).
    by exists job, new.
  - intros c s1 Hin Hw Hs. by eapply addJob_frame.
  - intros f x job Hpc. split.
    + destruct (Inv_run jobsem NDEBUG _ _ _ _ _ _ Hr) as [Hinv1 _]. inv1 Hinv1.
      apply i_lock_main. by rewrite Hpc.
    + intros c s1 Hw Hs Hst. by eapply addJob_link.
  - intros f x rest a c c' Hst Hpc Hprog Hlive Hlock Ha Hfresh Hc Hrc Hc' Hrc' Hptr.
    by eapply addJob_returns.
Qed.

(** The first JobQueue_addJob of the unit test. *)
Lemma addJob_effect_witness :
  exists (s0 s : State Test.Mem) job new,
    run Test.jobfunc false (Test.sched_new 1) Test.test_init = Some s0 ∧
    run Test.jobfunc false (Test.sched_add 30) s0 = Some s ∧
    job ≠ NULL ∧ hist s = new ++ hist s0 ∧
    events_of Main new =
      [EvUnlock; EvSignal wakeWorker; EvLink 1 100; EvLock; EvMalloc job].
Proof.
  destruct (run Test.jobfunc false (Test.sched_new 1) Test.test_init)
    as [s0|] eqn:E; [|vm_compute in E; discriminate E].
  destruct (run Test.jobfunc false (Test.sched_add 30) s0) as [s|] eqn:E';
    [|vm_compute in E; injection E as <-; vm_compute in E'; discriminate E'].
  destruct (addJob_effect Test.jobfunc false 1 (protocol Test.jobs [OpFree])
              Test.q0 Test.m0 (Test.sched_new 1) s0 E) as (H & _).
  destruct (H 1 100 [OpAddJob 1 200; OpWaitOnJobs; OpFree] (Test.sched_add 30) s)
    as (job & new & Hj & Hh & Hev).
  - vm_compute in E. injection E as <-. reflexivity.
  - vm_compute in E. injection E as <-. reflexivity.
  - exact E'.
  - vm_compute in E. injection E as <-. vm_compute in E'. injection E' as <-.
    reflexivity.
  - vm_compute in E. injection E as <-. vm_compute in E'. injection E' as <-.
    reflexivity.
  - exists s0, s, job, new. split; [reflexivity|]. done.
Defined.

(** ** C9: JobQueue_free frees the list, the array and the queue *)

(** C9: (1) on every heap and every list of job cells that ends in NULL
    (so finite and without a cycle), Job_free terminates -- a recursion depth
    of one more than the length of the list is enough, and more does not
    change the result --, and the heap it returns is the heap it was given
    without the cells of the list: every cell of the list is freed and no
    other block is touched; (2) on the empty list it returns the heap as it
    is; (3) in every state of an execution in which the owner is at line 271
    of JobQueue_free, what is reachable from jq->todo is such a list, and the
    three steps of lines 271-273 succeed and leave the heap without the cells
    of the list, without the array jq->thread and without the queue. *)
Theorem JobQueue_free_frees_all {Mem : Type} (jobsem : Z -> Z -> Mem -> Mem)
    (NDEBUG : bool) (n : Z) (p0 : list Op) (q0 : JobQueue) (m0 : Mem)
    (cs : list Choice) (s : State Mem) :
  run jobsem NDEBUG cs (init n p0 q0 m0) = Some s ->
  (forall (h : gmap Z Block) p l,
     chain h p l ->
     Job_free (S (length l)) h p = Done (free_all l.*1 h) ∧
     (forall fuel, (length l < fuel)%nat ->
        Job_free fuel h p = Done (free_all l.*1 h)) ∧
     (forall a, a ∈ l.*1 -> free_all l.*1 h !! a = None) ∧
     (forall a, a ∉ l.*1 -> free_all l.*1 h !! a = h !! a)) ∧
  (forall (h : gmap Z Block) fuel, Job_free (S fuel) h NULL = Done h) ∧
  (status s = Running -> mainpc s = Free_271 -> jq_live s = true ->
   forall c1 c2 c3, who c1 = Main -> who c2 = Main -> who c3 = Main ->
     exists l s',
       chain (heap s) (todo (q s)) l ∧
       run jobsem NDEBUG [c1; c2; c3] s = Some s' ∧
       status s' = Running ∧ mainpc s' = Ready ∧
       heap s' = delete (jq s) (delete (thread (q s)) (free_all l.*1 (heap s))) ∧
       (forall a, a ∈ l.*1 -> heap s' !! a = None) ∧
       heap s' !! thread (q s) = None ∧ heap s' !! jq s = None).
Proof.
  intros Hr. split_and!.
  - intros h p l Hc. split_and!.
    + apply Job_free_chain; [done|lia].
    + intros fuel Hf. by apply Job_free_chain.
    + intros a Ha. by rewrite free_all_lookup, decide_True.
    + intros a Ha. by rewrite free_all_lookup, decide_False.
  - intros h fuel. by rewrite Job_free_S.
  - intros Hst Hpc Hlive c1 c2 c3 H1 H2 H3.
    destruct (free_steps jobsem NDEBUG _ _ _ _ _ _ c1 c2 c3 Hr Hst Hpc Hlive H1 H2 H3)
      as (l & s' & Hc & Hrun & Hst' & Hpc' & Hh).
    exists l, s'. split_and!; try done.
    + intros a Ha. rewrite Hh.
      destruct (decide (a = jq s)) as [->|?]; [by rewrite lookup_delete_eq|].
      rewrite lookup_delete_ne by done.
      destruct (decide (a = thread (q s))) as [->|?]; [by rewrite lookup_delete_eq|].
      rewrite lookup_delete_ne by done. by rewrite free_all_lookup, decide_True.
    + rewrite Hh.
      destruct (decide (thread (q s) = jq s)) as [->|?]; [by rewrite lookup_delete_eq|].
      rewrite lookup_delete_ne by done. by rewrite lookup_delete_eq.
    + rewrite Hh. by rewrite lookup_delete_eq.
Qed.

(** JobQueue_free with two jobs left in the list: nothing stays
    allocated. *)
Lemma JobQueue_free_frees_all_witness :
  exists s s' : State Test.Mem,
    run Test.jobfunc false Test.sched_leftover Test.leftover_init = Some s ∧
    size (heap s) = 4%nat ∧
    run Test.jobfunc false (replicate 3 Test.M) s = Some s' ∧
    status s' = Running ∧ mainpc s' = Ready ∧ heap s' = ∅.
Proof.
  destruct (run Test.jobfunc false Test.sched_leftover Test.leftover_init)
    as [s|] eqn:E; [|vm_compute in E; discriminate E].
  exists s.
  destruct (JobQueue_free_frees_all Test.jobfunc false 1
              [OpAddJob 1 100; OpAddJob 1 200; OpFree] Test.q0 Test.m0
              Test.sched_leftover s E) as (_ & _ & H).
  destruct (H ltac:(vm_compute in E; injection E as <-; reflexivity)
              ltac:(vm_compute in E; injection E as <-; reflexivity)
              ltac:(vm_compute in E; injection E as <-; reflexivity)
              Test.M Test.M Test.M eq_refl eq_refl eq_refl)
    as (l & s' & _ & Hrun & Hst & Hpc & _).
  exists s'. split; [reflexivity|].
  split; [vm_compute in E; injection E as <-; reflexivity|].
  split; [exact Hrun|]. split; [exact Hst|]. split; [exact Hpc|].
  vm_compute in E. injection E as <-. vm_compute in Hrun. injection Hrun as <-.
  reflexivity.
Defined.

(** ** C10: a queue without threads *)

(** C10: for JobQueue_new(0): (1) in every state of an execution there is
    no worker thread; (2) JobQueue_new returns, whether the malloc of the
    (empty) array gives NULL or a block: the queue is allocated and
    initialised with nthreads = 0 and threadsStopped = 0, the only library
    calls were the two mallocs, and no thread was created; (3) a call of
    JobQueue_waitOnJobs that has returned has made exactly a lock and an
    unlock: no broadcast and no wait; (4) that call does return, by five steps
    of the owner alone; (5) the test of line 226 fails the first time it is
    made, so the loop body is never entered. *)
Theorem no_threads_no_wait {Mem : Type} (jobsem : Z -> Z -> Mem -> Mem)
    (NDEBUG : bool) (p0 : list Op) (q0 : JobQueue) (m0 : Mem)
    (cs0 : list Choice) (s0 : State Mem) :
  run jobsem NDEBUG cs0 (init 0 p0 q0 m0) = Some s0 ->
  workers s0 = [] ∧
  (forall a t c ca ct,
     a ≠ NULL -> t ≠ a -> who c = Main -> rc c = 0 ->
     who ca = Main -> ptr ca = a -> who ct = Main -> ptr ct = t ->
     exists s,
       run jobsem NDEBUG (ca :: replicate 5 c ++ [ct; c]) (init 0 p0 q0 m0) = Some s ∧
       status s = Running ∧ mainpc s = Ready ∧ prog s = p0 ∧
       jq s = a ∧ jq_live s = true ∧ workers s = [] ∧
       q s = mkJobQueue NULL 1 0 0 t None ∧
       events_of Main (hist s) = [EvMalloc t; EvMalloc a]) ∧
  (forall rest cs s,
     mainpc s0 = Ready -> prog s0 = OpWaitOnJobs :: rest ->
     run jobsem NDEBUG cs s0 = Some s -> mainpc s = Ready -> prog s = rest ->
     exists new, hist s = new ++ hist s0 ∧
       events_of Main new = [EvUnlock; EvLock]) ∧
  (forall rest c,
     status s0 = Running -> mainpc s0 = Ready -> prog s0 = OpWaitOnJobs :: rest ->
     jq_live s0 = true -> who c = Main -> rc c = 0 ->
     exists s,
       run jobsem NDEBUG (replicate 5 c) s0 = Some s ∧
       status s = Running ∧ mainpc s = Ready ∧ prog s = rest ∧
       hist s = (Main, EvUnlock) :: (Main, EvLock) :: hist s0) ∧
  (forall c s1,
     mainpc s0 = Wait_226 -> who c = Main ->
     step jobsem NDEBUG c s0 = Some s1 -> status s1 = Running ->
     ¬ threadsStopped (q s0) < nthreads (q s0) ∧ mainpc s1 = Wait_241).
Proof.
  intros Hr. pose proof (no_workers jobsem NDEBUG _ _ _ _ _ Hr) as Hws.
  split_and!.
  - done.
  - intros a t c ca ct Ha Hta Hc Hrc Hca Hpa Hct Hpt. by eapply new0_returns.
  - intros rest cs s Hpc0 Hprog0 Hrun Hpc Hprog. by eapply wait0_trace.
  - intros rest c Hst Hpc Hprog Hlive Hc Hrc. by eapply wait0_returns.
  - intros c s1 Hpc Hc Hs Hst.
    destruct (wait_steps jobsem NDEBUG _ _ _ _ _ _ _ _ Hr Hc Hs Hst) as [_ H].
    destruct (H Hpc) as [_ Hpc1].
    destruct (Inv_run jobsem NDEBUG _ _ _ _ _ _ Hr) as [Hinv1 _]. inv1 Hinv1.
    unfold main_fact in i_main. rewrite Hpc in *. cbn in *.
    destruct i_main as [Hn _]. destruct (i_fields eq_refl) as [_ Hstop].
    pose proof (nparked_bound (workers s0)) as Hb.
    assert (¬ threadsStopped (q s0) < nthreads (q s0)) as Hlt by lia.
    split; [done|]. by rewrite decide_False in Hpc1.
Qed.

(** JobQueue_new(0) followed by JobQueue_waitOnJobs, the owner alone. *)
Lemma no_threads_no_wait_witness :
  exists s0 s : State Test.Mem,
    run Test.jobfunc false (Test.sched_new 0) Test.zero_init = Some s0 ∧
    workers s0 = [] ∧
    run Test.jobfunc false (replicate 5 Test.M) s0 = Some s ∧
    status s = Running ∧ mainpc s = Ready ∧ prog s = [OpFree] ∧
    hist s = (Main, EvUnlock) :: (Main, EvLock) :: hist s0.
Proof.
  destruct (run Test.jobfunc false (Test.sched_new 0) Test.zero_init)
    as [s0|] eqn:E; [|vm_compute in E; discriminate E].
  exists s0.
  destruct (no_threads_no_wait Test.jobfunc false [OpWaitOnJobs; OpFree]
              Test.q0 Test.m0 (Test.sched_new 0) s0 E) as (Hws & _ & _ & H & _).
  destruct (H [OpFree] Test.M) as (s & Hs);
    [vm_compute in E; injection E as <-; reflexivity..|].
  exists s. split; [reflexivity|]. split; [exact Hws|exact Hs].
Defined.

(** * Further properties *)

(** ** misc.c: searching a sorted array *)

Section Search.

Import Misc.

Ltac long_lia :=
  unfold LONG_MIN, LONG_MAX in *;
  change (2 ^ 63) with 9223372036854775808 in *; lia.

Lemma long_in z : LONG_MIN <= z <= LONG_MAX -> long z = Ret z.
Proof. intros H. unfold long. by rewrite decide_True. Qed.

Lemma rd_Some v i x : 0 <= i -> v !! Z.to_nat i = Some x -> rd v i = Ret x.
Proof. intros Hi Hx. unfold rd. by rewrite decide_True, Hx. Qed.

Lemma rd_inv v i x : rd v i = Ret x -> 0 <= i ∧ v !! Z.to_nat i = Some x.
Proof.
  unfold rd. destruct (decide (0 <= i)); [|done].
  destruct (v !! Z.to_nat i) eqn:E; [|done]. by intros [= ->].
Qed.

Lemma lookup_Z (v : list Z) i :
  0 <= i < Z.of_nat (length v) -> exists x, v !! Z.to_nat i = Some x.
Proof.
  intros Hi. destruct (lookup_lt_is_Some_2 v (Z.to_nat i)) as [x Hx]; [lia|eauto].
Qed.

(** What the loop of long_first_geq keeps: v[hi] >= val, and v[lo] < val
    unless lo is still 0. *)
Lemma first_geq_loop_spec fuel val v lo hi :
  0 <= lo <= hi -> hi < Z.of_nat (length v) -> Z.of_nat (length v) <= LONG_MAX ->
  hi - lo < Z.of_nat fuel ->
  (lo = 0 ∨ exists x, v !! Z.to_nat lo = Some x ∧ x < val) ->
  (exists y, v !! Z.to_nat hi = Some y ∧ y >= val) ->
  exists lo' hi',
    first_geq_loop fuel val v lo hi = Ret (lo', hi') ∧
    0 <= lo' <= hi' ∧ hi' < Z.of_nat (length v) ∧ hi' - lo' <= 1 ∧
    (lo' = 0 ∨ exists x, v !! Z.to_nat lo' = Some x ∧ x < val) ∧
    (exists y, v !! Z.to_nat hi' = Some y ∧ y >= val).
Proof.
  revert lo hi. induction fuel as [|k IH]; intros lo hi Hlo Hhi Hmax Hfuel Pl Ph.
  { lia. }
  change (first_geq_loop (S k) val v lo hi) with
    (if decide (lo < hi) then
       d ← long (hi - lo);
       mid ← long (lo + Z.quot d 2);
       if decide (mid = lo) then Ret (lo, hi)
       else x ← rd v mid;
            if decide (x < val) then first_geq_loop k val v mid hi
            else first_geq_loop k val v lo mid
     else Ret (lo, hi)).
  destruct (decide (lo < hi)) as [Hlt|Hge].
  2:{ exists lo, hi. split; [done|]. split_and!; try done; lia. }
  rewrite long_in by long_lia. cbn.
  assert (0 <= Z.quot (hi - lo) 2 <= hi - lo) as Hq.
  { split; [apply Z.quot_pos; lia|]. apply Z.quot_le_upper_bound; lia. }
  rewrite long_in by long_lia. cbn.
  destruct (decide (lo + Z.quot (hi - lo) 2 = lo)) as [Hmid|Hmid].
  { exists lo, hi. split; [done|]. split_and!; try done; try lia.
    assert (Z.quot (hi - lo) 2 = 0) as H0 by lia.
    apply Z.quot_small_iff in H0; [|lia]. lia. }
  assert (Z.quot (hi - lo) 2 < hi - lo) as Hq2.
  { apply Z.quot_lt; lia. }
  remember (lo + Z.quot (hi - lo) 2) as mid eqn:Emid.
  destruct (lookup_Z v mid) as [x Hx]; [long_lia|].
  rewrite (rd_Some v mid x) by (done || lia). cbn.
  destruct (decide (x < val)).
  - apply IH; try lia; eauto.
  - apply IH; try lia; eauto.
Qed.

(** On any non-empty array the call returns: no assertion fails, no element
    outside the array is read. *)
Lemma long_first_geq_returns NDEBUG val v :
  v ≠ [] -> Z.of_nat (length v) <= LONG_MAX ->
  exists r,
    long_first_geq NDEBUG val v (Z.of_nat (length v)) = Ret r ∧
    ((r = Z.of_nat (length v) ∧ exists y, last v = Some y ∧ y < val) ∨
     (0 <= r < Z.of_nat (length v) ∧
      (exists y, v !! Z.to_nat r = Some y ∧ y >= val) ∧
      (r = 0 ∨ exists x, v !! Z.to_nat (r - 1) = Some x ∧ x < val))).
Proof.
  intros Hne Hmax. set (len := Z.of_nat (length v)).
  assert (0 < len) as Hlen by (destruct v; [done|cbn in *; lia]).
  unfold long_first_geq.
  assert (myassert NDEBUG (Ret (bool_decide (len > 0))) = Ret ()) as ->.
  { unfold myassert. destruct NDEBUG; [done|]. cbn.
    by rewrite bool_decide_eq_true_2 by lia. }
  cbn. rewrite long_in by long_lia. cbn.
  destruct (lookup_Z v (len - 1)) as [vh Hvh]; [lia|].
  rewrite (rd_Some v (len - 1) vh) by (done || lia). cbn.
  destruct (decide (val > vh)) as [Hgt|Hle].
  { exists len. split; [done|]. left. split; [done|]. exists vh. split; [|lia].
    rewrite last_lookup. rewrite <- Hvh. f_equal. lia. }
  destruct (first_geq_loop_spec (S (Z.to_nat len)) val v 0 (len - 1))
    as (lo & hi & -> & Hlh & Hhi & Hd & Pl & (y & Hy & Hyv)); try lia; eauto.
  { exists vh. split; [done|lia]. }
  cbn. destruct (lookup_Z v lo) as [vl Hvl]; [lia|].
  rewrite (rd_Some v lo vl) by (done || lia). cbn.
  destruct (decide (vl >= val)) as [Hvlge|Hvllt].
  - assert (lo = 0) as ->.
    { destruct Pl as [?|(x & Hx & ?)]; [done|]. rewrite Hvl in Hx. simplify_eq; lia. }
    exists 0. split.
    + unfold myassert. destruct NDEBUG; [done|]. cbn.
      rewrite !bool_decide_eq_true_2 by lia. cbn.
      rewrite (rd_Some v 0 vl) by (done || lia). cbn.
      by rewrite bool_decide_eq_true_2 by lia.
    + right. split; [lia|]. split; [|by left]. eauto.
  - assert (hi = lo + 1) as ->.
    { destruct (decide (hi = lo)) as [->|?]; [|lia].
      rewrite Hvl in Hy. simplify_eq; lia. }
    exists (lo + 1). split.
    + unfold myassert. destruct NDEBUG; [done|]. cbn.
      rewrite !bool_decide_eq_true_2 by lia. cbn.
      rewrite (rd_Some v (lo + 1) y) by (done || lia). cbn.
      rewrite bool_decide_eq_true_2 by lia. cbn.
      rewrite decide_False by lia. rewrite long_in by long_lia. cbn.
      replace (lo + 1 - 1) with lo by lia.
      rewrite (rd_Some v lo vl) by (done || lia). cbn.
      by rewrite bool_decide_eq_true_2 by lia.
    + right. split; [lia|]. split; [eauto|]. right.
      replace (lo + 1 - 1) with lo by lia. exists vl. split; [done|lia].
Qed.

Lemma last_leq_loop_spec fuel val v lo hi :
  0 <= lo <= hi -> hi < Z.of_nat (length v) -> Z.of_nat (length v) <= LONG_MAX ->
  hi - lo < Z.of_nat fuel ->
  (exists x, v !! Z.to_nat lo = Some x ∧ x <= val) ->
  (hi = Z.of_nat (length v) - 1 ∨ exists y, v !! Z.to_nat hi = Some y ∧ y > val) ->
  exists lo' hi',
    last_leq_loop fuel val v lo hi = Ret (lo', hi') ∧
    0 <= lo' <= hi' ∧ hi' < Z.of_nat (length v) ∧ hi' - lo' <= 1 ∧
    (exists x, v !! Z.to_nat lo' = Some x ∧ x <= val) ∧
    (hi' = Z.of_nat (length v) - 1 ∨ exists y, v !! Z.to_nat hi' = Some y ∧ y > val).
Proof.
  revert lo hi. induction fuel as [|k IH]; intros lo hi Hlo Hhi Hmax Hfuel Pl Ph.
  { lia. }
  change (last_leq_loop (S k) val v lo hi) with
    (if decide (lo < hi) then
       d ← long (hi - lo);
       mid ← long (hi - Z.quot d 2);
       if decide (mid = hi) then Ret (lo, hi)
       else x ← rd v mid;
            if decide (x > val) then last_leq_loop k val v lo mid
            else last_leq_loop k val v mid hi
     else Ret (lo, hi)).
  destruct (decide (lo < hi)) as [Hlt|Hge].
  2:{ exists lo, hi. split; [done|]. split_and!; try done; lia. }
  rewrite long_in by long_lia. cbn.
  assert (0 <= Z.quot (hi - lo) 2 <= hi - lo) as Hq.
  { split; [apply Z.quot_pos; lia|]. apply Z.quot_le_upper_bound; lia. }
  rewrite long_in by long_lia. cbn.
  destruct (decide (hi - Z.quot (hi - lo) 2 = hi)) as [Hmid|Hmid].
  { exists lo, hi. split; [done|]. split_and!; try done; try lia.
    assert (Z.quot (hi - lo) 2 = 0) as H0 by lia.
    apply Z.quot_small_iff in H0; [|lia]. lia. }
  assert (Z.quot (hi - lo) 2 < hi - lo) as Hq2.
  { apply Z.quot_lt; lia. }
  remember (hi - Z.quot (hi - lo) 2) as mid eqn:Emid.
  destruct (lookup_Z v mid) as [x Hx]; [long_lia|].
  rewrite (rd_Some v mid x) by (done || lia). cbn.
  destruct (decide (x > val)).
  - apply IH; try lia; eauto.
  - apply IH; try lia; eauto.
Qed.

Lemma long_last_leq_returns NDEBUG val v :
  v ≠ [] -> Z.of_nat (length v) <= LONG_MAX ->
  exists r,
    long_last_leq NDEBUG val v (Z.of_nat (length v)) = Ret r ∧
    ((r = -1 ∧ exists y, head v = Some y ∧ val < y) ∨
     (0 <= r < Z.of_nat (length v) ∧
      (exists x, v !! Z.to_nat r = Some x ∧ x <= val) ∧
      (r = Z.of_nat (length v) - 1 ∨
       exists y, v !! Z.to_nat (r + 1) = Some y ∧ y > val))).
Proof.
  intros Hne Hmax. set (len := Z.of_nat (length v)).
  assert (0 < len) as Hlen by (destruct v; [done|cbn in *; lia]).
  unfold long_last_leq.
  assert (myassert NDEBUG (Ret (bool_decide (len > 0))) = Ret ()) as ->.
  { unfold myassert. destruct NDEBUG; [done|]. cbn.
    by rewrite bool_decide_eq_true_2 by lia. }
  cbn. rewrite long_in by long_lia. cbn.
  destruct (lookup_Z v 0) as [v0 Hv0]; [lia|].
  rewrite (rd_Some v 0 v0) by (done || lia). cbn.
  destruct (decide (val < v0)) as [Hlt|Hge].
  { exists (-1). split; [done|]. left. split; [done|]. exists v0. split; [|lia].
    by rewrite head_lookup. }
  destruct (last_leq_loop_spec (S (Z.to_nat len)) val v 0 (len - 1))
    as (lo & hi & -> & Hlh & Hhi & Hd & (x & Hx & Hxv) & Ph); try lia; eauto.
  { exists v0. split; [done|lia]. }
  cbn. destruct (lookup_Z v hi) as [vh Hvh]; [lia|].
  rewrite (rd_Some v hi vh) by (done || lia). cbn.
  destruct (decide (vh <= val)) as [Hvhle|Hvhgt].
  - assert (hi = len - 1) as ->.
    { destruct Ph as [?|(y & Hy & ?)]; [done|]. rewrite Hvh in Hy. simplify_eq; lia. }
    exists (len - 1). split.
    + unfold myassert. destruct NDEBUG; [done|]. cbn.
      rewrite !bool_decide_eq_true_2 by lia. cbn.
      rewrite (rd_Some v (len - 1) vh) by (done || lia). cbn.
      rewrite bool_decide_eq_true_2 by lia. cbn.
      rewrite long_in by long_lia. cbn. by rewrite decide_True.
    + right. split; [lia|]. split; [|by left]. eauto.
  - assert (hi = lo + 1) as ->.
    { destruct (decide (hi = lo)) as [->|?]; [|lia].
      rewrite Hvh in Hx. simplify_eq; lia. }
    exists lo. split.
    + unfold myassert. destruct NDEBUG; [done|]. cbn.
      rewrite !bool_decide_eq_true_2 by lia. cbn.
      rewrite (rd_Some v lo x) by (done || lia). cbn.
      rewrite bool_decide_eq_true_2 by lia. cbn.
      rewrite ?long_in by long_lia. cbn.
      rewrite decide_False by lia. rewrite ?long_in by long_lia. cbn.
      rewrite (rd_Some v (lo + 1) vh) by (done || lia). cbn.
      by rewrite bool_decide_eq_true_2 by lia.
    + right. split; [lia|]. split; [eauto|]. right.
      exists vh. split; [done|lia].
Qed.

Lemma ascending_le v i j x y :
  ascending v -> i <= j -> 0 <= i ->
  v !! Z.to_nat i = Some x -> v !! Z.to_nat j = Some y -> x <= y.
Proof. intros Ha Hij Hi Hx Hy. eapply (Ha (Z.to_nat i) (Z.to_nat j)); [lia|done..]. Qed.

Lemma test_v_ascending : ascending test_v.
Proof.
  intros i j x y Hij Hi Hj. unfold test_v in *.
  repeat (destruct i as [|i]; [|try done]);
    repeat (destruct j as [|j]; [|try done]);
    cbn in Hi, Hj; simplify_eq; lia.
Qed.

End Search.

(** ** misc.c: long_first_geq and long_last_leq *)

(** X1: on a non-empty array in ascending order, long_first_geq returns the
    number [r] of elements that are less than [val]: the elements before
    index [r] are exactly those less than [val].  So [r] is the index of the
    first element >= val, and the length of the array when there is none.
    No assertion fails and nothing outside the array is read, with or
    without NDEBUG. *)
Theorem long_first_geq_sorted (NDEBUG : bool) (val : Z) (v : list Z) :
  v ≠ [] -> Z.of_nat (length v) <= Misc.LONG_MAX -> Misc.ascending v ->
  exists r,
    Misc.long_first_geq NDEBUG val v (Z.of_nat (length v)) = Misc.Ret r ∧
    0 <= r <= Z.of_nat (length v) ∧
    forall (j : nat) x, v !! j = Some x -> (Z.of_nat j < r <-> x < val).
Proof.
  intros Hne Hmax Hasc.
  destruct (long_first_geq_returns NDEBUG val v Hne Hmax)
    as (r & Hr & [(-> & y & Hy & Hlt)|(Hb & (y & Hy & Hge) & Hprev)]).
  - exists (Z.of_nat (length v)). split; [done|]. split; [lia|].
    intros j x Hj. pose proof (lookup_lt_Some _ _ _ Hj) as Hlen.
    split; [|lia]. intros _. rewrite last_lookup in Hy.
    assert (x <= y); [|lia].
    eapply (Hasc j (Nat.pred (length v))); [lia|done..].
  - exists r. split; [done|]. split; [lia|].
    intros j x Hj. split.
    + intros Hjr. destruct Hprev as [->|(x' & Hx' & Hlt)]; [lia|].
      assert (x <= x'); [|lia].
      eapply (Hasc j (Z.to_nat (r - 1))); [lia|done..].
    + intros Hx. destruct (decide (Z.of_nat j < r)) as [|Hnlt]; [done|].
      assert (y <= x); [|lia].
      eapply (Hasc (Z.to_nat r) j); [lia|done..].
Qed.

(** The array of the unit test, searched for 1. *)
Lemma long_first_geq_sorted_witness :
  exists r,
    Misc.long_first_geq false 1 Misc.test_v 7 = Misc.Ret r ∧
    0 <= r <= 7 ∧
    forall (j : nat) x, Misc.test_v !! j = Some x -> (Z.of_nat j < r <-> x < 1).
Proof.
  apply (long_first_geq_sorted false 1 Misc.test_v);
    [done|vm_compute; discriminate|apply test_v_ascending].
Defined.

(** X2: on a non-empty array in ascending order, long_last_leq returns
    [r] such that the elements up to index [r] are exactly those that are at
    most [val]: [r] is the index of the last element <= val, and -1 when
    there is none.  No assertion fails and nothing outside the array is
    read, with or without NDEBUG. *)
Theorem long_last_leq_sorted (NDEBUG : bool) (val : Z) (v : list Z) :
  v ≠ [] -> Z.of_nat (length v) <= Misc.LONG_MAX -> Misc.ascending v ->
  exists r,
    Misc.long_last_leq NDEBUG val v (Z.of_nat (length v)) = Misc.Ret r ∧
    -1 <= r < Z.of_nat (length v) ∧
    forall (j : nat) x, v !! j = Some x -> (Z.of_nat j <= r <-> x <= val).
Proof.
  intros Hne Hmax Hasc.
  destruct (long_last_leq_returns NDEBUG val v Hne Hmax)
    as (r & Hr & [(-> & y & Hy & Hlt)|(Hb & (y & Hy & Hle) & Hnext)]).
  - exists (-1). split; [done|]. split; [destruct v; [done|cbn; lia]|].
    intros j x Hj. split; [lia|]. intros Hx. rewrite head_lookup in Hy.
    assert (y <= x); [|lia].
    eapply (Hasc 0%nat j); [lia|done..].
  - exists r. split; [done|]. split; [lia|].
    intros j x Hj. pose proof (lookup_lt_Some _ _ _ Hj) as Hlen. split.
    + intros Hjr. assert (x <= y); [|lia].
      eapply (Hasc j (Z.to_nat r)); [lia|done..].
    + intros Hx. destruct (decide (Z.of_nat j <= r)) as [|Hnle]; [done|].
      destruct Hnext as [->|(y' & Hy' & Hgt)]; [lia|].
      assert (y' <= x); [|lia].
      eapply (Hasc (Z.to_nat (r + 1)) j); [lia|done..].
Qed.

(** The array of the unit test, searched for 1. *)
Lemma long_last_leq_sorted_witness :
  exists r,
    Misc.long_last_leq false 1 Misc.test_v 7 = Misc.Ret r ∧
    -1 <= r < 7 ∧
    forall (j : nat) x, Misc.test_v !! j = Some x -> (Z.of_nat j <= r <-> x <= 1).
Proof.
  apply (long_last_leq_sorted false 1 Misc.test_v);
    [done|vm_compute; discriminate|apply test_v_ascending].
Defined.

(** X3: on a non-empty array in ascending order the two searches bracket
    the occurrences of [val]: with [f] the result of long_first_geq and [l]
    that of long_last_leq, the elements equal to [val] are exactly those at
    the indices from [f] to [l]; there are l - f + 1 of them, and
    l = f - 1 exactly when [val] does not occur. *)
Theorem searches_bracket_value (NDEBUG : bool) (val : Z) (v : list Z) :
  v ≠ [] -> Z.of_nat (length v) <= Misc.LONG_MAX -> Misc.ascending v ->
  exists f l,
    Misc.long_first_geq NDEBUG val v (Z.of_nat (length v)) = Misc.Ret f ∧
    Misc.long_last_leq NDEBUG val v (Z.of_nat (length v)) = Misc.Ret l ∧
    f - 1 <= l ∧
    (forall (j : nat) x, v !! j = Some x -> (x = val <-> f <= Z.of_nat j <= l)) ∧
    (l = f - 1 <-> val ∉ v).
Proof.
  intros Hne Hmax Hasc.
  destruct (long_first_geq_sorted NDEBUG val v Hne Hmax Hasc) as (f & Hf & Hfb & Hfs).
  destruct (long_last_leq_sorted NDEBUG val v Hne Hmax Hasc) as (l & Hl & Hlb & Hls).
  exists f, l. split; [done|]. split; [done|].
  assert (forall (j : nat) x, v !! j = Some x -> (x = val <-> f <= Z.of_nat j <= l))
    as Hiff.
  { intros j x Hj. specialize (Hfs j x Hj). specialize (Hls j x Hj). lia. }
  assert (f - 1 <= l) as Hfl.
  { destruct (decide (f - 1 <= l)) as [|Hn]; [done|].
    destruct (lookup_Z v (l + 1)) as [x Hx]; [lia|].
    specialize (Hfs _ _ Hx). specialize (Hls _ _ Hx). lia. }
  split; [done|]. split; [done|]. split.
  - intros -> Hin. apply list_elem_of_lookup in Hin as [j Hj].
    apply Hiff in Hj. lia.
  - intros Hnin. destruct (decide (l = f - 1)) as [|Hne']; [done|].
    destruct (lookup_Z v f) as [x Hx]; [lia|].
    destruct Hnin. apply list_elem_of_lookup. exists (Z.to_nat f).
    rewrite Hx. f_equal. apply (Hiff _ _ Hx). lia.
Qed.

(** The array of the unit test: the three 1s are at indices 2 to 4. *)
Lemma searches_bracket_value_witness :
  exists f l,
    Misc.long_first_geq false 1 Misc.test_v 7 = Misc.Ret f ∧
    Misc.long_last_leq false 1 Misc.test_v 7 = Misc.Ret l ∧
    f - 1 <= l ∧
    (forall (j : nat) x,
       Misc.test_v !! j = Some x -> (x = 1 <-> f <= Z.of_nat j <= l)) ∧
    (l = f - 1 <-> 1 ∉ Misc.test_v).
Proof.
  apply (searches_bracket_value false 1 Misc.test_v);
    [done|vm_compute; discriminate|apply test_v_ascending].
Defined.

(** X4: the arrays need not be sorted for the searches to return: on every
    non-empty array both calls return, having read only inside the array, and
    the assertions that close them hold.  long_first_geq returns the length
    when the last element is less than [val], and otherwise an index [r] with
    v[r] >= val and r = 0 or v[r-1] < val; long_last_leq returns -1 when the
    first element is greater than [val], and otherwise an index [r] with
    v[r] <= val and r = len-1 or v[r+1] > val. *)
Theorem searches_return_on_any_array (NDEBUG : bool) (val : Z) (v : list Z) :
  v ≠ [] -> Z.of_nat (length v) <= Misc.LONG_MAX ->
  (exists r,
     Misc.long_first_geq NDEBUG val v (Z.of_nat (length v)) = Misc.Ret r ∧
     ((r = Z.of_nat (length v) ∧ exists y, last v = Some y ∧ y < val) ∨
      (0 <= r < Z.of_nat (length v) ∧
       (exists y, v !! Z.to_nat r = Some y ∧ y >= val) ∧
       (r = 0 ∨ exists x, v !! Z.to_nat (r - 1) = Some x ∧ x < val)))) ∧
  (exists r,
     Misc.long_last_leq NDEBUG val v (Z.of_nat (length v)) = Misc.Ret r ∧
     ((r = -1 ∧ exists y, head v = Some y ∧ val < y) ∨
      (0 <= r < Z.of_nat (length v) ∧
       (exists x, v !! Z.to_nat r = Some x ∧ x <= val) ∧
       (r = Z.of_nat (length v) - 1 ∨
        exists y, v !! Z.to_nat (r + 1) = Some y ∧ y > val)))).
Proof.
  intros Hne Hmax. split.
  - by apply long_first_geq_returns.
  - by apply long_last_leq_returns.
Qed.

(** An array that is not in ascending order. *)
Lemma searches_return_on_any_array_witness :
  Misc.long_first_geq false 2 [3; 1; 2] 3 = Misc.Ret 2 ∧
  Misc.long_last_leq false 2 [3; 1; 2] 3 = Misc.Ret (-1).
Proof.
  destruct (searches_return_on_any_array false 2 [3; 1; 2])
    as [(r & Hr & _) (r' & Hr' & _)]; [done|vm_compute; discriminate|].
  split; vm_compute; reflexivity.
Defined.

(** X5: a length that is not positive.  Without NDEBUG both searches stop at
    their first assertion.  With NDEBUG, long_first_geq reads v[len-1], which
    is before the array (or len-1 overflows): undefined behaviour; and
    long_last_leq returns -1 if the array has a first element greater than
    [val] and len-1 does not overflow, and is undefined otherwise. *)
Theorem searches_on_empty_length (val : Z) (v : list Z) (len : Z) :
  len <= 0 ->
  Misc.long_first_geq false val v len = Misc.AssertFail ∧
  Misc.long_last_leq false val v len = Misc.AssertFail ∧
  Misc.long_first_geq true val v len = Misc.Undefined ∧
  (Misc.long_last_leq true val v len = Misc.Undefined ∨
   (Misc.long_last_leq true val v len = Misc.Ret (-1) ∧
    exists y, head v = Some y ∧ val < y)).
Proof.
  intros Hlen. unfold Misc.long_first_geq, Misc.long_last_leq, Misc.myassert.
  cbn. rewrite !bool_decide_eq_false_2 by lia. cbn.
  assert (forall i, i < 0 -> Misc.rd v i = Misc.Undefined) as Hneg.
  { intros i Hi. unfold Misc.rd. by rewrite decide_False by lia. }
  split_and!; try done.
  - destruct (decide (Misc.LONG_MIN <= len - 1 <= Misc.LONG_MAX)) as [Hin|Hout].
    + rewrite long_in by done. cbn. by rewrite Hneg by lia.
    + unfold Misc.long. by rewrite decide_False.
  - destruct (decide (Misc.LONG_MIN <= len - 1 <= Misc.LONG_MAX)) as [Hin|Hout].
    2:{ left. unfold Misc.long. by rewrite decide_False. }
    rewrite long_in by done. cbn.
    destruct v as [|y v]; [by left|].
    rewrite (rd_Some (y :: v) 0 y) by done. cbn.
    destruct (decide (val < y)); [right; eauto|]. left.
    change (Misc.last_leq_loop (S (Z.to_nat len)) val (y :: v) 0 (len - 1))
      with (if decide (0 < len - 1) then
              Misc.long (len - 1 - 0) ≫= (fun d =>
              Misc.long (len - 1 - Z.quot d 2) ≫= (fun mid =>
              if decide (mid = len - 1) then Misc.Ret (0, len - 1)
              else Misc.rd (y :: v) mid ≫= (fun x =>
                   if decide (x > val)
                   then Misc.last_leq_loop (Z.to_nat len) val (y :: v) 0 mid
                   else Misc.last_leq_loop (Z.to_nat len) val (y :: v) mid (len - 1))))
            else Misc.Ret (0, len - 1)).
    rewrite decide_False by lia. cbn. by rewrite Hneg by lia.
Qed.

Lemma searches_on_empty_length_witness :
  Misc.long_first_geq false 5 [] 0 = Misc.AssertFail ∧
  Misc.long_first_geq true 5 [] 0 = Misc.Undefined.
Proof.
  destruct (searches_on_empty_length 5 [] 0) as (H1 & _ & H3 & _); [lia|].
  split; [exact H1|exact H3].
Defined.

(** ** misc.c: strings *)

Section Strings.

Import Misc.

Ltac int_lia :=
  unfold INT_MIN, INT_MAX in *;
  change (2 ^ 31) with 2147483648 in *; lia.

Lemma int_in z : INT_MIN <= z <= INT_MAX -> int z = Ret z.
Proof. intros H. unfold int. by rewrite decide_True. Qed.

Lemma to_int_small n : Z.of_nat n <= INT_MAX -> to_int n = Z.of_nat n.
Proof.
  intros H. unfold to_int, INT_MAX in *.
  change (2 ^ 31) with 2147483648 in *. change (2 ^ 32) with 4294967296.
  rewrite Z.mod_small; lia.
Qed.

Lemma advance_in str n :
  (n <= length str)%nat -> advance str (Z.of_nat n) = Ret (drop n str).
Proof.
  intros H. unfold advance. rewrite decide_True by lia. by rewrite Nat2Z.id.
Qed.

Lemma strcspn_le s sep : (strcspn s sep <= length s)%nat.
Proof. induction s as [|c s IH]; cbn; [lia|]. destruct (decide _); cbn; lia. Qed.

Lemma strspn_le s sep : (strspn s sep <= length s)%nat.
Proof. induction s as [|c s IH]; cbn; [lia|]. destruct (decide _); cbn; lia. Qed.

Lemma runs_le s sep : (runs s sep <= length s)%nat.
Proof.
  induction s as [|c s IH]; cbn; [lia|].
  destruct (decide _); [|lia]. destruct s as [|c' s]; [cbn in *; lia|].
  destruct (decide _); cbn in *; lia.
Qed.

(** Two runs are separated by a character outside [sep]. *)
Lemma runs_bound s sep :
  (2 * runs s sep <=
   length s + match s with
              | c :: _ => if decide (c ∈ sep) then 1 else 0
              | [] => 0
              end)%nat.
Proof.
  induction s as [|c s IH]; [cbn; lia|].
  cbn [runs length]. destruct (decide (c ∈ sep)).
  - destruct s as [|c' s]; [cbn; lia|].
    destruct (decide (c' ∈ sep)); lia.
  - destruct s as [|c' s]; [cbn; lia|].
    destruct (decide (c' ∈ sep)); lia.
Qed.

(** Skipping the characters outside [sep] loses no run. *)
Lemma runs_strcspn s sep : runs (drop (strcspn s sep) s) sep = runs s sep.
Proof.
  induction s as [|c s IH]; [done|]. cbn [strcspn].
  destruct (decide (c ∈ sep)) as [Hin|Hnin]; [done|].
  cbn. by rewrite IH, decide_False.
Qed.

Lemma strcspn_head s sep c s' :
  drop (strcspn s sep) s = c :: s' -> c ∈ sep.
Proof.
  induction s as [|c0 s IH]; [done|]. cbn [strcspn].
  destruct (decide (c0 ∈ sep)) as [Hin|Hnin]; cbn; [by intros [= -> _]|done].
Qed.

(** Skipping a run of characters of [sep] loses exactly one run. *)
Lemma runs_strspn s sep c s' :
  s = c :: s' -> c ∈ sep ->
  (0 < strspn s sep)%nat ∧ runs s sep = S (runs (drop (strspn s sep) s) sep).
Proof.
  revert c s'. induction s as [|c0 s IH]; intros c s' [= -> ->] Hin.
  cbn [strspn]. rewrite decide_True by done. split; [lia|].
  cbn [drop runs]. rewrite decide_True by done.
  destruct s' as [|c' s']; [done|].
  destruct (decide (c' ∈ sep)) as [Hin'|Hnin'].
  - destruct (IH c' s' eq_refl Hin') as [_ ->]. done.
  - cbn [strspn]. rewrite decide_False by done. done.
Qed.

Local Arguments strcspn : simpl never.
Local Arguments strspn : simpl never.
Local Arguments runs : simpl never.

Lemma chunks_loop_S k str sep n :
  str ≠ [] ->
  chunks_loop (S k) str sep n =
  (str1 ← advance str (to_int (strcspn str sep));
   let i := to_int (strspn str1 sep) in
   if decide (i > 0) then
     n' ← int (n + 1); str2 ← advance str1 i; chunks_loop k str2 sep n'
   else chunks_loop k str1 sep n).
Proof. by destruct str. Qed.

Lemma chunks_loop_spec fuel str sep n :
  (length str < fuel)%nat -> Z.of_nat (length str) <= INT_MAX ->
  0 <= n -> n + Z.of_nat (runs str sep) <= INT_MAX ->
  chunks_loop fuel str sep n = Ret (n + Z.of_nat (runs str sep)).
Proof.
  revert str n. induction fuel as [|k IH]; intros str n Hf Hlen Hn Hmax; [lia|].
  destruct (decide (str = [])) as [->|Hne].
  { change (runs [] sep) with 0%nat. rewrite Z.add_0_r. reflexivity. }
  rewrite chunks_loop_S by done.
  assert (0 < length str)%nat as Hpos0 by (destruct str; [done|cbn; lia]).
  pose proof (strcspn_le str sep) as Hc.
  rewrite to_int_small by lia. rewrite advance_in by done. cbn.
  pose proof (runs_strcspn str sep) as Hr1.
  assert (length (drop (strcspn str sep) str) <= length str)%nat as Hl1
    by (rewrite length_drop; lia).
  remember (drop (strcspn str sep) str) as str1 eqn:E1.
  pose proof (strspn_le str1 sep) as Hs.
  rewrite to_int_small by lia.
  destruct str1 as [|c1 s1].
  { change (strspn [] sep) with 0%nat. cbn. rewrite decide_False by lia.
    destruct k; [cbn in *; lia|].
    change (runs [] sep) with 0%nat in Hr1. rewrite <- Hr1, Z.add_0_r. reflexivity. }
  assert (c1 ∈ sep) as Hin by (by eapply strcspn_head).
  destruct (runs_strspn (c1 :: s1) sep c1 s1 eq_refl Hin) as [Hpos Hr2].
  rewrite decide_True by lia.
  pose proof (runs_le (c1 :: s1) sep) as Hrl.
  rewrite int_in by int_lia. cbn.
  rewrite advance_in by done. cbn.
  rewrite IH.
  - f_equal. lia.
  - rewrite length_drop. lia.
  - rewrite length_drop. lia.
  - lia.
  - lia.
Qed.

Lemma isspace_text c : 0 <= c <= 255 -> isspace c = Ret (bool_decide (white c)).
Proof. intros H. unfold isspace. by rewrite decide_True by lia. Qed.

(** What the loop over white space does: it stops at the first character
    that is not white space, or at the end. *)
Lemma skip_space_spec s :
  is_text s ->
  exists ws p,
    s = ws ++ p ∧ Forall white ws ∧ skip_space s = Ret p ∧
    match p with
    | [] => True
    | c :: _ => ¬ white c
    end.
Proof.
  induction 1 as [|c s Hc Hs (ws & p & -> & Hws & Hp & Hhd)].
  - exists [], []. cbn. by rewrite isspace_text by lia.
  - cbn [skip_space]. rewrite isspace_text by lia. cbn.
    destruct (bool_decide (white c)) eqn:E.
    + apply bool_decide_eq_true in E.
      exists (c :: ws), p. split_and!; [done|by constructor|done..].
    + apply bool_decide_eq_false in E.
      exists [], (c :: ws ++ p). split_and!; [done|by constructor|done..].
Qed.

Lemma white_not_hash c : white c -> c ≠ 35.
Proof. unfold white. lia. Qed.

(** The first character that is not white space is where it is. *)
Lemma first_nonwhite_unique ws c p ws' c' p' :
  ws ++ c :: p = ws' ++ c' :: p' ->
  Forall white ws -> Forall white ws' -> ¬ white c -> ¬ white c' ->
  ws = ws' ∧ c = c' ∧ p = p'.
Proof.
  intros E Hws. revert ws' E.
  induction Hws as [|w ws Hw Hws IH]; intros ws' E Hws' Hc Hc'.
  - destruct ws' as [|w' ws']; cbn in E; simplify_eq; [done|].
    by apply Forall_cons in Hws' as [? _].
  - destruct ws' as [|w' ws']; cbn in E; simplify_eq; [done|].
    apply Forall_cons in Hws' as [_ Hws'].
    destruct (IH ws' ltac:(done) Hws' Hc Hc') as (-> & -> & ->). done.
Qed.

Lemma strchr_None s c : strchr s c = None <-> c ∉ s.
Proof.
  induction s as [|c' s IH]; cbn.
  - split; [intros _; apply not_elem_of_nil|done].
  - destruct (decide (c' = c)) as [->|Hne].
    + split; [done|]. intros H. destruct H. apply elem_of_cons. by left.
    + rewrite fmap_None, IH, not_elem_of_cons. split; [by split|by intros [_ ?]].
Qed.

Lemma strchr_Some s c p :
  strchr s c = Some p -> (c ∉ take p s) ∧ s !! p = Some c.
Proof.
  revert p. induction s as [|c' s IH]; intros p; cbn; [done|].
  destruct (decide (c' = c)) as [->|Hne].
  - intros [= <-]. split; [apply not_elem_of_nil|done].
  - intros H. apply fmap_Some in H as (p' & Hp' & ->).
    destruct (IH _ Hp') as [Hn Hl].
    cbn. split; [|done]. apply not_elem_of_cons. by split.
Qed.

Lemma is_text_take n s : is_text s -> is_text (take n s).
Proof. apply Forall_take. Qed.

Lemma tolower_text c :
  0 <= c <= 255 -> tolower c = Ret (if decide (65 <= c <= 90) then c + 32 else c).
Proof. intros H. unfold tolower. by rewrite decide_True by lia. Qed.

Lemma strlowercase_spec s :
  is_text s ->
  exists r,
    strlowercase s = Ret r ∧ length r = length s ∧ is_text r ∧
    Forall (fun c => ¬ 65 <= c <= 90) r ∧
    forall i c, s !! i = Some c ->
      r !! i = Some (if decide (65 <= c <= 90) then c + 32 else c).
Proof.
  induction 1 as [|c s Hc Hs (r & Hr & Hlen & Ht & Hlow & Hi)].
  - exists []. split_and!; try done; constructor.
  - cbn [strlowercase]. rewrite tolower_text by lia. cbn. rewrite Hr. cbn.
    eexists. split; [done|]. split_and!.
    + cbn. by rewrite Hlen.
    + constructor; [|done]. destruct (decide _); lia.
    + constructor; [|done]. destruct (decide _); lia.
    + intros [|i] c'; cbn; [by intros [= ->]|apply Hi].
Qed.

End Strings.

(** ** misc.c: strCountSetChunks, strcomment, strempty, stripComment,
       strlowercase *)

(** X6: on a string of at most INT_MAX characters, strCountSetChunks
    returns the number of maximal runs of characters that belong to [sep]
    (so 0 on the empty string, on a string without such characters and for
    an empty [sep]); its loop ends, and its counter does not overflow. *)
Theorem strCountSetChunks_counts_runs (str sep : list Z) :
  Z.of_nat (length str) <= Misc.INT_MAX ->
  Misc.strCountSetChunks str sep = Misc.Ret (Z.of_nat (Misc.runs str sep)) ∧
  ((forall c, c ∈ str -> c ∉ sep) -> Misc.runs str sep = 0%nat) ∧
  (2 * Z.of_nat (Misc.runs str sep) <= Z.of_nat (length str) + 1).
Proof.
  intros Hlen. split_and!.
  - unfold Misc.strCountSetChunks. pose proof (runs_le str sep).
    rewrite chunks_loop_spec; [done|lia..].
  - induction str as [|c s IH]; intros Hno; [done|]. cbn.
    rewrite decide_False by (apply Hno, elem_of_cons; by left).
    rewrite IH; [done|cbn in Hlen; lia|].
    intros c' Hc'. apply Hno, elem_of_cons. by right.
  - pose proof (runs_bound str sep) as Hb.
    destruct str as [|c s]; [cbn in *; lia|]. destruct (decide (c ∈ sep)); lia.
Qed.

(** "abc1cd23efgh4" has three runs of digits (misc.c:455). *)
Lemma strCountSetChunks_counts_runs_witness :
  Misc.strCountSetChunks [97; 98; 99; 49; 99; 100; 50; 51; 101; 102; 103; 104; 52]
    [48; 49; 50; 51; 52; 53; 54; 55; 56; 57] = Misc.Ret 3.
Proof.
  destruct (strCountSetChunks_counts_runs
              [97; 98; 99; 49; 99; 100; 50; 51; 101; 102; 103; 104; 52]
              [48; 49; 50; 51; 52; 53; 54; 55; 56; 57]) as [H _].
  - vm_compute. discriminate.
  - rewrite H. vm_compute. reflexivity.
Defined.

(** X7: on a string of unsigned char values, strempty returns 1 exactly
    when every character is white space and 0 otherwise; strcomment returns 1
    exactly when the string is white space followed by '#' and 0 otherwise;
    and they never both return 1. *)
Theorem strempty_strcomment (s : list Z) :
  Misc.is_text s ->
  (Misc.strempty s = Misc.Ret 1 ∨ Misc.strempty s = Misc.Ret 0) ∧
  (Misc.strempty s = Misc.Ret 1 <-> Forall Misc.white s) ∧
  (Misc.strcomment s = Misc.Ret 1 ∨ Misc.strcomment s = Misc.Ret 0) ∧
  (Misc.strcomment s = Misc.Ret 1 <->
   exists ws rest, s = ws ++ 35 :: rest ∧ Forall Misc.white ws) ∧
  ¬ (Misc.strempty s = Misc.Ret 1 ∧ Misc.strcomment s = Misc.Ret 1).
Proof.
  intros Ht. destruct (skip_space_spec s Ht) as (ws & p & -> & Hws & Hp & Hhd).
  unfold Misc.strempty, Misc.strcomment. rewrite Hp. cbn.
  assert (Forall Misc.white (ws ++ p) <-> p = []) as F1.
  { split; [|intros ->; by rewrite app_nil_r].
    intros [_ Hall]%Forall_app. destruct p as [|c p]; [done|].
    by apply Forall_cons in Hall as [? _]. }
  assert ((exists ws' rest, ws ++ p = ws' ++ 35 :: rest ∧ Forall Misc.white ws') <->
          exists p', p = 35 :: p') as F2.
  { split.
    - intros (ws' & rest & E & Hws'). destruct p as [|c p].
      + rewrite app_nil_r in E. subst ws.
        apply Forall_app in Hws as [_ Hh]. apply Forall_cons in Hh as [Hh _].
        by apply white_not_hash in Hh.
      + destruct (first_nonwhite_unique _ _ _ _ _ _ E Hws Hws' Hhd)
          as (_ & -> & _); [|eauto].
        intros Hw. by apply white_not_hash in Hw.
    - intros [p' ->]. by exists ws, p'. }
  rewrite F1, F2. destruct p as [|c p].
  - split_and!; [by left| |by right| |].
    + done.
    + split; [done|]. by intros [? ?].
    + by intros [_ ?].
  - destruct (decide (c = 35)) as [->|Hne].
    + split_and!; [by right| |by left| |].
      * done.
      * split; [eauto|done].
      * by intros [? _].
    + split_and!; [by right| |by right| |].
      * done.
      * split; [done|]. intros [p' [= ? _]]. done.
      * by intros [? _].
Qed.

(** "   #ab cde" is a comment and not empty (misc.c:474). *)
Lemma strempty_strcomment_witness :
  Misc.strcomment [32; 32; 32; 35; 97; 98; 32; 99; 100; 101] = Misc.Ret 1 ∧
  Misc.strempty [32; 32; 32; 35; 97; 98; 32; 99; 100; 101] = Misc.Ret 0.
Proof.
  destruct (strempty_strcomment [32; 32; 32; 35; 97; 98; 32; 99; 100; 101])
    as ([H|H] & _ & _ & Hc & Hn).
  - repeat constructor; lia.
  - exfalso. apply Hn. split; [exact H|]. apply Hc.
    exists [32; 32; 32], [97; 98; 32; 99; 100; 101]. split; [reflexivity|].
    repeat constructor.
  - split; [|exact H]. apply Hc.
    exists [32; 32; 32], [97; 98; 32; 99; 100; 101]. split; [reflexivity|].
    repeat constructor.
Defined.

(** X8: stripComment cuts the string at its first '#': the result has no
    '#', what was cut off after it starts with '#', a string without '#' is
    returned as it is, and stripping twice is the same as stripping once. *)
Theorem stripComment_cuts_at_hash (s : list Z) :
  (35 ∉ Misc.stripComment s) ∧
  (exists rest, s = Misc.stripComment s ++ rest ∧ (rest = [] ∨ head rest = Some 35)) ∧
  (35 ∉ s -> Misc.stripComment s = s) ∧
  Misc.stripComment (Misc.stripComment s) = Misc.stripComment s.
Proof.
  assert (forall t, 35 ∉ t -> Misc.stripComment t = t) as Hid.
  { intros t Ht. unfold Misc.stripComment.
    by rewrite (proj2 (strchr_None t 35) Ht). }
  assert (35 ∉ Misc.stripComment s) as Hno.
  { unfold Misc.stripComment. destruct (Misc.strchr s 35) as [p|] eqn:E.
    - by apply strchr_Some in E as [? _].
    - by apply strchr_None. }
  split_and!; [done| |apply Hid|by apply Hid].
  unfold Misc.stripComment. destruct (Misc.strchr s 35) as [p|] eqn:E.
  - apply strchr_Some in E as [_ Hp]. exists (drop p s).
    split; [by rewrite take_drop|]. right.
    by rewrite head_lookup, lookup_drop, Nat.add_0_r.
  - exists []. split; [by rewrite app_nil_r|by left].
Qed.

(** X9: a line that strcomment calls a comment is empty, for strempty,
    once stripComment has cut the comment off; and after stripComment no
    line is a comment. *)
Theorem stripped_comment_is_empty (s : list Z) :
  Misc.is_text s ->
  (Misc.strcomment s = Misc.Ret 1 ->
   Misc.strempty (Misc.stripComment s) = Misc.Ret 1) ∧
  Misc.strcomment (Misc.stripComment s) = Misc.Ret 0.
Proof.
  intros Ht.
  assert (Misc.is_text (Misc.stripComment s)) as Ht'.
  { unfold Misc.stripComment. destruct (Misc.strchr s 35); [|done].
    by apply is_text_take. }
  destruct (stripComment_cuts_at_hash s) as (Hno & _ & _ & _).
  destruct (strempty_strcomment s Ht) as (_ & _ & _ & Hc & _).
  destruct (strempty_strcomment _ Ht') as (_ & He' & [Hc1|Hc0] & Hc' & _).
  - apply Hc' in Hc1 as (ws & rest & E & _). destruct Hno. rewrite E.
    apply elem_of_app. right. apply elem_of_cons. by left.
  - split; [|done]. intros (ws & rest & -> & Hws)%Hc. apply He'.
    assert (Misc.stripComment (ws ++ 35 :: rest) = ws) as ->; [|done].
    unfold Misc.stripComment.
    assert (Misc.strchr (ws ++ 35 :: rest) 35 = Some (length ws)) as ->.
    { clear -Hws. induction Hws as [|w ws Hw Hws IH]; cbn; [done|].
      rewrite decide_False by (by apply white_not_hash). by rewrite IH. }
    by rewrite take_app_length.
Qed.

(** "  # a comment" *)
Lemma stripped_comment_is_empty_witness :
  Misc.strempty (Misc.stripComment [32; 32; 35; 32; 97]) = Misc.Ret 1 ∧
  Misc.strcomment (Misc.stripComment [32; 32; 35; 32; 97]) = Misc.Ret 0.
Proof.
  destruct (stripped_comment_is_empty [32; 32; 35; 32; 97]) as [H1 H2].
  - repeat constructor; lia.
  - split; [|exact H2]. apply H1. reflexivity.
Defined.

(** X10: on a string of unsigned char values, strlowercase returns a
    string of the same length in which every upper-case letter is replaced by
    its lower-case letter and every other character is kept; the result has
    no upper-case letter, and lowering it again changes nothing. *)
Theorem strlowercase_lowers (s : list Z) :
  Misc.is_text s ->
  exists r,
    Misc.strlowercase s = Misc.Ret r ∧ length r = length s ∧
    (forall i c, s !! i = Some c ->
       r !! i = Some (if decide (65 <= c <= 90) then c + 32 else c)) ∧
    Forall (fun c => ¬ 65 <= c <= 90) r ∧
    Misc.strlowercase r = Misc.Ret r.
Proof.
  intros Ht. destruct (strlowercase_spec s Ht) as (r & Hr & Hlen & Ht' & Hlow & Hi).
  exists r. split_and!; try done.
  destruct (strlowercase_spec r Ht') as (r' & Hr' & Hlen' & _ & _ & Hi').
  rewrite Hr'. f_equal. apply list_eq. intros i.
  destruct (r !! i) as [c|] eqn:E.
  - rewrite (Hi' _ _ E). rewrite decide_False; [done|].
    by eapply (proj1 (Forall_lookup _ _) Hlow).
  - apply lookup_ge_None. apply lookup_ge_None in E. lia.
Qed.

(** "Ab1" becomes "ab1". *)
Lemma strlowercase_lowers_witness :
  exists r, Misc.strlowercase [65; 98; 49] = Misc.Ret r ∧ r = [97; 98; 49].
Proof.
  destruct (strlowercase_lowers [65; 98; 49]) as (r & Hr & _).
  - repeat constructor; lia.
  - exists r. split; [exact Hr|]. vm_compute in Hr. by injection Hr as <-.
Defined.

(** ** misc.h: genotype codes *)

Section Genotypes.

Import Misc.

Lemma encode01_bit b : 0 <= b <= 1 -> encode01 (48 + b) = b.
Proof.
  intros H. unfold encode01.
  destruct (decide (b = 0)) as [->|?]; [done|].
  assert (b = 1) as -> by lia. done.
Qed.

Lemma encode01_le c : encode01 c <= 1 -> (c = 48 ∨ c = 49) ∧ c = 48 + encode01 c.
Proof.
  unfold encode01. destruct (decide (c = 48)) as [->|?]; [by auto|].
  destruct (decide (c = 49)) as [->|?]; [by auto|]. lia.
Qed.

Lemma encodeDiploid_text room gs :
  Forall (fun g => 0 <= g <= 4) gs ->
  encodeDiploid room (gs ≫= genotype_text) = Ret (take room gs).
Proof.
  intros Hgs. revert room. induction Hgs as [|g gs Hg Hgs IH]; intros room.
  { by destruct room. }
  rewrite bind_cons. destruct room as [|room].
  { unfold genotype_text. by destruct (decide (g = 4)). }
  unfold genotype_text at 1. destruct (decide (g = 4)) as [->|Hne].
  - cbn. rewrite IH. done.
  - cbn beta in Hg.
    pose proof (Z.div_mod g 2 ltac:(done)) as Hdm.
    pose proof (Z.mod_pos_bound g 2 ltac:(done)) as Hmb.
    assert (0 <= g / 2 <= 1) as H2 by lia.
    assert (0 <= g `mod` 2 <= 1) as H1 by lia.
    cbn [app encodeDiploid].
    rewrite decide_False by lia.
    rewrite !encode01_bit by done.
    rewrite decide_False by lia. rewrite decide_False by lia.
    rewrite IH. cbn. do 2 f_equal. lia.
Qed.

Lemma encodeDiploid_inv room s :
  (exists r,
     encodeDiploid room s = Ret r ∧ (length r <= room)%nat ∧
     Forall (fun g => 0 <= g <= 4) r ∧
     exists rest, s = (r ≫= genotype_text) ++ rest ∧
       (rest = [] ∨ length r = room)) ∨
  encodeDiploid room s = Exits EXIT_FAILURE.
Proof.
  revert s. induction room as [|room IH]; intros s.
  { left. exists []. destruct s; cbn; split_and!; try done; eauto. }
  destruct s as [|c s1].
  { left. exists []. cbn. split_and!; try done; [lia|eauto]. }
  cbn [encodeDiploid]. destruct (decide (c = 104)) as [->|Hh].
  - destruct (IH s1) as [(r & -> & Hlen & Hr & rest & -> & Hrest)| ->]; [|by right].
    left. exists (UNPHASED_HETEROZYGOTE :: r). cbn. split_and!; try done.
    + lia.
    + constructor; [unfold UNPHASED_HETEROZYGOTE; lia|done].
    + exists rest. split; [done|]. destruct Hrest; [by left|right; lia].
  - destruct (decide (encode01 c > 1)) as [|Hc]; [by right|].
    destruct s1 as [|c2 s2]; [by right|].
    destruct (decide (encode01 c2 > 1)) as [|Hc2]; [by right|].
    destruct (IH s2) as [(r & -> & Hlen & Hr & rest & -> & Hrest)| ->]; [|by right].
    destruct (encode01_le c ltac:(lia)) as [Hcv Ec].
    destruct (encode01_le c2 ltac:(lia)) as [Hcv2 Ec2].
    left. eexists. cbn. split; [done|]. split_and!.
    + cbn. lia.
    + constructor; [|done]. unfold encode01.
      repeat destruct (decide _); lia.
    + exists rest. split; [|destruct Hrest; [by left|right; cbn; lia]].
      clear Ec Ec2 Hc Hc2.
      destruct Hcv as [-> | ->]; destruct Hcv2 as [-> | ->];
        rewrite bind_cons; reflexivity.
Qed.

(** After well-formed genotypes the encoder goes on with the rest of the
    string and of the room. *)
Lemma encodeDiploid_app room gs t :
  Forall (fun g => 0 <= g <= 4) gs -> (length gs <= room)%nat ->
  encodeDiploid room ((gs ≫= genotype_text) ++ t) =
  r ← encodeDiploid (room - length gs) t; Ret (gs ++ r).
Proof.
  intros Hgs. revert room. induction Hgs as [|g gs Hg Hgs IH]; intros room Hlen.
  { cbn. rewrite Nat.sub_0_r. by destruct (encodeDiploid room t). }
  destruct room as [|room]; [cbn in Hlen; lia|].
  rewrite bind_cons. unfold genotype_text at 1. cbn beta in Hg.
  destruct (decide (g = 4)) as [->|Hne].
  - cbn. rewrite IH by (cbn in Hlen; lia).
    by destruct (encodeDiploid (room - length gs) t).
  - pose proof (Z.div_mod g 2 ltac:(done)) as Hdm.
    pose proof (Z.mod_pos_bound g 2 ltac:(done)) as Hmb.
    assert (0 <= g / 2 <= 1) as H2 by lia.
    cbn [app encodeDiploid length Nat.sub].
    rewrite decide_False by lia.
    rewrite !encode01_bit by lia.
    rewrite decide_False by lia. rewrite decide_False by lia.
    rewrite IH by (cbn in Hlen; lia).
    destruct (encodeDiploid (room - length gs) t); cbn; try done.
    do 2 f_equal. lia.
Qed.

Lemma encodeHaploid_spec room s :
  encodeHaploid room s = encode01 <$> take room s.
Proof.
  revert room. induction s as [|c s IH]; intros [|room]; cbn; try done.
  by rewrite IH.
Qed.

End Genotypes.

(** ** misc.h: encodeDiploid and encodeHaploid *)

(** X11: encodeDiploid reads back what is written in the format of
    misc.h:69-74: for genotypes 0..4, written as "00", "01", "10", "11" and
    "h" one after the other, it returns these genotypes, cut to the size of
    the output array when there are more. *)
Theorem encodeDiploid_reads_genotypes (room : nat) (gs : list Z) :
  Forall (fun g => 0 <= g <= 4) gs ->
  Misc.encodeDiploid room (gs ≫= Misc.genotype_text) = Misc.Ret (take room gs) ∧
  ((length gs <= room)%nat ->
   Misc.encodeDiploid room (gs ≫= Misc.genotype_text) = Misc.Ret gs).
Proof.
  intros Hgs. pose proof (encodeDiploid_text room gs Hgs) as H.
  split; [done|]. intros Hlen. by rewrite H, take_ge.
Qed.

(** "1001h1100" is 2, 1, h, 3, 0 (misc.c:504-519). *)
Lemma encodeDiploid_reads_genotypes_witness :
  Misc.encodeDiploid 100 [49; 48; 48; 49; 104; 49; 49; 48; 48] =
  Misc.Ret [2; 1; 4; 3; 0].
Proof.
  destruct (encodeDiploid_reads_genotypes 100 [2; 1; 4; 3; 0]) as [_ H].
  - repeat constructor; lia.
  - apply H. cbn. lia.
Defined.

(** X12: whatever the string, encodeDiploid either returns or ends the
    process with EXIT_FAILURE.  When it returns, it has written at most as
    many genotypes as the output array holds, each of them is in 0..4, and
    written out again they are the part of the string that was read; what was
    not read is nothing, unless the array is full. *)
Theorem encodeDiploid_returns_or_exits (room : nat) (s : list Z) :
  (exists r,
     Misc.encodeDiploid room s = Misc.Ret r ∧ (length r <= room)%nat ∧
     Forall (fun g => 0 <= g <= 4) r ∧
     exists rest, s = (r ≫= Misc.genotype_text) ++ rest ∧
       (rest = [] ∨ length r = room)) ∨
  Misc.encodeDiploid room s = Misc.Exits EXIT_FAILURE.
Proof. apply encodeDiploid_inv. Qed.

(** X13: encodeDiploid ends the process on a malformed string: when, after
    well-formed genotypes that leave room in the array, the string goes on
    with a character other than '0', '1' and 'h', or with a single '0' or '1'
    at its end, or with a '0' or '1' followed by a character that is neither
    '0' nor '1'. *)
Theorem encodeDiploid_exits_on_malformed (room : nat) (gs t : list Z) :
  Forall (fun g => 0 <= g <= 4) gs -> (length gs < room)%nat ->
  (exists c rest, t = c :: rest ∧ c ≠ 48 ∧ c ≠ 49 ∧ c ≠ 104) ∨
  (exists d, t = [d] ∧ (d = 48 ∨ d = 49)) ∨
  (exists d c rest, t = d :: c :: rest ∧ (d = 48 ∨ d = 49) ∧ c ≠ 48 ∧ c ≠ 49) ->
  Misc.encodeDiploid room ((gs ≫= Misc.genotype_text) ++ t) = Misc.Exits EXIT_FAILURE.
Proof.
  intros Hgs Hlen Hbad. rewrite encodeDiploid_app by (done || lia).
  destruct (room - length gs)%nat as [|k] eqn:E; [lia|].
  destruct Hbad as [(c & rest & -> & H0 & H1 & Hh)|
                    [(d & -> & Hd)|(d & c & rest & -> & Hd & H0 & H1)]].
  - cbn. rewrite decide_False by done. unfold Misc.encode01.
    rewrite (decide_False (P := c = 48)), (decide_False (P := c = 49)) by done.
    done.
  - destruct Hd as [-> | ->]; reflexivity.
  - destruct Hd as [-> | ->]; cbn; unfold Misc.encode01;
      rewrite (decide_False (P := c = 48)), (decide_False (P := c = 49)) by done;
      done.
Qed.

(** "100": the last genotype has one character only. *)
Lemma encodeDiploid_exits_on_malformed_witness :
  Misc.encodeDiploid 100 [49; 48; 48] = Misc.Exits EXIT_FAILURE.
Proof.
  apply (encodeDiploid_exits_on_malformed 100 [2] [48]).
  - repeat constructor; lia.
  - cbn. lia.
  - right. left. exists 48. split; [reflexivity|]. by left.
Defined.

(** X14: encodeHaploid never fails: it writes one code for each of the
    first characters of the string, as many as the output array holds;
    the code is 0 for '0', 1 for '1' and 255 for any other character. *)
Theorem encodeHaploid_codes (room : nat) (s : list Z) :
  length (Misc.encodeHaploid room s) = (room `min` length s)%nat ∧
  forall i c, (i < room)%nat -> s !! i = Some c ->
    Misc.encodeHaploid room s !! i =
      Some (if decide (c = 48) then 0 else if decide (c = 49) then 1 else 255).
Proof.
  rewrite encodeHaploid_spec. split.
  - by rewrite length_fmap, length_take.
  - intros i c Hi Hc. rewrite list_lookup_fmap, lookup_take_lt by done.
    by rewrite Hc.
Qed.

Lemma encodeHaploid_codes_witness :
  Misc.encodeHaploid 100 [49; 48; 50] !! 2%nat = Some 255.
Proof.
  destruct (encodeHaploid_codes 100 [49; 48; 50]) as [_ H].
  apply (H 2%nat 50); [lia|reflexivity].
Defined.

(** ** misc.c: strcenter *)

Section Center.

Import Misc.

Ltac int_lia :=
  unfold INT_MIN, INT_MAX in *;
  change (2 ^ 31) with 2147483648 in *; change (2 ^ 32) with 4294967296 in *; lia.

Lemma unsigned_small z : 0 <= z <= INT_MAX -> unsigned z = z.
Proof. intros H. unfold unsigned. rewrite Z.mod_small; int_lia. Qed.

Lemma of_unsigned_small z : 0 <= z <= INT_MAX -> of_unsigned z = z.
Proof. intros H. unfold of_unsigned. rewrite Z.mod_small; int_lia. Qed.

Lemma wr_in buff i c :
  0 <= i < Z.of_nat (length buff) -> wr buff i c = Ret (<[Z.to_nat i := c]> buff).
Proof. intros H. unfold wr. by rewrite decide_True. Qed.

Lemma wr_out buff i c :
  Z.of_nat (length buff) <= i -> wr buff i c = Undefined.
Proof. intros H. unfold wr. rewrite decide_False; [done|lia]. Qed.

Lemma fill_S k j bound idx val buff :
  fill (S k) j bound idx val buff =
  if decide (j < bound) then
    i ← idx j; c ← val j; b ← wr buff i c; j' ← int (j + 1);
    fill k j' bound idx val b
  else Ret buff.
Proof. done. Qed.

(** A loop that writes the values [vals] to the places base + j,
    base + j + 1, ... *)
Lemma fill_vals vals fuel j bound idx val base buff :
  bound = j + Z.of_nat (length vals) -> bound <= INT_MAX -> 0 <= j -> 0 <= base ->
  base + bound <= Z.of_nat (length buff) ->
  (forall (k : nat) c, vals !! k = Some c ->
     idx (j + Z.of_nat k) = Ret (base + j + Z.of_nat k) ∧ val (j + Z.of_nat k) = Ret c) ->
  (length vals < fuel)%nat ->
  fill fuel j bound idx val buff =
  Ret (take (Z.to_nat (base + j)) buff ++ vals ++ drop (Z.to_nat (base + bound)) buff).
Proof.
  revert fuel j buff. induction vals as [|c vals IH]; intros fuel j buff Hb Hmax Hj Hbase Hlen Hv Hf.
  - destruct fuel as [|k]; [cbn in Hf; lia|]. rewrite fill_S.
    cbn in Hb. rewrite decide_False by lia. cbn.
    replace (base + bound) with (base + j) by lia. by rewrite take_drop.
  - destruct fuel as [|k]; [cbn in Hf; lia|]. rewrite fill_S.
    cbn [length] in Hb. rewrite decide_True by lia.
    destruct (Hv 0%nat c eq_refl) as [Hi Hc].
    change (Z.of_nat 0) with 0 in Hi, Hc.
    replace (base + j + 0) with (base + j) in Hi by lia.
    replace (j + 0) with j in Hi, Hc by lia.
    rewrite Hi, Hc. cbn. rewrite wr_in by lia. cbn.
    rewrite int_in by int_lia. cbn.
    rewrite (IH k (j + 1) (<[Z.to_nat (base + j):=c]> buff)).
    + f_equal. replace (Z.to_nat (base + (j + 1))) with (S (Z.to_nat (base + j))) by lia.
      rewrite (take_S_r _ _ c) by (apply list_lookup_insert_eq; lia).
      rewrite take_insert_ge by lia. rewrite drop_insert_lt by lia.
      by rewrite <- app_assoc.
    + lia.
    + done.
    + lia.
    + done.
    + rewrite length_insert. lia.
    + intros k' c' Hk'. destruct (Hv (S k') c' Hk') as [Hi' Hc'].
      replace (j + 1 + Z.of_nat k') with (j + Z.of_nat (S k')) by lia.
      split; [|done]. rewrite Hi'. f_equal. lia.
    + cbn in Hf. lia.
Qed.

(** A loop whose index and value expressions return or are undefined
    returns a buffer of the same length, or is undefined. *)
Lemma fill_total fuel j bound idx val buff :
  bound <= INT_MAX -> 0 <= j ->
  (forall k, idx k = Undefined ∨ exists i, idx k = Ret i) ->
  (forall k, val k = Undefined ∨ exists c, val k = Ret c) ->
  (Z.to_nat (bound - j) < fuel)%nat ->
  fill fuel j bound idx val buff = Undefined ∨
  exists b, fill fuel j bound idx val buff = Ret b ∧ length b = length buff.
Proof.
  intros Hmax Hj Hidx Hval. revert j buff Hj.
  induction fuel as [|k IH]; intros j buff Hj Hf; [lia|].
  rewrite fill_S. destruct (decide (j < bound)) as [Hlt|Hge]; [|right; eauto].
  destruct (Hidx j) as [->|[i ->]]; [by left|]. cbn.
  destruct (Hval j) as [->|[c ->]]; [by left|]. cbn.
  unfold wr. destruct (decide _); [|by left]. cbn.
  rewrite int_in by int_lia. cbn.
  destruct (IH (j + 1) (<[Z.to_nat i:=c]> buff)) as [?|(b & Hb & Hl)]; [lia|lia|by left|].
  right. exists b. split; [done|]. by rewrite Hl, length_insert.
Qed.

Lemma splice_length off vals buff :
  (off + length vals <= length buff)%nat -> length (splice off vals buff) = length buff.
Proof.
  intros H. unfold splice. rewrite !length_app, length_take, length_drop. lia.
Qed.

Lemma splice_app off v1 v2 buff :
  (off + length v1 + length v2 <= length buff)%nat ->
  splice (off + length v1) v2 (splice off v1 buff) = splice off (v1 ++ v2) buff.
Proof.
  intros H. unfold splice.
  assert (length (take off buff) = off) as Ht by (rewrite length_take; lia).
  rewrite (app_assoc (take off buff) v1).
  rewrite take_app_length' by (rewrite length_app; lia).
  rewrite drop_app_ge by (rewrite length_app; lia).
  rewrite drop_drop, length_app, Ht.
  rewrite <- !app_assoc. do 3 f_equal. rewrite length_app. f_equal. lia.
Qed.

Lemma fill_splice vals fuel bound idx val base buff :
  bound = Z.of_nat (length vals) -> bound <= INT_MAX ->
  (base + length vals <= length buff)%nat ->
  (forall (k : nat) c, vals !! k = Some c ->
     idx (Z.of_nat k) = Ret (Z.of_nat base + Z.of_nat k) ∧ val (Z.of_nat k) = Ret c) ->
  (length vals < fuel)%nat ->
  fill fuel 0 bound idx val buff = Ret (splice base vals buff).
Proof.
  intros Hb Hmax Hlen Hv Hf.
  rewrite (fill_vals vals fuel 0 bound idx val (Z.of_nat base) buff); try done; try lia.
  - unfold splice. do 3 f_equal; [f_equal; lia|]. f_equal. lia.
  - intros k c Hk. destruct (Hv k c Hk) as [Hi Hc]. rewrite Z.add_0_l.
    split; [|done]. rewrite Hi. f_equal. lia.
Qed.

Lemma wr_splice buff (i : nat) c :
  (i < length buff)%nat -> wr buff (Z.of_nat i) c = Ret (splice i [c] buff).
Proof.
  intros H. rewrite wr_in by lia. rewrite Nat2Z.id. f_equal.
  unfold splice. rewrite insert_take_drop by done. cbn. do 3 f_equal. lia.
Qed.

Lemma cstring_app a b : 0 ∉ a -> cstring (a ++ 0 :: b) = a.
Proof.
  induction a as [|c a IH]; intros Ha; cbn; [done|].
  apply not_elem_of_cons in Ha as [? ?]. rewrite decide_False by done. by rewrite IH.
Qed.

Lemma int_cases z : int z = Undefined ∨ exists i, int z = Ret i.
Proof. unfold int. destruct (decide _); eauto. Qed.

Lemma rd_cases v i : rd v i = Undefined ∨ exists c, rd v i = Ret c.
Proof. unfold rd. repeat case_match; eauto. Qed.

Lemma replicate_lookup_Some (n k : nat) (c x : Z) :
  replicate n x !! k = Some c -> c = x.
Proof. intros H. by apply lookup_replicate in H as [-> _]. Qed.

(** Where the text is shorter than the buffer: the paddings, and the three
    loops up to the write of the final NUL. *)
Lemma strcenter_unfold text width buff :
  Z.of_nat (length text) < Z.of_nat (length buff) ->
  Z.of_nat (length text) <= width <= INT_MAX ->
  Z.of_nat (length buff) <= INT_MAX ->
  let len := Z.of_nat (length text) in
  let lpad := (width - len) / 2 in
  let rpad := width - len - lpad in
  0 <= lpad ∧ lpad <= rpad <= lpad + 1 ∧
  strcenter text width buff (Z.of_nat (length buff)) =
    (b1 ← fill (S (Z.to_nat lpad)) 0 lpad (fun i => Ret i) (fun _ => Ret 45) buff;
     b2 ← fill (S (Z.to_nat len)) 0 len (fun j => int (lpad + j)) (fun j => rd text j) b1;
     b3 ← fill (S (Z.to_nat rpad)) 0 rpad (fun j => s ← int (lpad + len); int (s + j))
            (fun _ => Ret 45) b2;
     wr b3 width 0).
Proof.
  intros Hlt Hw Hb len lpad rpad.
  pose proof (Z.div_mod (width - len) 2 ltac:(done)) as Hdm.
  pose proof (Z.mod_pos_bound (width - len) 2 ltac:(done)) as Hmb.
  fold lpad in Hdm.
  assert (0 <= lpad) as Hl0 by (subst len; lia).
  split; [done|]. split; [subst rpad len; lia|].
  unfold strcenter. rewrite to_int_small by (fold len; lia). fold len.
  rewrite (unsigned_small len) by (subst len; lia).
  rewrite decide_False by lia.
  assert ((if decide (width > len)
           then of_unsigned (unsigned (width - len) / 2) else 0) = lpad) as ->.
  { destruct (decide (width > len)).
    - rewrite unsigned_small by lia. fold lpad. apply of_unsigned_small. subst len; lia.
    - assert (width - len = 0) as E by lia. subst lpad. by rewrite E. }
  rewrite (unsigned_small (width - len)) by lia.
  rewrite (unsigned_small lpad) by (subst len; lia).
  rewrite (unsigned_small (width - len - lpad)) by (subst len; lia).
  rewrite (of_unsigned_small (width - len - lpad)) by (subst len; lia).
  fold rpad. rewrite Z.max_r by done.
  rewrite (int_in (lpad + len)) by (subst len; int_lia). cbn.
  replace (lpad + len + rpad) with width by (subst rpad; lia).
  rewrite (int_in width) by int_lia. done.
Qed.

Lemma splice_app' off off' v1 v2 buff :
  off' = (off + length v1)%nat ->
  (off + length v1 + length v2 <= length buff)%nat ->
  splice off' v2 (splice off v1 buff) = splice off (v1 ++ v2) buff.
Proof. intros ->. apply splice_app. Qed.

Lemma unsigned_id z : 0 <= z < 2 ^ 32 -> unsigned z = z.
Proof. intros H. unfold unsigned. by rewrite Z.mod_small. Qed.

Lemma unsigned_neg z : - 2 ^ 32 <= z < 0 -> unsigned z = z + 2 ^ 32.
Proof.
  intros H. unfold unsigned. symmetry. apply (Z.mod_unique z (2 ^ 32) (-1)); lia.
Qed.

Lemma of_unsigned_big z : 2 ^ 31 <= z < 2 ^ 32 -> of_unsigned z = z - 2 ^ 32.
Proof.
  intros H. unfold of_unsigned.
  rewrite <- (Z.mod_unique (z + 2 ^ 31) (2 ^ 32) 1 (z - 2 ^ 31)); lia.
Qed.

End Center.

(** X25: strcenter centres: when the text is no longer than the field and
    the field is shorter than the buffer (whose size buffsize is, and is at
    most INT_MAX), the buffer holds lpad times '-', the text, rpad times '-'
    and a NUL, the rest being left as it was; lpad + strlen(text) + rpad is
    the width, lpad is half of what the text leaves free, rounded down, and
    rpad is lpad or lpad + 1. *)
Theorem strcenter_centers (text : list Z) (width : Z) (buff : list Z) :
  Z.of_nat (length text) <= width -> width < Z.of_nat (length buff) ->
  Z.of_nat (length buff) <= Misc.INT_MAX ->
  exists (lpad rpad : nat) (b : list Z),
    Z.of_nat lpad = (width - Z.of_nat (length text)) / 2 ∧
    Z.of_nat (lpad + length text + rpad) = width ∧
    (lpad <= rpad <= lpad + 1)%nat ∧
    Misc.strcenter text width buff (Z.of_nat (length buff)) = Misc.Ret b ∧
    b = replicate lpad 45 ++ text ++ replicate rpad 45 ++
        0 :: drop (S (Z.to_nat width)) buff ∧
    (0 ∉ text -> Misc.cstring b = replicate lpad 45 ++ text ++ replicate rpad 45).
Proof.
  intros Hlen Hw Hb.
  destruct (strcenter_unfold text width buff) as (Hl0 & Hr & E); [lia..|].
  cbv zeta in Hl0, Hr, E.
  set (len := Z.of_nat (length text)) in *.
  remember ((width - len) / 2) as lp eqn:Elp.
  set (L := Z.to_nat lp). set (R := Z.to_nat (width - len - lp)).
  exists L, R, (replicate L 45 ++ text ++ replicate R 45 ++
                0 :: drop (S (Z.to_nat width)) buff).
  assert (Z.of_nat L = lp) as HL by lia.
  assert (Z.of_nat R = width - len - lp) as HR by lia.
  split; [done|]. split; [lia|]. split; [lia|].
  assert (Misc.strcenter text width buff (Z.of_nat (length buff)) =
          Misc.Ret (replicate L 45 ++ text ++ replicate R 45 ++
                    0 :: drop (S (Z.to_nat width)) buff)) as Eres.
  { rewrite E.
    rewrite (fill_splice (replicate L 45) _ lp _ _ 0%nat buff).
    2:{ by rewrite length_replicate. }
    2:{ lia. }
    2:{ rewrite length_replicate. lia. }
    2:{ intros k c Hk. apply replicate_lookup_Some in Hk as ->. split; [|done].
        by rewrite Z.add_0_l. }
    2:{ rewrite length_replicate. lia. }
    cbn.
    assert (length (Misc.splice 0 (replicate L 45) buff) = length buff) as Hl1.
    { apply splice_length. rewrite length_replicate. lia. }
    rewrite (fill_splice text _ len _ _ L).
    2:{ done. }
    2:{ lia. }
    2:{ rewrite Hl1. lia. }
    2:{ intros k c Hk. pose proof (lookup_lt_Some _ _ _ Hk). split.
        - rewrite HL. apply int_in. unfold Misc.INT_MIN, Misc.INT_MAX in *. lia.
        - apply rd_Some; [lia|]. by rewrite Nat2Z.id. }
    2:{ lia. }
    cbn.
    assert (length (Misc.splice L text (Misc.splice 0 (replicate L 45) buff))
            = length buff) as Hl2.
    { rewrite splice_length; [done|]. rewrite Hl1. lia. }
    rewrite (fill_splice (replicate R 45) _ (width - len - lp) _ _ (L + length text)%nat).
    2:{ rewrite length_replicate. lia. }
    2:{ lia. }
    2:{ rewrite length_replicate, Hl2. lia. }
    2:{ intros k c Hk. pose proof (lookup_lt_Some _ _ _ Hk) as Hlt.
        rewrite length_replicate in Hlt.
        apply replicate_lookup_Some in Hk as ->. split; [|done].
        rewrite int_in by (unfold Misc.INT_MIN, Misc.INT_MAX in *; lia). cbn.
        rewrite int_in by (unfold Misc.INT_MIN, Misc.INT_MAX in *; lia).
        f_equal. lia. }
    2:{ rewrite length_replicate. lia. }
    cbn.
    replace width with (Z.of_nat (L + length text + R)) at 1 by lia.
    rewrite wr_splice.
    2:{ rewrite splice_length; [lia|]. rewrite length_replicate, Hl2. lia. }
    f_equal.
    rewrite (splice_app' 0 L) by (rewrite ?length_replicate; lia).
    rewrite (splice_app' 0 (L + length text))
      by (rewrite ?length_app, ?length_replicate; lia).
    rewrite (splice_app' 0 (L + length text + R))
      by (rewrite ?length_app, ?length_replicate; cbn; lia).
    unfold Misc.splice. rewrite take_0, <- !app_assoc. cbn [app].
    do 5 f_equal. rewrite !length_app, !length_replicate. cbn. lia. }
  split; [done|]. split; [done|]. intros H0.
  rewrite !app_assoc. apply cstring_app.
  rewrite !not_elem_of_app. split_and!; [|done|].
  all: intros Hin; by apply elem_of_replicate in Hin as [? _].
Qed.

(** "abc" in a field of 9 and a buffer of 12. *)
Lemma strcenter_centers_witness :
  Misc.strcenter [97; 98; 99] 9 (replicate 12 1) 12 =
  Misc.Ret [45; 45; 45; 97; 98; 99; 45; 45; 45; 0; 1; 1].
Proof.
  destruct (strcenter_centers [97; 98; 99] 9 (replicate 12 1))
    as (lpad & rpad & b & Hl & Hsum & Hr & E & -> & _);
    [cbn; lia|cbn; lia|vm_compute; discriminate|].
  change ((9 - Z.of_nat (length [97; 98; 99])) / 2) with 3 in Hl.
  assert (lpad = 3%nat) as -> by lia.
  assert (rpad = 3%nat) as -> by (cbn in Hsum; lia).
  exact E.
Defined.

(** X26: strcenter does not check the field against the buffer: when the
    text fits in the buffer but the width is the size of the buffer or more
    (and at most INT_MAX), a write goes past the end of the buffer, at the
    latest that of the final NUL at buff[width]: undefined behaviour. *)
Theorem strcenter_overflows (text : list Z) (width : Z) (buff : list Z) :
  Z.of_nat (length text) < Z.of_nat (length buff) ->
  Z.of_nat (length buff) <= width -> width <= Misc.INT_MAX ->
  Misc.strcenter text width buff (Z.of_nat (length buff)) = Misc.Undefined.
Proof.
  intros Hlen Hw Hmax.
  destruct (strcenter_unfold text width buff) as (Hl0 & Hr & E); [lia..|].
  cbv zeta in Hl0, Hr, E. rewrite E. clear E.
  set (len := Z.of_nat (length text)) in *.
  set (lp := (width - len) / 2) in *.
  destruct (fill_total (S (Z.to_nat lp)) 0 lp (fun i => Misc.Ret i)
              (fun _ => Misc.Ret 45) buff) as [->|(b1 & -> & Hl1)];
    [lia|done|eauto..|lia|done|].
  cbn.
  destruct (fill_total (S (Z.to_nat len)) 0 len (fun j => Misc.int (lp + j))
              (fun j => Misc.rd text j) b1) as [->|(b2 & -> & Hl2)];
    [lia|done|intros; apply int_cases|intros; apply rd_cases|lia|done|].
  cbn.
  destruct (fill_total (S (Z.to_nat (width - len - lp))) 0 (width - len - lp)
              (fun j => s ← Misc.int (lp + len); Misc.int (s + j))
              (fun _ => Misc.Ret 45) b2) as [->|(b3 & -> & Hl3)];
    [lia|done| |eauto|lia|done|].
  { intros k. destruct (int_cases (lp + len)) as [->|[i ->]]; [by left|].
    cbn. apply int_cases. }
  cbn. apply wr_out. lia.
Qed.

(** "abc" in a field of 12 and a buffer of 12. *)
Lemma strcenter_overflows_witness :
  Misc.strcenter [97; 98; 99] 12 (replicate 12 1) 12 = Misc.Undefined.
Proof.
  apply (strcenter_overflows [97; 98; 99] 12 (replicate 12 1));
    [cbn; lia|cbn; lia|vm_compute; discriminate].
Defined.

(** X27: a text that does not fit is cut, not centred: when the text has
    buffsize characters or more (and at most INT_MAX), the buffer holds the
    first buffsize - 1 characters of the text and a NUL, whatever the width;
    nothing is written when buffsize is 0. *)
Theorem strcenter_cuts_long_text (text : list Z) (width : Z) (buff : list Z) :
  Z.of_nat (length buff) <= Z.of_nat (length text) ->
  Z.of_nat (length text) <= Misc.INT_MAX ->
  Misc.strcenter text width buff (Z.of_nat (length buff)) =
    Misc.Ret (if decide (buff = []) then []
              else take (length buff - 1) text ++ [0]) ∧
  (buff ≠ [] -> 0 ∉ text ->
   Misc.cstring (take (length buff - 1) text ++ [0]) = take (length buff - 1) text).
Proof.
  intros Hlen Hmax. split.
  - unfold Misc.strcenter. rewrite to_int_small by done.
    rewrite unsigned_small by lia. rewrite decide_True by lia.
    unfold Misc.snprintf_s. destruct buff as [|c buff]; [done|].
    rewrite decide_False by (cbn; lia). rewrite (decide_False (P := c :: buff = [])) by done.
    replace (Z.to_nat (Z.of_nat (length (c :: buff)) - 1)) with (length (c :: buff) - 1)%nat
      by lia.
    assert (length (take (length (c :: buff) - 1) text ++ [0]) = length (c :: buff)) as El.
    { rewrite length_app, length_take. cbn in *. lia. }
    rewrite decide_True by lia. rewrite El, drop_all, app_nil_r. done.
  - intros _ H0. apply cstring_app. intros Hin. apply H0.
    by apply elem_of_take in Hin as (? & ?%list_elem_of_lookup_2 & ?).
Qed.

(** "abcde" and a buffer of 4. *)
Lemma strcenter_cuts_long_text_witness :
  Misc.strcenter [97; 98; 99; 100; 101] 9 (replicate 4 1) 4 = Misc.Ret [97; 98; 99; 0].
Proof.
  apply (strcenter_cuts_long_text [97; 98; 99; 100; 101] 9 (replicate 4 1));
    [cbn; lia|vm_compute; discriminate].
Defined.

(** X28: a field narrower than the text cuts the text: when the width is
    less than the length of the text and the text fits in the buffer, the
    text is copied to the start of the buffer and a NUL is then written at
    buff[width], so that the buffer holds the first width characters of the
    text (rpad, computed on unsigned, is converted to the negative
    width - strlen(text), as gcc and clang do). *)
Theorem strcenter_narrow_field (text : list Z) (width : Z) (buff : list Z) :
  0 <= width -> width < Z.of_nat (length text) ->
  Z.of_nat (length text) < Z.of_nat (length buff) ->
  Z.of_nat (length buff) <= Misc.INT_MAX ->
  Misc.strcenter text width buff (Z.of_nat (length buff)) =
    Misc.Ret (take (Z.to_nat width) text ++
              0 :: drop (S (Z.to_nat width)) text ++ drop (length text) buff) ∧
  (0 ∉ text ->
   Misc.cstring (take (Z.to_nat width) text ++
                 0 :: drop (S (Z.to_nat width)) text ++ drop (length text) buff)
   = take (Z.to_nat width) text).
Proof.
  intros Hw0 Hw Hlen Hmax. split.
  - unfold Misc.strcenter. rewrite to_int_small by lia.
    set (len := Z.of_nat (length text)) in *.
    assert (2 ^ 31 = 2147483648) as E31 by done.
    assert (2 ^ 32 = 4294967296) as E32 by done.
    unfold Misc.INT_MAX in *.
    rewrite (unsigned_id len) by lia.
    rewrite decide_False by lia. rewrite decide_False by lia.
    rewrite (unsigned_id 0) by lia. rewrite (unsigned_neg (width - len)) by lia.
    rewrite Z.sub_0_r. rewrite (unsigned_id (width - len + 2 ^ 32)) by lia.
    rewrite of_unsigned_big by lia.
    replace (width - len + 2 ^ 32 - 2 ^ 32) with (width - len) by lia.
    change (Z.to_nat 0) with 0%nat. rewrite (fill_S 0 0 0).
    rewrite decide_False by lia. cbn.
    rewrite (fill_splice text _ len _ _ 0%nat).
    2:{ done. }
    2:{ unfold Misc.INT_MAX. lia. }
    2:{ lia. }
    2:{ intros k c Hk. pose proof (lookup_lt_Some _ _ _ Hk). split.
        - rewrite Z.add_0_l. apply int_in. unfold Misc.INT_MIN, Misc.INT_MAX. lia.
        - apply rd_Some; [lia|]. by rewrite Nat2Z.id. }
    2:{ lia. }
    cbn. replace (Z.to_nat (width - len)) with 0%nat by lia.
    rewrite fill_S. rewrite decide_False by lia. cbn.
    rewrite int_in by (unfold Misc.INT_MIN, Misc.INT_MAX; lia). cbn.
    rewrite int_in by (unfold Misc.INT_MIN, Misc.INT_MAX; lia). cbn.
    replace (0 + len + (width - len)) with width by lia.
    unfold Misc.splice. rewrite take_0. cbn [app]. rewrite Nat.add_0_l.
    rewrite wr_in by (rewrite length_app, length_drop; lia). f_equal.
    rewrite insert_app_l by lia. rewrite insert_take_drop by lia.
    by rewrite <- app_assoc.
  - intros H0. apply cstring_app. intros Hin. apply H0.
    by apply elem_of_take in Hin as (? & ?%list_elem_of_lookup_2 & ?).
Qed.

(** "abc" in a field of 2 and a buffer of 12. *)
Lemma strcenter_narrow_field_witness :
  Misc.strcenter [97; 98; 99] 2 (replicate 12 1) 12 =
  Misc.Ret [97; 98; 0; 1; 1; 1; 1; 1; 1; 1; 1; 1].
Proof.
  apply (strcenter_narrow_field [97; 98; 99] 2 (replicate 12 1));
    [lia|cbn; lia|cbn; lia|vm_compute; discriminate].
Defined.

(** ** Whole executions: assertions, the mutex, the threads *)

Section Executions.

Context {Mem : Type} (jobsem : Z -> Z -> Mem -> Mem).
Implicit Types (s : State Mem) (c : Choice) (ws : list WorkerPC).

(** The assertions of jobqueue.c (lines 122, 179, 184 and 256) hold
    where they are evaluated. *)
Lemma assert_step NDEBUG n p0 m0 s c s' :
  Inv1 jobsem n p0 m0 s -> Inv2 s ->
  step jobsem NDEBUG c s = Some s' -> status s' ≠ Aborted.
Proof.
  intros H1 H2 Hs. inv1 H1. inv2 H2.
  assert (jq_live s = true -> jq s ≠ NULL) as Hjq.
  { unfold jq_live. intros E%bool_decide_eq_true. congruence. }
  step_inv Hs; try congruence.
  all: try match goal with
           | E : negb (jq_live _) = false |- _ =>
               apply negb_false_iff in E; specialize (Hjq E)
           end.
  all: try match goal with
           | E : _ || _ = false |- _ =>
               apply orb_false_elim in E as [_ E]; apply bool_decide_eq_false in E
           end.
  all: try done.
  pose proof (main_fact_workers _ _ _ _ i_main Heqo) as Hun.
  destruct (i_fields Hun) as [[Ha|Ha] _]; [congruence|].
  specialize (i_worker _ _ Heqo). cbn in i_worker. intros _. apply i_worker. done.
Qed.

Lemma step_NDEBUG n p0 m0 s c :
  Inv1 jobsem n p0 m0 s -> Inv2 s ->
  step jobsem true c s = step jobsem false c s.
Proof.
  intros H1 H2.
  destruct (step jobsem false c s) as [s'|] eqn:E.
  - pose proof (assert_step false _ _ _ _ _ _ H1 H2 E) as Hst.
    revert E Hst. unfold step, step_main, step_worker, assert_. cbn.
    repeat case_match; intros; simplify_eq/=; try done.
  - revert E. unfold step, step_main, step_worker, assert_. cbn.
    repeat case_match; intros; simplify_eq/=; try done.
Qed.

Lemma run_NDEBUG n p0 m0 cs s :
  Inv1 jobsem n p0 m0 s -> Inv2 s ->
  run jobsem true cs s = run jobsem false cs s.
Proof.
  revert s. induction cs as [|c cs IH]; intros s H1 H2; [done|].
  cbn. rewrite (step_NDEBUG _ _ _ _ c H1 H2).
  destruct (step jobsem false c s) as [s'|] eqn:E; [|done].
  apply IH.
  - eapply Inv1_step; eauto.
  - eapply Inv2_step; eauto.
Qed.

(** The mutex is held by the thread that is in its critical section. *)
Lemma critical_lock n p0 m0 s t :
  Inv1 jobsem n p0 m0 s -> (in_critical t s = true <-> lock (q s) = Some t).
Proof.
  intros H1. inv1 H1. destruct t as [|i]; cbn; [done|].
  destruct (workers s !! i) as [pc|] eqn:E.
  - by apply i_lock_worker.
  - split; [done|]. intros Hl. apply i_lock_range in Hl as [pc Hl]. congruence.
Qed.

(** A step that writes jq->todo, jq->acceptingJobs or jq->threadsStopped is
    a step of the thread that holds the mutex; lines 91-93 apart, which run
    before the mutex exists. *)
Lemma write_step NDEBUG n p0 m0 s c s' :
  Inv1 jobsem n p0 m0 s -> uninit (mainpc s) = false ->
  step jobsem NDEBUG c s = Some s' ->
  todo (q s') ≠ todo (q s) ∨ acceptingJobs (q s') ≠ acceptingJobs (q s) ∨
    threadsStopped (q s') ≠ threadsStopped (q s) ->
  lock (q s) = Some (who c).
Proof.
  intros H1 Hun Hs Hw. inv1 H1.
  assert (forall i pc, who c = Worker i -> workers s !! i = Some pc ->
            worker_holds pc = true -> lock (q s) = Some (who c)) as Hwk.
  { intros i pc -> Hi Hh. by apply (i_lock_worker _ _ Hi). }
  assert (who c = Main -> main_holds (mainpc s) = true -> lock (q s) = Some (who c))
    as Hmn.
  { intros -> Hh. by apply i_lock_main. }
  step_inv Hs; try (exfalso; clear -Hw; intuition congruence).
  all: try (by eapply Hwk; eauto).
  all: try (by apply Hmn).
Qed.

(** pthread_create is called for the indices 0, 1, 2, ... in turn, once for
    each worker there is. *)
Lemma creates_step NDEBUG n p0 m0 s c s' :
  Inv1 jobsem n p0 m0 s ->
  creates (hist s) = reverse (seqZ 0 (Z.of_nat (length (workers s)))) ->
  step jobsem NDEBUG c s = Some s' ->
  creates (hist s') = reverse (seqZ 0 (Z.of_nat (length (workers s')))).
Proof.
  intros H1 Hc Hs. inv1 H1.
  step_inv Hs; rewrite ?length_insert; try done.
  rewrite length_app. cbn. rewrite Nat2Z.inj_add. cbn.
  rewrite seqZ_app, reverse_app by lia. cbn. rewrite Hc.
  unfold main_fact in i_main. rewrite Heqm in i_main.
  destruct i_main as (_ & _ & _ & ->). by rewrite Z.add_0_l.
Qed.

Lemma creates_run NDEBUG n p0 q0 m0 cs s :
  run jobsem NDEBUG cs (init n p0 q0 m0) = Some s ->
  Inv1 jobsem n p0 m0 s ∧
  creates (hist s) = reverse (seqZ 0 (Z.of_nat (length (workers s)))).
Proof.
  apply (run_invariant jobsem NDEBUG
           (fun s => Inv1 jobsem n p0 m0 s ∧
              creates (hist s) = reverse (seqZ 0 (Z.of_nat (length (workers s)))))).
  - intros c s1 s2 [H1 Hc] Hs. split.
    + eapply Inv1_step; eauto.
    + eapply creates_step; eauto.
  - split; [apply Inv1_init|done].
Qed.


End Executions.


(** ** jobqueue.c: properties of every execution *)

(** X15: the assertions of jobqueue.c (lines 122, 179, 184 and 256) never
    fail: no execution of JobQueue_new(n) followed by any calls of the owner
    ends in abort, and the library compiled with -DNDEBUG behaves, step for
    step, like the library compiled without. *)
Theorem assertions_never_fail {Mem : Type} (jobsem : Z -> Z -> Mem -> Mem)
    (NDEBUG : bool) (n : Z) (p0 : list Op) (q0 : JobQueue) (m0 : Mem)
    (cs : list Choice) (s : State Mem) :
  run jobsem NDEBUG cs (init n p0 q0 m0) = Some s ->
  status s ≠ Aborted ∧
  run jobsem true cs (init n p0 q0 m0) = Some s ∧
  run jobsem false cs (init n p0 q0 m0) = Some s.
Proof.
  intros Hr. split.
  - cut (Inv1 jobsem n p0 m0 s ∧ Inv2 s ∧ status s ≠ Aborted); [tauto|].
    revert Hr.
    apply (run_invariant jobsem NDEBUG
             (fun s => Inv1 jobsem n p0 m0 s ∧ Inv2 s ∧ status s ≠ Aborted)).
    + intros c s1 s2 (H1 & H2 & _) Hs. split_and!.
      * eapply Inv1_step; eauto.
      * eapply Inv2_step; eauto.
      * eapply assert_step; eauto.
    + split_and!; [apply Inv1_init|apply Inv2_init|done].
  - pose proof (run_NDEBUG jobsem n p0 m0 cs (init n p0 q0 m0)
                  (Inv1_init jobsem n p0 q0 m0) (Inv2_init n p0 q0 m0)) as E.
    destruct NDEBUG; [by rewrite <- E|by rewrite E].
Qed.

Lemma assertions_never_fail_witness :
  exists s : State Test.Mem,
    run Test.jobfunc false Test.sched_test Test.test_init = Some s ∧
    status s ≠ Aborted ∧
    run Test.jobfunc true Test.sched_test Test.test_init = Some s.
Proof.
  destruct (run Test.jobfunc false Test.sched_test Test.test_init)
    as [s|] eqn:E; [|vm_compute in E; discriminate E].
  exists s. split; [reflexivity|].
  destruct (assertions_never_fail Test.jobfunc false 1 (protocol Test.jobs [OpFree])
              Test.q0 Test.m0 Test.sched_test s E) as (H1 & H2 & _).
  split; [exact H1|exact H2].
Defined.

(** X16: the mutex excludes: in every state of every execution, the thread
    that is between a lock (or a return from pthread_cond_wait) and its next
    unlock (or pthread_cond_wait) is the one that holds the mutex, so no two
    threads are in a critical section of jobqueue.c at the same time. *)
Theorem mutex_excludes {Mem : Type} (jobsem : Z -> Z -> Mem -> Mem)
    (NDEBUG : bool) (n : Z) (p0 : list Op) (q0 : JobQueue) (m0 : Mem)
    (cs : list Choice) (s : State Mem) :
  run jobsem NDEBUG cs (init n p0 q0 m0) = Some s ->
  (forall t, in_critical t s = true <-> lock (q s) = Some t) ∧
  (forall t1 t2, in_critical t1 s = true -> in_critical t2 s = true -> t1 = t2).
Proof.
  intros Hr. destruct (Inv_run jobsem NDEBUG _ _ _ _ _ _ Hr) as [H1 _].
  split.
  - intros t. by eapply critical_lock.
  - intros t1 t2 Ht1 Ht2.
    apply (critical_lock jobsem _ _ _ _ _ H1) in Ht1, Ht2. congruence.
Qed.

(** The worker has taken the mutex at line 165 while the owner is between
    two calls. *)
Lemma mutex_excludes_witness :
  exists s : State Test.Mem,
    run Test.jobfunc false (Test.sched_submit ++ [Test.W 0]) Test.test_init = Some s ∧
    lock (q s) = Some (Worker 0) ∧ in_critical Main s = false.
Proof.
  destruct (run Test.jobfunc false (Test.sched_submit ++ [Test.W 0]) Test.test_init)
    as [s|] eqn:E; [|vm_compute in E; discriminate E].
  exists s. split; [reflexivity|].
  destruct (mutex_excludes Test.jobfunc false 1 (protocol Test.jobs [OpFree])
              Test.q0 Test.m0 _ s E) as [H1 H2].
  assert (in_critical (Worker 0) s = true) as Hw
    by (vm_compute in E; injection E as <-; reflexivity).
  split; [by apply H1|].
  destruct (in_critical Main s) eqn:Hm; [|reflexivity].
  discriminate (H2 _ _ Hm Hw).
Defined.

(** X17: the shared fields are written under the mutex: once lines 91-93
    of JobQueue_new have run, a step that changes jq->todo, jq->acceptingJobs
    or jq->threadsStopped is a step of the thread that holds the mutex. *)
Theorem shared_fields_written_under_lock {Mem : Type} (jobsem : Z -> Z -> Mem -> Mem)
    (NDEBUG : bool) (n : Z) (p0 : list Op) (q0 : JobQueue) (m0 : Mem)
    (cs : list Choice) (s s' : State Mem) (c : Choice) :
  run jobsem NDEBUG cs (init n p0 q0 m0) = Some s ->
  uninit (mainpc s) = false ->
  step jobsem NDEBUG c s = Some s' ->
  todo (q s') ≠ todo (q s) ∨ acceptingJobs (q s') ≠ acceptingJobs (q s) ∨
    threadsStopped (q s') ≠ threadsStopped (q s) ->
  lock (q s) = Some (who c) ∧ in_critical (who c) s = true.
Proof.
  intros Hr Hun Hs Hw. destruct (Inv_run jobsem NDEBUG _ _ _ _ _ _ Hr) as [H1 _].
  pose proof (write_step jobsem NDEBUG _ _ _ _ _ _ H1 Hun Hs Hw) as Hl.
  split; [done|]. by eapply critical_lock.
Qed.

(** The owner links a job at line 137. *)
Lemma shared_fields_written_under_lock_witness :
  exists s s' : State Test.Mem,
    run Test.jobfunc false (Test.sched_new 1 ++ [Test.M; Test.Mp 30; Test.M; Test.M; Test.M])
      Test.test_init = Some s ∧
    step Test.jobfunc false Test.M s = Some s' ∧
    todo (q s) = NULL ∧ todo (q s') = 30 ∧ lock (q s) = Some Main.
Proof.
  destruct (run Test.jobfunc false
              (Test.sched_new 1 ++ [Test.M; Test.Mp 30; Test.M; Test.M; Test.M])
              Test.test_init) as [s|] eqn:E; [|vm_compute in E; discriminate E].
  destruct (step Test.jobfunc false Test.M s) as [s'|] eqn:E';
    [|vm_compute in E; injection E as <-; vm_compute in E'; discriminate E'].
  exists s, s'. split; [reflexivity|]. split; [exact E'|].
  assert (todo (q s) = NULL ∧ todo (q s') = 30 ∧ uninit (mainpc s) = false)
    as (H0 & H30 & Hun).
  { vm_compute in E. injection E as <-. vm_compute in E'. injection E' as <-.
    split_and!; reflexivity. }
  split; [exact H0|]. split; [exact H30|].
  apply (shared_fields_written_under_lock Test.jobfunc false 1
           (protocol Test.jobs [OpFree]) Test.q0 Test.m0 _ s s' Test.M E Hun E').
  left. rewrite H0, H30. done.
Defined.

(** X18: JobQueue_new(n) starts exactly n threads (none when n is not
    positive): pthread_create is called for the indices 0, 1, ..., in this
    order, once each; there are never more than n workers, and from the
    return of JobQueue_new on there are n of them and jq->nthreads is n. *)
Theorem JobQueue_new_starts_n_threads {Mem : Type} (jobsem : Z -> Z -> Mem -> Mem)
    (NDEBUG : bool) (n : Z) (p0 : list Op) (q0 : JobQueue) (m0 : Mem)
    (cs : list Choice) (s : State Mem) :
  run jobsem NDEBUG cs (init n p0 q0 m0) = Some s ->
  creates (hist s) = reverse (seqZ 0 (Z.of_nat (length (workers s)))) ∧
  Z.of_nat (length (workers s)) <= Z.max 0 n ∧
  (constructing (mainpc s) = false ->
   Z.of_nat (length (workers s)) = Z.max 0 n ∧ nthreads (q s) = n).
Proof.
  intros Hr. destruct (creates_run jobsem NDEBUG _ _ _ _ _ _ Hr) as [H1 Hc].
  split; [done|]. inv1 H1. unfold main_fact in i_main.
  destruct (mainpc s); cbn; split; try done; try lia.
  all: try (destruct i_main as [_ ->]; cbn; lia).
Qed.

Lemma JobQueue_new_starts_n_threads_witness :
  exists s : State Test.Mem,
    run Test.jobfunc false (Test.sched_new 3) (init 3 [] Test.q0 Test.m0) = Some s ∧
    creates (hist s) = [2; 1; 0] ∧ length (workers s) = 3%nat.
Proof.
  destruct (run Test.jobfunc false (Test.sched_new 3) (init 3 [] Test.q0 Test.m0))
    as [s|] eqn:E; [|vm_compute in E; discriminate E].
  exists s. split; [reflexivity|].
  destruct (JobQueue_new_starts_n_threads Test.jobfunc false 3 [] Test.q0 Test.m0
              _ s E) as (Hc & _ & Hn).
  destruct Hn as [Hn _]; [vm_compute in E; injection E as <-; reflexivity|].
  assert (length (workers s) = 3%nat) as Hl by lia.
  rewrite Hl in Hc. split; [exact Hc|exact Hl].
Defined.



(** ** Memory safety of a protocol run *)

Ltac inv5 H := destruct H as [f_suffix f_last f_new f_waited f_free f_live].

Section Safety.

Context {Mem : Type} (jobsem : Z -> Z -> Mem -> Mem) (NDEBUG : bool).
Implicit Types (s : State Mem) (c : Choice) (ws : list WorkerPC).

Lemma free_last_protocol jobs rest :
  free_last rest = true -> free_last (protocol jobs rest) = true.
Proof. intros Hr. induction jobs as [|[f x] jobs IH]; done. Qed.

Lemma Inv5_init n jobs rest q0 (m0 : Mem) :
  free_last rest = true -> Inv5 jobs rest (init n (protocol jobs rest) q0 m0).
Proof.
  intros Hr. split; cbn.
  - by exists [].
  - by apply free_last_protocol.
  - intros _. unfold protocol. rewrite length_app, length_cons. lia.
  - unfold protocol. rewrite length_app, length_cons. lia.
  - done.
  - done.
Qed.

Lemma Inv5_suffix jobs rest s c s' :
  Inv5 jobs rest s -> step jobsem NDEBUG c s = Some s' ->
  exists done, protocol jobs rest = done ++ prog s'.
Proof.
  intros H5 Hs. inv5 H5. destruct f_suffix as [done Hd].
  destruct (step_prog jobsem NDEBUG _ _ _ Hs) as [[-> _]|(_ & op & Hop & _)]; [eauto|].
  exists (done ++ [op]). by rewrite <- app_assoc, Hd, Hop.
Qed.

Lemma Inv5_last jobs rest s c s' :
  Inv5 jobs rest s -> step jobsem NDEBUG c s = Some s' ->
  free_last (prog s') = true.
Proof.
  intros H5 Hs. inv5 H5.
  destruct (step_prog jobsem NDEBUG _ _ _ Hs) as [[-> _]|(_ & op & Hop & _)]; [done|].
  rewrite Hop in f_last. destruct op; cbn in f_last; try done.
  by destruct (prog s').
Qed.

Lemma Inv5_new jobs rest s c s' :
  Inv5 jobs rest s -> step jobsem NDEBUG c s = Some s' ->
  constructing (mainpc s') = true -> (length rest < length (prog s'))%nat.
Proof.
  intros H5 Hs. inv5 H5. step_inv Hs; try done.
  by destruct o.
Qed.

Lemma Inv5_waited jobs rest s c s' :
  Inv5 jobs rest s -> step jobsem NDEBUG c s = Some s' ->
  (length (prog s') <= length rest)%nat ->
  mainpc s' = Wait_221 ∨ mainpc s' = Wait_225 ∨ acceptingJobs (q s') = 0.
Proof.
  intros H5 Hs. inv5 H5. destruct f_suffix as [done Hd].
  step_inv Hs.
  all: try (intros Hlen; specialize (f_waited Hlen); cbn in *; intuition congruence).
  all: try (intros Hlen; cbn in *; intuition (congruence || lia)).
  intros Hlen. destruct (decide (length l = length rest)) as [E|E].
  - destruct (protocol_suffix _ _ _ _ _ Hd) as [_ Hw].
    destruct (Hw E) as [-> _]. by left.
  - right. right. destruct f_waited as [?|[?|?]]; [lia|done..].
Qed.

(** When the owner is about to call JobQueue_free, every worker has
    returned. *)
Lemma free_entry n jobs rest m0 s tl :
  Inv1 jobsem n (protocol jobs rest) m0 s -> Inv3 s -> Inv5 jobs rest s ->
  mainpc s = Ready -> prog s = OpFree :: tl ->
  tl = [] ∧ all_exited (workers s).
Proof.
  intros H1 H3 H5 Hpc Hp. inv5 H5. inv3 H3. destruct f_suffix as [done Hd].
  rewrite Hp in *. split; [cbn in f_last; by destruct tl|].
  destruct (protocol_suffix _ _ _ _ _ Hd) as [Hadd Hw].
  assert (length tl < length rest)%nat as Hlen.
  { destruct (decide (length rest < length tl)%nat) as [Hl|Hl].
    - by destruct (Hadd Hl) as (f & x & ?).
    - destruct (decide (length tl = length rest)) as [E|E]; [|lia].
      by destruct (Hw E). }
  rewrite Hpc in *.
  destruct f_waited as [?|[?|Ha]]; [cbn; lia|done..|].
  destruct (d_drain eq_refl Ha) as [?|?]; done.
Qed.

Lemma Inv5_free n jobs rest m0 s c s' :
  Inv1 jobsem n (protocol jobs rest) m0 s -> Inv3 s -> Inv5 jobs rest s ->
  step jobsem NDEBUG c s = Some s' ->
  in_free (mainpc s') = true -> prog s' = [] ∧ all_exited (workers s').
Proof.
  intros H1 H3 H5 Hs.
  pose proof (fun tl => free_entry _ _ _ _ _ tl H1 H3 H5) as Hentry.
  inv5 H5.
  assert (in_free (mainpc s) = true -> who c = Main) as Hmain.
  { intros Hf. eapply step_all_exited; [done|]. by apply f_free. }
  step_inv Hs; try done.
  all: try (intros _; by apply f_free).
  all: try (intros Hf; specialize (Hmain Hf); discriminate Hmain).
  destruct o; cbn; try done. intros _. by apply Hentry.
Qed.

Lemma jq_live_eq s s' :
  jq s' = jq s -> heap s' !! jq s = heap s !! jq s -> jq_live s' = jq_live s.
Proof. unfold jq_live. by intros -> ->. Qed.

(** A worker moves only while the queue is allocated and in use. *)
Lemma worker_moves n jobs rest m0 s c s' i :
  Inv1 jobsem n (protocol jobs rest) m0 s -> Inv2 s -> Inv5 jobs rest s ->
  step jobsem NDEBUG c s = Some s' -> who c = Worker i ->
  exists pc l, workers s !! i = Some pc ∧ jq_live s = true ∧
    in_free (mainpc s) = false ∧ heap_ok s l.
Proof.
  intros H1 H2 H5 Hs Hw. inv5 H5. inv2 H2. inv1 H1.
  assert (exists pc, workers s !! i = Some pc ∧ pc ≠ Thr_212) as (pc & Hpc & Hne).
  { revert Hs. unfold step. destruct (status s); try done. rewrite Hw.
    destruct (workers s !! i) as [pc|]; [|done]. intros Hs. exists pc.
    split; [done|]. by intros ->. }
  assert (¬ all_exited (workers s)) as Hex.
  { intros Ha. by apply Hne, (Ha i). }
  assert (in_free (mainpc s) = false) as Hfree.
  { destruct (in_free (mainpc s)); [|done]. by destruct f_free. }
  assert (jq_live s = true) as Hlive.
  { unfold live_fact, main_fact in *. destruct (mainpc s); try done.
    - destruct f_live as [?|[_ ?]]; done.
    - destruct i_main as [_ Hnil]. by rewrite Hnil in Hpc.
    - destruct i_main as [_ Hnil]. by rewrite Hnil in Hpc. }
  specialize (h_live Hlive).
  assert (exists l, heap_ok s l) as [l Hl].
  { unfold heap_fact, main_fact in *. destruct (mainpc s); try done.
    all: try (by destruct h_live).
    all: destruct i_main as [_ Hnil]; by rewrite Hnil in Hpc. }
  by exists pc, l.
Qed.

(** A worker moves only while the queue is allocated; its step leaves the
    owner's program point alone, and in the heap every block that is not a
    job cell. *)
Lemma worker_step_frame n jobs rest m0 s c s' i :
  Inv1 jobsem n (protocol jobs rest) m0 s -> Inv2 s -> Inv5 jobs rest s ->
  step jobsem NDEBUG c s = Some s' -> who c = Worker i ->
  mainpc s' = mainpc s ∧ jq s' = jq s ∧ prog s' = prog s ∧
  thread (q s') = thread (q s) ∧ nthreads (q s') = nthreads (q s) ∧
  jq_live s = true ∧ in_free (mainpc s) = false ∧
  (forall a b, heap s !! a = Some b -> (forall nx x f, b ≠ BJob nx x f) ->
     heap s' !! a = Some b).
Proof.
  intros H1 H2 H5 Hs Hw.
  destruct (worker_moves _ _ _ _ _ _ _ _ H1 H2 H5 Hs Hw)
    as (pc & l & Hpc & Hlive & Hfree & Hl).
  invk Hl. step_inv Hs; try done.
  split_and!; try done. intros a blk Ha Hb.
  rewrite lookup_delete_ne; [done|]. intros ->.
  destruct (k_held a) as (nx & x & f & E).
  - unfold held. apply elem_of_app. right. apply elem_of_gather.
    exists i, (Thr_197 a). split; [done|]. cbn. apply list_elem_of_here.
  - rewrite Ha in E. simplify_eq. by eapply Hb.
Qed.

Lemma Inv5_live n jobs rest m0 s c s' :
  Inv1 jobsem n (protocol jobs rest) m0 s -> Inv2 s -> Inv3 s -> Inv5 jobs rest s ->
  step jobsem NDEBUG c s = Some s' -> live_fact s'.
Proof.
  intros H1 H2 H3 H5 Hs.
  pose proof (fun tl => free_entry _ _ _ _ _ tl H1 H3 H5) as Hentry.
  destruct (who c) as [|i] eqn:Hw.
  2:{ destruct (worker_step_frame _ _ _ _ _ _ _ _ H1 H2 H5 Hs Hw)
        as (Hpc & Hjq & Hp & Ht & Hn & Hlive & Hfree & Hkeep).
      assert (jq_live s' = true) as Hlive'.
      { unfold jq_live in *. apply bool_decide_eq_true in Hlive.
        apply bool_decide_eq_true. rewrite Hjq. by apply Hkeep. }
      unfold live_fact. rewrite Hpc. destruct (mainpc s); try done; auto. }
  inv5 H5. inv2 H2. inv1 H1. unfold live_fact in *.
  step_inv Hs; try done.
  all: unfold jq_live in *; cbn in *.
  all: repeat match goal with
              | H : negb (bool_decide _) = false |- _ =>
                  apply negb_false_iff, bool_decide_eq_true in H
              end.
  all: rewrite ?bool_decide_eq_true in *.
  all: try done.
  all: try (by left).
  all: try (rewrite lookup_insert_ne; [done|congruence]).
  all: try (left; rewrite lookup_insert_ne; [done|congruence]).
  - destruct f_live as [Hl|[? _]]; [|done].
    destruct o; cbn; by rewrite ?bool_decide_eq_true.
  - right. by rewrite lookup_insert_eq.
  - by destruct f_live.
  - pose proof f_live as Hl. specialize (h_live Hl).
    unfold heap_fact in h_live. rewrite Heqm in h_live.
    destruct h_live as [[l Hok] Hth]. invk Hok.
    match goal with
    | H : Job_free _ _ _ = Done _ |- _ => apply (Job_free_Done _ _ _ _ _ k_chain) in H as ->
    end.
    assert (forall a b, heap s !! a = Some b -> (forall nx x f, b ≠ BJob nx x f) ->
              free_all l.*1 (heap s) !! a = Some b) as Hkeep.
    { intros a b Ha Hb. rewrite free_all_lookup, decide_False; [done|].
      intros Hin. destruct (chain_alloc _ _ _ _ k_chain Hin) as (nx & x & f & E).
      rewrite Ha in E. simplify_eq. by eapply Hb. }
    split; [by apply Hkeep|].
    unfold thread_ok in *. cbn. destruct Hth as [?|Hth]; [by left|].
    right. by apply Hkeep.
  - destruct f_live as [Hl Hth]. rewrite lookup_delete_ne; [done|].
    intros E. unfold thread_ok in Hth. destruct Hth as [?|Ht]; [done|].
    rewrite E in Ht. congruence.
  - right. by apply f_free.
Qed.

Lemma Inv5_step n jobs rest m0 s c s' :
  Inv1 jobsem n (protocol jobs rest) m0 s -> Inv2 s -> Inv3 s -> Inv5 jobs rest s ->
  step jobsem NDEBUG c s = Some s' -> Inv5 jobs rest s'.
Proof.
  intros H1 H2 H3 H5 Hs. split.
  - eapply Inv5_suffix; eauto.
  - eapply Inv5_last; eauto.
  - eapply Inv5_new; eauto.
  - eapply Inv5_waited; eauto.
  - eapply Inv5_free; eauto.
  - eapply Inv5_live; eauto.
Qed.

Lemma Inv5_run n jobs rest q0 m0 cs s :
  free_last rest = true ->
  run jobsem NDEBUG cs (init n (protocol jobs rest) q0 m0) = Some s ->
  Inv1 jobsem n (protocol jobs rest) m0 s ∧ Inv2 s ∧ Inv3 s ∧ Inv5 jobs rest s.
Proof.
  intros Hfl.
  apply (run_invariant jobsem NDEBUG
           (fun s => Inv1 jobsem n (protocol jobs rest) m0 s ∧ Inv2 s ∧ Inv3 s ∧
                     Inv5 jobs rest s)).
  - intros c s1 s2 (H1 & H2 & H3 & H5) Hs. split_and!.
    + eapply Inv1_step; eauto.
    + eapply Inv2_step; eauto.
    + eapply Inv3_step; eauto.
    + eapply Inv5_step; eauto.
  - split_and!; [apply Inv1_init|apply Inv2_init|apply Inv3_init|by apply Inv5_init].
Qed.






End Safety.

(** ** jobqueue.c: memory safety *)





(** ** Nothing is leaked *)


Section Leaks.

Context {Mem : Type} (jobsem : Z -> Z -> Mem -> Mem) (NDEBUG : bool).
Implicit Types (s : State Mem) (c : Choice) (ws : list WorkerPC).














End Leaks.



(** ** Calls and signals *)

Section Calls.

Context {Mem : Type} (jobsem : Z -> Z -> Mem -> Mem) (NDEBUG : bool).
Implicit Types (s : State Mem) (c : Choice) (ws : list WorkerPC).

(** A job function is called for a job that was linked and not called
    before. *)
Lemma calls_step n jobs rest m0 s c s' :
  Inv1 jobsem n (protocol jobs rest) m0 s -> Inv2 s -> Inv5 jobs rest s ->
  calls (hist s) ⊆+ links (hist s) ->
  step jobsem NDEBUG c s = Some s' ->
  calls (hist s') ⊆+ links (hist s').
Proof.
  intros H1 H2 H5 Hsub Hs.
  destruct (who c) as [|i] eqn:Hw.
  - step_inv Hs; try done. by apply submseteq_cons.
  - destruct (worker_moves _ _ _ _ _ _ _ _ _ _ H1 H2 H5 Hs Hw)
      as (pc & l & Hpc & Hlive & Hfree & Hl).
    invk Hl. step_inv Hs; try done.
    rewrite k_links.
    rewrite (gather_insert_del (pending (heap s)) _ _ _ Thr_165 Heqo) by done.
    cbn. rewrite Heqo0. cbn.
    rewrite <- Permutation_middle. apply submseteq_skip.
    rewrite app_assoc. apply submseteq_inserts_l. done.
Qed.

Lemma calls_run n jobs rest q0 m0 cs s :
  free_last rest = true ->
  run jobsem NDEBUG cs (init n (protocol jobs rest) q0 m0) = Some s ->
  Inv1 jobsem n (protocol jobs rest) m0 s ∧ calls (hist s) ⊆+ links (hist s).
Proof.
  intros Hfl Hr.
  cut ((Inv1 jobsem n (protocol jobs rest) m0 s ∧ Inv2 s ∧ Inv3 s ∧ Inv5 jobs rest s) ∧
       calls (hist s) ⊆+ links (hist s)); [tauto|].
  revert Hr.
  apply (run_invariant jobsem NDEBUG
           (fun s => (Inv1 jobsem n (protocol jobs rest) m0 s ∧ Inv2 s ∧ Inv3 s ∧
                      Inv5 jobs rest s) ∧ calls (hist s) ⊆+ links (hist s))).
  - intros c s1 s2 [(H1 & H2 & H3 & H5) Hsub] Hs. split.
    + split_and!.
      * eapply Inv1_step; eauto.
      * eapply Inv2_step; eauto.
      * eapply Inv3_step; eauto.
      * eapply Inv5_step; eauto.
    + eapply calls_step; eauto.
  - split; [|done].
    split_and!; [apply Inv1_init|apply Inv2_init|apply Inv3_init|by apply Inv5_init].
Qed.

Lemma npast_insert ws i pc pc' :
  ws !! i = Some pc ->
  npast (<[i:=pc']> ws) + Z.of_nat (length (past_mark pc))
  = Z.of_nat (length (past_mark pc')) + npast ws.
Proof.
  intros Hi. unfold npast.
  pose proof (Permutation_length (gather_insert past_mark ws i pc pc' Hi)) as HL.
  rewrite !length_app in HL. lia.
Qed.

Lemma npast_same ws i pc pc' :
  ws !! i = Some pc -> past_201 pc' = past_201 pc ->
  npast (<[i:=pc']> ws) = npast ws.
Proof.
  intros Hi Hp. unfold npast.
  rewrite (gather_insert_same past_mark ws i pc pc' Hi); [done|].
  unfold past_mark. by rewrite Hp.
Qed.

(** With no worker at line 201, the workers past it are those counted in
    threadsStopped. *)
Lemma npast_nparked ws :
  (forall j pc, ws !! j = Some pc -> pc ≠ Thr_201) -> npast ws = nparked ws.
Proof.
  unfold npast, nparked, gather. induction ws as [|pc ws IH]; intros Hno; [done|].
  rewrite !bind_cons, !length_app, !Nat2Z.inj_add.
  rewrite IH by (intros j pc' Hj; by apply (Hno (S j))).
  f_equal. pose proof (Hno 0%nat pc eq_refl). by destruct pc.
Qed.

Lemma npast_le ws : 0 <= npast ws <= nparked ws.
Proof.
  unfold npast, nparked, gather. induction ws as [|pc ws IH]; [done|].
  rewrite !bind_cons, !length_app, !Nat2Z.inj_add.
  assert (length (past_mark pc) <= length (parked_mark pc))%nat by (by destruct pc; cbn; lia).
  lia.
Qed.

(** What the worker at line 201 sees. *)
Lemma at_201 n p0 m0 s i :
  Inv1 jobsem n p0 m0 s -> workers s !! i = Some Thr_201 ->
  npast (<[i:=Thr_207]> (workers s)) = threadsStopped (q s) ∧
  npast (workers s) = threadsStopped (q s) - 1 ∧
  nthreads (q s) = n ∧ 1 <= threadsStopped (q s) <= Z.max 0 n.
Proof.
  intros H1 Hi. inv1 H1.
  pose proof (main_fact_workers _ _ _ _ i_main Hi) as Hun.
  destruct (i_fields Hun) as [_ Hst].
  assert (lock (q s) = Some (Worker i)) as Hlock by (by apply (i_lock_worker _ _ Hi)).
  assert (npast (<[i:=Thr_207]> (workers s)) = nparked (workers s)) as E1.
  { rewrite npast_nparked.
    - pose proof (nparked_insert (workers s) i Thr_201 Thr_207 Hi) as E. cbn in E. lia.
    - intros j pc Hj ->. apply list_lookup_insert_Some in Hj as [(_ & ? & _)|[Hne Hj]];
        [done|].
      apply Hne.
      pose proof (proj1 (i_lock_worker _ _ Hj) eq_refl) as Hl. congruence. }
  pose proof (npast_insert (workers s) i Thr_201 Thr_207 Hi) as E2. cbn in E2.
  pose proof (npast_le (workers s)) as Hle.
  pose proof (nparked_bound (workers s)) as Hb.
  assert (nthreads (q s) = n ∧ Z.of_nat (length (workers s)) <= Z.max 0 n) as [Hn Hlen].
  { unfold main_fact in i_main. destruct (mainpc s);
      repeat match type of i_main with _ ∧ _ => destruct i_main as [? i_main] end;
      try (rewrite i_main in Hi; done);
      split; (done || lia). }
  lia.
Qed.

(** The owner's condition is signalled once, by the worker that finds
    threadsStopped equal to nthreads at line 201. *)
Lemma signal_step n p0 m0 s c s' :
  Inv1 jobsem n p0 m0 s -> signal_fact n s ->
  step jobsem NDEBUG c s = Some s' -> signal_fact n s'.
Proof.
  unfold signal_fact. intros H1 Hsig Hs. pose proof H1 as H1'. clear H1.
  step_inv Hs; try done.
  all: try (erewrite npast_same; [done|eassumption|done]).
  - unfold npast. by rewrite gather_snoc, app_nil_r.
  - destruct (at_201 _ _ _ _ _ H1' Heqo) as (E1 & E2 & E3 & E4).
    rewrite Hsig, E1, E2. rewrite decide_False by lia. rewrite decide_True by lia. done.
  - destruct (at_201 _ _ _ _ _ H1' Heqo) as (E1 & E2 & E3 & E4).
    rewrite Hsig, E1, E2. rewrite decide_False by lia. rewrite decide_False by lia. done.
Qed.

Lemma signal_run n p0 q0 m0 cs s :
  run jobsem NDEBUG cs (init n p0 q0 m0) = Some s ->
  Inv1 jobsem n p0 m0 s ∧ signal_fact n s.
Proof.
  apply (run_invariant jobsem NDEBUG (fun s => Inv1 jobsem n p0 m0 s ∧ signal_fact n s)).
  - intros c s1 s2 [H1 Hsig] Hs. split.
    + eapply Inv1_step; eauto.
    + eapply signal_step; eauto.
  - split; [apply Inv1_init|]. unfold signal_fact. cbn.
    rewrite decide_False; [done|]. unfold npast. rewrite gather_nil. cbn. lia.
Qed.

End Calls.

(** X23: no job function is called that was not submitted, and none more
    often than it was submitted: at every moment of an execution in which the
    owner submits jobs, waits and makes further calls (JobQueue_free last, if
    at all), the calls that have returned are among the calls made, the calls
    made are among the jobs linked into the list so far, and these are among
    the jobs of the owner's JobQueue_addJob calls, each counted as often as it
    occurs. *)
Theorem jobs_called_at_most_once {Mem : Type} (jobsem : Z -> Z -> Mem -> Mem)
    (NDEBUG : bool) (n : Z) (jobs : list (Z * Z)) (rest : list Op) (q0 : JobQueue)
    (m0 : Mem) (cs : list Choice) (s : State Mem) :
  free_last rest = true ->
  run jobsem NDEBUG cs (init n (protocol jobs rest) q0 m0) = Some s ->
  returns (hist s) ⊆+ calls (hist s) ∧
  calls (hist s) ⊆+ links (hist s) ∧
  links (hist s) ⊆+ jobs ++ addjobs rest.
Proof.
  intros Hfl Hr.
  destruct (calls_run jobsem NDEBUG _ _ _ _ _ _ _ Hfl Hr) as [H1 Hsub]. inv1 H1.
  split_and!.
  - rewrite i_calls. by apply submseteq_inserts_l.
  - done.
  - rewrite <- addjobs_protocol, <- i_prog.
    rewrite (Permutation_rev (links (hist s))) at 1. by apply submseteq_inserts_r.
Qed.

(** The unit test when the worker has run the job submitted last. *)
Lemma jobs_called_at_most_once_witness :
  exists s : State Test.Mem,
    run Test.jobfunc false (Test.sched_submit ++ Test.sched_job 0) Test.test_init
      = Some s ∧
    calls (hist s) = [(1, 200)] ∧ calls (hist s) ⊆+ links (hist s).
Proof.
  destruct (run Test.jobfunc false (Test.sched_submit ++ Test.sched_job 0) Test.test_init)
    as [s|] eqn:E; [|vm_compute in E; discriminate E].
  exists s. split; [reflexivity|].
  split; [vm_compute in E; injection E as <-; reflexivity|].
  apply (jobs_called_at_most_once Test.jobfunc false 1 Test.jobs [OpFree]
           Test.q0 Test.m0 _ s eq_refl E).
Defined.

(** X24: the owner is signalled once, by the last worker to stop: in every
    execution the condition wakeMain has been signalled at most once, and it
    has been signalled exactly when the queue has at least one thread and all
    its threads are past the test of line 201, that is when the worker that
    found threadsStopped equal to nthreads has made the call of line 202. *)
Theorem owner_signalled_once {Mem : Type} (jobsem : Z -> Z -> Mem -> Mem)
    (NDEBUG : bool) (n : Z) (p0 : list Op) (q0 : JobQueue) (m0 : Mem)
    (cs : list Choice) (s : State Mem) :
  run jobsem NDEBUG cs (init n p0 q0 m0) = Some s ->
  (main_signals (hist s) <= 1)%nat ∧
  (main_signals (hist s) = 1%nat <-> 0 < n ∧ npast (workers s) = n).
Proof.
  intros Hr. destruct (signal_run jobsem NDEBUG _ _ _ _ _ _ Hr) as [_ Hsig].
  unfold signal_fact in Hsig. rewrite Hsig.
  destruct (decide (0 < n ∧ npast (workers s) = n)) as [Hy|Hn].
  - split; [lia|]. done.
  - split; [lia|]. split; [done|]. intros Hy. by destruct Hn.
Qed.

(** The unit test: no signal while the worker is at line 201, one when
    JobQueue_waitOnJobs has returned. *)
Lemma owner_signalled_once_witness :
  exists s1 s2 : State Test.Mem,
    run Test.jobfunc false (Test.sched_drain ++ [Test.W 0]) Test.test_init = Some s1 ∧
    run Test.jobfunc false Test.sched_test Test.test_init = Some s2 ∧
    workers s1 = [Thr_201] ∧ main_signals (hist s1) = 0%nat ∧
    main_signals (hist s2) = 1%nat.
Proof.
  destruct (run Test.jobfunc false (Test.sched_drain ++ [Test.W 0]) Test.test_init)
    as [s1|] eqn:E1; [|vm_compute in E1; discriminate E1].
  destruct (run Test.jobfunc false Test.sched_test Test.test_init)
    as [s2|] eqn:E2; [|vm_compute in E2; discriminate E2].
  exists s1, s2. split; [reflexivity|]. split; [reflexivity|].
  assert (workers s1 = [Thr_201]) as Hw1
    by (vm_compute in E1; injection E1 as <-; reflexivity).
  assert (workers s2 = [Thr_212]) as Hw2
    by (vm_compute in E2; injection E2 as <-; reflexivity).
  destruct (owner_signalled_once Test.jobfunc false 1 (protocol Test.jobs [OpFree])
              Test.q0 Test.m0 _ s1 E1) as [Hle1 Hiff1].
  destruct (owner_signalled_once Test.jobfunc false 1 (protocol Test.jobs [OpFree])
              Test.q0 Test.m0 _ s2 E2) as [_ Hiff2].
  split; [exact Hw1|]. split.
  - destruct (main_signals (hist s1)) as [|[|k]]; [reflexivity| |lia].
    destruct (proj1 Hiff1 eq_refl) as [_ Hn]. rewrite Hw1 in Hn. discriminate Hn.
  - apply Hiff2. rewrite Hw2. split; [lia|reflexivity].
Defined.
